(** * Piket ompreng: a discrete-event simulation of a three-stage canteen line

    Shallow embedding of the simulation core of [app.py] (class [Config] and
    class [PiketOmprengDES]).  The program is written against SimPy: an
    [Environment] with a heap of [(time, priority, eid, event)] entries,
    [Resource]s with a capacity, and unbounded [Store]s.  Generators are
    embedded as explicit frames (the program point at which a generator is
    suspended, with its live local variables); every suspended generator
    waits for exactly one event, so the frame travels with that event.

    Virtual time is a float in Python; here it is a rational number kept in
    lowest terms.  The module-global generator of [random] is an abstract
    [RandomSource]. *)

From Stdlib Require Import ZArith QArith Qround List String Lia Lqa Bool Arith.
From Stdlib Require Import Permutation Sorted Wellfounded Relation_Operators
  Lexicographic_Product.
Import ListNotations.

Local Open Scope Z_scope.

(* ===================================================================== *)
(** ** Configuration *)
(* ===================================================================== *)

Record Config := mkConfig {
  NUM_MEJA : Z;
  MAHASISWA_PER_MEJA : Z;
  PETUGAS_LAUK : Z;
  PETUGAS_ANGKUT : Z;
  PETUGAS_NASI : Z;
  LAUK_MIN_TIME : Q;
  LAUK_MAX_TIME : Q;
  ANGKUT_MIN_TIME : Q;
  ANGKUT_MAX_TIME : Q;
  ANGKUT_MIN_LOAD : Z;
  ANGKUT_MAX_LOAD : Z;
  NASI_MIN_TIME : Q;
  NASI_MAX_TIME : Q;
  START_HOUR : Z;
  START_MINUTE : Z;
  RANDOM_SEED : Z
}.

(** The dataclass defaults. *)
Definition default_config : Config :=
  {| NUM_MEJA := 60; MAHASISWA_PER_MEJA := 3;
     PETUGAS_LAUK := 3; PETUGAS_ANGKUT := 2; PETUGAS_NASI := 2;
     LAUK_MIN_TIME := 30; LAUK_MAX_TIME := 60;
     ANGKUT_MIN_TIME := 20; ANGKUT_MAX_TIME := 60;
     ANGKUT_MIN_LOAD := 4; ANGKUT_MAX_LOAD := 7;
     NASI_MIN_TIME := 30; NASI_MAX_TIME := 60;
     START_HOUR := 7; START_MINUTE := 0;
     RANDOM_SEED := 42 |}.

(** [Config.TOTAL_OMPRENG] (a property). *)
Definition TOTAL_OMPRENG (c : Config) : Z := NUM_MEJA c * MAHASISWA_PER_MEJA c.

(* ===================================================================== *)
(** ** Exceptions *)
(* ===================================================================== *)

Inductive exn :=
| ValueError (msg : string)
| KeyError (key : string)
| TypeError (msg : string).

Inductive result (A : Type) :=
| Ok (a : A)
| Raise (e : exn).
Arguments Ok {A} a.
Arguments Raise {A} e.

Definition bind {A B} (r : result A) (f : A -> result B) : result B :=
  match r with
  | Ok a => f a
  | Raise e => Raise e
  end.

Notation "x <- c1 ;; c2" := (bind c1 (fun x => c2))
  (at level 61, c1 at next level, right associativity).

(* ===================================================================== *)
(** ** The random source *)
(* ===================================================================== *)

(** The state of Python's module-global generator and the three operations
    the program reaches: [random.seed], [random.random] (a float in
    [0, 1)) and [Random._randbelow] (an integer below its argument). *)
Class RandomSource := {
  gen : Type;
  seed : Z -> gen;
  random : gen -> Q * gen;
  randbelow : Z -> gen -> Z * gen
}.

Class RandomSourceOk (R : RandomSource) : Prop := {
  random_unit : forall g, (0 <= fst (random g))%Q /\ (fst (random g) < 1)%Q;
  randbelow_range : forall n g, 0 < n -> 0 <= fst (randbelow n g) < n
}.

(** A source that always draws zero: the simplest lawful instance. *)
Definition zero_source : RandomSource :=
  {| gen := unit;
     seed := fun _ => tt;
     random := fun _ => (0%Q, tt);
     randbelow := fun _ _ => (0, tt) |}.

Lemma zero_source_ok : RandomSourceOk zero_source.
Proof.
  split; simpl; intros.
  - split; [apply Qle_refl | reflexivity].
  - lia.
Qed.

(** A linear congruential source, to have a lawful instance whose draws
    move. *)
Definition lcg_next (s : Z) : Z := (1103515245 * s + 12345) mod 2147483648.

Definition lcg_source : RandomSource :=
  {| gen := Z;
     seed := fun s => s mod 2147483648;
     random := fun s => (Qred (Qmake (lcg_next s) 2147483648), lcg_next s);
     randbelow := fun n s => (lcg_next s mod n, lcg_next s) |}.

Lemma lcg_source_ok : RandomSourceOk lcg_source.
Proof.
  split; intros.
  - pose proof (Z.mod_pos_bound (1103515245 * g + 12345) 2147483648 eq_refl) as Hb.
    change (fst (random g)) with (Qred (Qmake (lcg_next g) 2147483648)).
    fold (lcg_next g) in Hb. generalize dependent (lcg_next g). intros x Hx.
    split; rewrite Qred_correct; unfold Qle, Qlt; cbn [Qnum Qden]; lia.
  - apply Z.mod_pos_bound; assumption.
Qed.

(* ===================================================================== *)
(** ** Data carried through the pipeline *)
(* ===================================================================== *)

(** The dict built by [proses_ompreng]; the key ["selesai_angkut"] is
    added later by [proses_angkut]. *)
Record item := mkItem {
  it_id : Z;
  it_datang : Q;
  it_mulai_lauk : Q;
  it_selesai_lauk : Q;
  it_selesai_angkut : option Q
}.

(** The dict appended to [self.data] by [proses_nasi].  [jam_selesai] is a
    datetime in the source; here it is the number of seconds after
    midnight of 2024-01-01. *)
Record rekod := mkRekod {
  r_id : Z;
  r_mulai_lauk : Q;
  r_selesai_lauk : Q;
  r_mulai_nasi : Q;
  r_selesai_nasi : Q;
  r_total_waktu : Q;
  r_jam_selesai : Q
}.

(* ===================================================================== *)
(** ** Generator frames *)
(* ===================================================================== *)

(** Where [proses_ompreng(oid)] is suspended. *)
Inductive ompreng_frame :=
| OStart                                   (* not yet started *)
| OGranted (datang : Q)                    (* at [yield req] *)
| OServed (datang mulai_lauk t : Q)        (* at [yield self.env.timeout(t)] *)
| OPut.                                    (* at [yield self.antrian_lauk.put(..)] *)

(** Where [proses_angkut()] is suspended. *)
Inductive angkut_frame :=
| ALoop                                    (* not yet started, or at [yield timeout(0.5)] *)
| AGet (batch : list item) (sisa : nat)    (* at [yield self.antrian_lauk.get()], [sisa] rounds of the [for] left *)
| AGranted (batch : list item)             (* at [yield req] *)
| AServed (batch : list item) (t : Q)      (* at [yield self.env.timeout(t)] *)
| APut (rest : list item).                 (* at [yield self.antrian_nasi.put(item)], [rest] still to go *)

(** Where [proses_nasi()] is suspended. *)
Inductive nasi_frame :=
| NLoop                                    (* not yet started, or at [yield timeout(0.5)] *)
| NGet                                     (* at [item = yield self.antrian_nasi.get()] *)
| NGranted (it : item)                     (* at [yield req] *)
| NServed (it : item) (mulai_nasi t : Q).  (* at [yield self.env.timeout(t)] *)

(** A suspended generator: [generate] is suspended in its [for] loop with
    the next index to use. *)
Inductive cont :=
| KGenerate (i : Z)
| KOmpreng (oid : Z) (f : ompreng_frame)
| KAngkut (f : angkut_frame)
| KNasi (f : nasi_frame).

Inductive proc :=
| ProcGenerate
| ProcOmpreng (oid : Z)
| ProcAngkut
| ProcNasi.

Definition proc_of (k : cont) : proc :=
  match k with
  | KGenerate _ => ProcGenerate
  | KOmpreng oid _ => ProcOmpreng oid
  | KAngkut _ => ProcAngkut
  | KNasi _ => ProcNasi
  end.

Definition proc_eqb (p q : proc) : bool :=
  match p, q with
  | ProcGenerate, ProcGenerate => true
  | ProcOmpreng a, ProcOmpreng b => a =? b
  | ProcAngkut, ProcAngkut => true
  | ProcNasi, ProcNasi => true
  | _, _ => false
  end.

(* ===================================================================== *)
(** ** SimPy: environment, events, resources, stores *)
(* ===================================================================== *)

Inductive res_id := RLauk | RAngkut | RNasi.
Inductive store_id := SLauk | SNasi.

(** A scheduled event, by its callback list.
    - [EvInitialize k], [EvTimeout k]: callbacks [[process._resume]];
    - [EvRequest r k]: a granted [Request], callbacks
      [[resource._trigger_get; process._resume]];
    - [EvRelease r]: callbacks [[resource._trigger_put]];
    - [EvPut s k]: a [StorePut], callbacks [[store._trigger_get; process._resume]];
    - [EvGet s v k]: a [StoreGet] with value [v], callbacks
      [[store._trigger_put; process._resume]];
    - [EvProcess]: the event of a generator that has returned, no callback. *)
Inductive event :=
| EvInitialize (k : cont)
| EvTimeout (k : cont)
| EvRequest (r : res_id) (k : cont)
| EvRelease (r : res_id)
| EvPut (s : store_id) (k : cont)
| EvGet (s : store_id) (v : item) (k : cont)
| EvProcess.

Definition URGENT : Z := 0.
Definition NORMAL : Z := 1.

Record entry := mkEntry {
  e_time : Q;
  e_prio : Z;
  e_eid : nat;
  e_event : event
}.

Definition Qltb (a b : Q) : bool :=
  match (a ?= b)%Q with
  | Lt => true
  | _ => false
  end.

(** Tuple comparison of the heap: time, then priority, then eid. *)
Definition entry_ltb (a b : entry) : bool :=
  match (e_time a ?= e_time b)%Q with
  | Lt => true
  | Gt => false
  | Eq => match e_prio a ?= e_prio b with
          | Lt => true
          | Gt => false
          | Eq => Nat.ltb (e_eid a) (e_eid b)
          end
  end.

(** [heappop]: the least entry and the others. *)
Fixpoint heappop (q : list entry) : option (entry * list entry) :=
  match q with
  | [] => None
  | e :: q' =>
      match heappop q' with
      | None => Some (e, [])
      | Some (e', r) =>
          if entry_ltb e' e then Some (e', e :: r) else Some (e, q')
      end
  end.

Record Environment := mkEnv {
  now : Q;
  queue : list entry;
  eid : nat
}.

(** [simpy.Resource]: [put_queue] holds the requests not yet granted, each
    with the generator that waits for it.  A [Release] succeeds at once, so
    the resource's [get_queue] is always empty and is left out. *)
Record Resource := mkResource {
  capacity : Z;
  users : list proc;
  put_queue : list cont
}.

(** [simpy.Store] of infinite capacity: a [StorePut] succeeds at once, so
    the store's [put_queue] is always empty and is left out. *)
Record Store := mkStore {
  items : list item;
  get_queue : list cont
}.

(* ===================================================================== *)
(** ** History variables *)
(* ===================================================================== *)

(** One formed transport batch: the draw that opened it (the drawn
    [kapasitas], the length of [antrian_lauk.items] and the clock at the
    draw), the batch, and the clock when its last [get] returned. *)
Record muatan := mkMuatan {
  mu_draw : option (Z * nat * Q);
  mu_batch : list item;
  mu_selesai : Q
}.

(** Never read by the program: the item behind each appended record, the
    batches formed, and the draw of the batch being formed. *)
Record History := mkHistory {
  riwayat : list (item * rekod);
  muatan_log : list muatan;
  forming : option (Z * nat * Q)
}.

(* ===================================================================== *)
(** ** The model object *)
(* ===================================================================== *)

Section Engine.

Context {R : RandomSource}.

(** The fields of [PiketOmprengDES], the state of the module-global
    generator of [random], and the history variables.  [start_time] is in
    seconds after midnight of 2024-01-01. *)
Record PiketOmprengDES := mkModel {
  config : Config;
  env : Environment;
  petugas_lauk : Resource;
  petugas_angkut : Resource;
  petugas_nasi : Resource;
  antrian_lauk : Store;
  antrian_nasi : Store;
  data : list rekod;
  completed : Z;
  busy_lauk : Q;
  busy_angkut : Q;
  busy_nasi : Q;
  start_time : Z;
  random_state : gen;
  history : History
}.

Definition set_env (m : PiketOmprengDES) (e : Environment) : PiketOmprengDES :=
  mkModel (config m) e (petugas_lauk m) (petugas_angkut m) (petugas_nasi m)
    (antrian_lauk m) (antrian_nasi m) (data m) (completed m)
    (busy_lauk m) (busy_angkut m) (busy_nasi m) (start_time m)
    (random_state m) (history m).

Definition get_res (m : PiketOmprengDES) (r : res_id) : Resource :=
  match r with
  | RLauk => petugas_lauk m
  | RAngkut => petugas_angkut m
  | RNasi => petugas_nasi m
  end.

Definition set_res (m : PiketOmprengDES) (r : res_id) (x : Resource) : PiketOmprengDES :=
  mkModel (config m) (env m)
    (match r with RLauk => x | _ => petugas_lauk m end)
    (match r with RAngkut => x | _ => petugas_angkut m end)
    (match r with RNasi => x | _ => petugas_nasi m end)
    (antrian_lauk m) (antrian_nasi m) (data m) (completed m)
    (busy_lauk m) (busy_angkut m) (busy_nasi m) (start_time m)
    (random_state m) (history m).

Definition get_store (m : PiketOmprengDES) (s : store_id) : Store :=
  match s with
  | SLauk => antrian_lauk m
  | SNasi => antrian_nasi m
  end.

Definition set_store (m : PiketOmprengDES) (s : store_id) (x : Store) : PiketOmprengDES :=
  mkModel (config m) (env m) (petugas_lauk m) (petugas_angkut m) (petugas_nasi m)
    (match s with SLauk => x | _ => antrian_lauk m end)
    (match s with SNasi => x | _ => antrian_nasi m end)
    (data m) (completed m)
    (busy_lauk m) (busy_angkut m) (busy_nasi m) (start_time m)
    (random_state m) (history m).

Definition set_random_state (m : PiketOmprengDES) (g : gen) : PiketOmprengDES :=
  mkModel (config m) (env m) (petugas_lauk m) (petugas_angkut m) (petugas_nasi m)
    (antrian_lauk m) (antrian_nasi m) (data m) (completed m)
    (busy_lauk m) (busy_angkut m) (busy_nasi m) (start_time m)
    g (history m).

Definition set_history (m : PiketOmprengDES) (h : History) : PiketOmprengDES :=
  mkModel (config m) (env m) (petugas_lauk m) (petugas_angkut m) (petugas_nasi m)
    (antrian_lauk m) (antrian_nasi m) (data m) (completed m)
    (busy_lauk m) (busy_angkut m) (busy_nasi m) (start_time m)
    (random_state m) h.

(** [self.busy_lauk += t] and its siblings. *)
Definition add_busy (r : res_id) (t : Q) (m : PiketOmprengDES) : PiketOmprengDES :=
  mkModel (config m) (env m) (petugas_lauk m) (petugas_angkut m) (petugas_nasi m)
    (antrian_lauk m) (antrian_nasi m) (data m) (completed m)
    (match r with RLauk => Qred (busy_lauk m + t) | _ => busy_lauk m end)
    (match r with RAngkut => Qred (busy_angkut m + t) | _ => busy_angkut m end)
    (match r with RNasi => Qred (busy_nasi m + t) | _ => busy_nasi m end)
    (start_time m) (random_state m) (history m).

(** [self.data.append(rec)] followed by [self.completed += 1]. *)
Definition append_data (rec : rekod) (m : PiketOmprengDES) : PiketOmprengDES :=
  mkModel (config m) (env m) (petugas_lauk m) (petugas_angkut m) (petugas_nasi m)
    (antrian_lauk m) (antrian_nasi m) (data m ++ [rec]) (completed m)
    (busy_lauk m) (busy_angkut m) (busy_nasi m) (start_time m)
    (random_state m) (history m).

Definition incr_completed (m : PiketOmprengDES) : PiketOmprengDES :=
  mkModel (config m) (env m) (petugas_lauk m) (petugas_angkut m) (petugas_nasi m)
    (antrian_lauk m) (antrian_nasi m) (data m) (completed m + 1)
    (busy_lauk m) (busy_angkut m) (busy_nasi m) (start_time m)
    (random_state m) (history m).

(* --------------------------------------------------------------------- *)
(** *** Environment *)

(** [Environment.schedule]: push [(now + delay, priority, next(eid), event)]. *)
Definition schedule (ev : event) (prio : Z) (delay : Q) (m : PiketOmprengDES)
  : PiketOmprengDES :=
  let e := env m in
  set_env m (mkEnv (now e)
                   (queue e ++ [mkEntry (Qred (now e + delay)) prio (eid e) ev])
                   (S (eid e))).

(** [env.process(gen)]: an [Initialize] event, scheduled urgent. *)
Definition process (k : cont) (m : PiketOmprengDES) : PiketOmprengDES :=
  schedule (EvInitialize k) URGENT 0 m.

(** [yield env.timeout(delay)] by the generator suspended as [k].  The
    message of SimPy goes on with the delay. *)
Definition timeout (delay : Q) (k : cont) (m : PiketOmprengDES)
  : result PiketOmprengDES :=
  if Qltb delay 0
  then Raise (ValueError "Negative delay")
  else Ok (schedule (EvTimeout k) NORMAL delay m).

(** A generator returns: its [Process] event is scheduled. *)
Definition finish (m : PiketOmprengDES) : PiketOmprengDES :=
  schedule EvProcess NORMAL 0 m.

(* --------------------------------------------------------------------- *)
(** *** Resource *)

(** [Resource._trigger_put]: [_do_put] returns [None], so only the head of
    the put queue is tried. *)
Definition trigger_put (r : res_id) (m : PiketOmprengDES) : PiketOmprengDES :=
  let x := get_res m r in
  match put_queue x with
  | [] => m
  | k :: rest =>
      if Z.of_nat (List.length (users x)) <? capacity x
      then schedule (EvRequest r k) NORMAL 0
             (set_res m r (mkResource (capacity x) (users x ++ [proc_of k]) rest))
      else m
  end.

(** [yield resource.request()] by the generator suspended as [k]. *)
Definition request (r : res_id) (k : cont) (m : PiketOmprengDES) : PiketOmprengDES :=
  let x := get_res m r in
  trigger_put r (set_res m r (mkResource (capacity x) (users x) (put_queue x ++ [k]))).

(** [list.remove]: drop the first occurrence, if any. *)
Fixpoint remove_first (p : proc) (l : list proc) : list proc :=
  match l with
  | [] => []
  | q :: l' => if proc_eqb p q then l' else q :: remove_first p l'
  end.

(** [resource.release(req)] on leaving the [with] block: the user is
    removed and the [Release] event succeeds at once. *)
Definition release (r : res_id) (p : proc) (m : PiketOmprengDES) : PiketOmprengDES :=
  let x := get_res m r in
  schedule (EvRelease r) NORMAL 0
    (set_res m r (mkResource (capacity x) (remove_first p (users x)) (put_queue x))).

(* --------------------------------------------------------------------- *)
(** *** Store *)

(** [Store._trigger_get]: [_do_get] returns [None], so only the head of
    the get queue is tried. *)
Definition trigger_get (s : store_id) (m : PiketOmprengDES) : PiketOmprengDES :=
  let x := get_store m s in
  match get_queue x with
  | [] => m
  | k :: rest =>
      match items x with
      | [] => m
      | v :: its => schedule (EvGet s v k) NORMAL 0 (set_store m s (mkStore its rest))
      end
  end.

(** [yield store.get()] by the generator suspended as [k]. *)
Definition store_get (s : store_id) (k : cont) (m : PiketOmprengDES) : PiketOmprengDES :=
  let x := get_store m s in
  trigger_get s (set_store m s (mkStore (items x) (get_queue x ++ [k]))).

(** [yield store.put(it)] by the generator suspended as [k]. *)
Definition store_put (s : store_id) (it : item) (k : cont) (m : PiketOmprengDES)
  : PiketOmprengDES :=
  let x := get_store m s in
  schedule (EvPut s k) NORMAL 0 (set_store m s (mkStore (items x ++ [it]) (get_queue x))).

(* --------------------------------------------------------------------- *)
(** *** Draws *)

(** [random.uniform(a, b)] is [a + (b - a) * random()]. *)
Definition uniform (a b : Q) (m : PiketOmprengDES) : Q * PiketOmprengDES :=
  let (u, g) := random (random_state m) in
  (Qred (a + (b - a) * u), set_random_state m g).

(** [random.randint(a, b)] is [randrange(a, b + 1)].  The message of
    Python goes on with the arguments. *)
Definition randint (a b : Z) (m : PiketOmprengDES) : result (Z * PiketOmprengDES) :=
  let width := b + 1 - a in
  if 0 <? width
  then let (n, g) := randbelow width (random_state m) in
       Ok (a + n, set_random_state m g)
  else Raise (ValueError "empty range for randrange()").

Definition waktu_lauk (m : PiketOmprengDES) : Q * PiketOmprengDES :=
  uniform (LAUK_MIN_TIME (config m)) (LAUK_MAX_TIME (config m)) m.

Definition waktu_angkut (m : PiketOmprengDES) : Q * PiketOmprengDES :=
  uniform (ANGKUT_MIN_TIME (config m)) (ANGKUT_MAX_TIME (config m)) m.

Definition waktu_nasi (m : PiketOmprengDES) : Q * PiketOmprengDES :=
  uniform (NASI_MIN_TIME (config m)) (NASI_MAX_TIME (config m)) m.

(** [round]: to the nearest integer, a tie to the even one. *)
Definition round_half_even (q : Q) : Z :=
  let f := Qfloor q in
  match (q - inject_Z f ?= 1 # 2)%Q with
  | Lt => f
  | Gt => f + 1
  | Eq => if Z.even f then f else f + 1
  end.

(** [self.start_time + timedelta(seconds=detik)]: a [timedelta] is a whole
    number of microseconds.  The datetime of Python ends with the year
    9999, past which the sum raises [OverflowError]; here it has no
    end. *)
Definition waktu_ke_jam (m : PiketOmprengDES) (detik : Q) : Q :=
  Qred (inject_Z (start_time m)
        + inject_Z (round_half_even (detik * 1000000)) / 1000000).

(* --------------------------------------------------------------------- *)
(** *** History updates (no effect on the program state) *)

Definition set_forming (f : option (Z * nat * Q)) (m : PiketOmprengDES) : PiketOmprengDES :=
  let h := history m in
  set_history m (mkHistory (riwayat h) (muatan_log h) f).

Definition log_muatan (batch : list item) (m : PiketOmprengDES) : PiketOmprengDES :=
  let h := history m in
  set_history m
    (mkHistory (riwayat h)
               (muatan_log h ++ [mkMuatan (forming h) batch (now (env m))])
               None).

Definition log_riwayat (it : item) (rec : rekod) (m : PiketOmprengDES) : PiketOmprengDES :=
  let h := history m in
  set_history m (mkHistory (riwayat h ++ [(it, rec)]) (muatan_log h) (forming h)).

(* ===================================================================== *)
(** ** The generators of [PiketOmprengDES] *)
(* ===================================================================== *)

(** Each function resumes its generator at a frame and runs it to the next
    [yield] (or to its end). *)

(** [generate]: the [for i in range(TOTAL_OMPRENG)] loop at index [i]. *)
Definition generate (i : Z) (m : PiketOmprengDES) : result PiketOmprengDES :=
  if i <? TOTAL_OMPRENG (config m)
  then timeout 0 (KGenerate (i + 1)) (process (KOmpreng i OStart) m)
  else Ok (finish m).

Definition proses_ompreng (oid : Z) (f : ompreng_frame) (m : PiketOmprengDES)
  : result PiketOmprengDES :=
  match f with
  | OStart =>
      let datang := now (env m) in
      Ok (request RLauk (KOmpreng oid (OGranted datang)) m)
  | OGranted datang =>
      let mulai_lauk := now (env m) in
      let (t, m1) := waktu_lauk m in
      timeout t (KOmpreng oid (OServed datang mulai_lauk t)) m1
  | OServed datang mulai_lauk t =>
      let m1 := release RLauk (ProcOmpreng oid) m in
      let m2 := add_busy RLauk t m1 in
      Ok (store_put SLauk
            (mkItem oid datang mulai_lauk (now (env m2)) None)
            (KOmpreng oid OPut) m2)
  | OPut => Ok (finish m)
  end.

(** The [for _ in range(..)] loop of [proses_angkut] with [sisa] rounds
    left; after the last round the transport server is requested. *)
Definition angkut_for (batch : list item) (sisa : nat) (m : PiketOmprengDES)
  : PiketOmprengDES :=
  match sisa with
  | S sisa' => store_get SLauk (KAngkut (AGet batch sisa')) m
  | O => request RAngkut (KAngkut (AGranted batch)) (log_muatan batch m)
  end.

(** [proses_angkut] from the test of its [while]. *)
Definition angkut_loop (m : PiketOmprengDES) : result PiketOmprengDES :=
  if completed m <? TOTAL_OMPRENG (config m)
  then
    let tersedia := List.length (items (antrian_lauk m)) in
    if Nat.eqb tersedia 0
    then timeout (1 # 2) (KAngkut ALoop) m
    else
      match randint (ANGKUT_MIN_LOAD (config m)) (ANGKUT_MAX_LOAD (config m)) m with
      | Raise e => Raise e
      | Ok (kapasitas, m1) =>
          let n := Z.to_nat (Z.min kapasitas (Z.of_nat tersedia)) in
          Ok (angkut_for [] n
                (set_forming (Some (kapasitas, tersedia, now (env m1))) m1))
      end
  else Ok (finish m).

Definition stamp (it : item) (t : Q) : item :=
  mkItem (it_id it) (it_datang it) (it_mulai_lauk it) (it_selesai_lauk it) (Some t).

(** The [for item in batch] loop of [proses_angkut] over what is left of
    the batch; after it the [while] is tested again. *)
Definition angkut_put (rest : list item) (m : PiketOmprengDES) : result PiketOmprengDES :=
  match rest with
  | it :: rest' =>
      Ok (store_put SNasi (stamp it (now (env m))) (KAngkut (APut rest')) m)
  | [] => angkut_loop m
  end.

(** [v] is the value of the event the generator waited for.  A [StoreGet]
    always carries an item, so the [None] branches at [AGet] and [NGet]
    are never taken. *)
Definition proses_angkut (f : angkut_frame) (v : option item) (m : PiketOmprengDES)
  : result PiketOmprengDES :=
  match f with
  | ALoop => angkut_loop m
  | AGet batch sisa =>
      match v with
      | Some it => Ok (angkut_for (batch ++ [it]) sisa m)
      | None => Raise (TypeError "NoneType object does not support item assignment")
      end
  | AGranted batch =>
      let (t, m1) := waktu_angkut m in
      timeout t (KAngkut (AServed batch t)) m1
  | AServed batch t =>
      let m1 := release RAngkut ProcAngkut m in
      let m2 := add_busy RAngkut t m1 in
      angkut_put batch m2
  | APut rest => angkut_put rest m
  end.

(** [proses_nasi] from the test of its [while]. *)
Definition nasi_loop (m : PiketOmprengDES) : result PiketOmprengDES :=
  if completed m <? TOTAL_OMPRENG (config m)
  then
    if Nat.eqb (List.length (items (antrian_nasi m))) 0
    then timeout (1 # 2) (KNasi NLoop) m
    else Ok (store_get SNasi (KNasi NGet) m)
  else Ok (finish m).

(** The dict appended to [self.data]. *)
Definition rekod_of (it : item) (mulai_nasi selesai : Q) (m : PiketOmprengDES) : rekod :=
  mkRekod (it_id it) (it_mulai_lauk it) (it_selesai_lauk it) mulai_nasi selesai
          (Qred (selesai - it_datang it)) (waktu_ke_jam m selesai).

(** [proses_nasi] from the end of its [with] block to the increment of
    [self.completed]. *)
Definition nasi_selesai (it : item) (mulai_nasi t : Q) (m : PiketOmprengDES)
  : PiketOmprengDES :=
  let m1 := release RNasi ProcNasi m in
  let m2 := add_busy RNasi t m1 in
  let selesai := now (env m2) in
  let rec := rekod_of it mulai_nasi selesai m2 in
  incr_completed (log_riwayat it rec (append_data rec m2)).

Definition proses_nasi (f : nasi_frame) (v : option item) (m : PiketOmprengDES)
  : result PiketOmprengDES :=
  match f with
  | NLoop => nasi_loop m
  | NGet =>
      match v with
      | Some it => Ok (request RNasi (KNasi (NGranted it)) m)
      | None => Raise (TypeError "NoneType object is not subscriptable")
      end
  | NGranted it =>
      let mulai_nasi := now (env m) in
      let (t, m1) := waktu_nasi m in
      timeout t (KNasi (NServed it mulai_nasi t)) m1
  | NServed it mulai_nasi t => nasi_loop (nasi_selesai it mulai_nasi t m)
  end.

(** [Process._resume]: send the event's value into the generator. *)
Definition resume (k : cont) (v : option item) (m : PiketOmprengDES)
  : result PiketOmprengDES :=
  match k with
  | KGenerate i => generate i m
  | KOmpreng oid f => proses_ompreng oid f m
  | KAngkut f => proses_angkut f v m
  | KNasi f => proses_nasi f v m
  end.

(* ===================================================================== *)
(** ** The scheduler *)
(* ===================================================================== *)

(** The callbacks of an event, in order.  [Resource._trigger_get] finds an
    empty get queue and [Store._trigger_put] an empty put queue. *)
Definition fire (ev : event) (m : PiketOmprengDES) : result PiketOmprengDES :=
  match ev with
  | EvInitialize k => resume k None m
  | EvTimeout k => resume k None m
  | EvRequest _ k => resume k None m
  | EvRelease r => Ok (trigger_put r m)
  | EvPut s k => resume k None (trigger_get s m)
  | EvGet _ v k => resume k (Some v) m
  | EvProcess => Ok m
  end.

(** [Environment.step]: [None] is [EmptySchedule].  When a generator
    raises, SimPy fails its [Process] event and [step] raises once that
    event is popped, after the events scheduled before it; here the
    exception is returned by the step in which the generator raised.
    The steps that return are the same. *)
Definition step (m : PiketOmprengDES) : option (result PiketOmprengDES) :=
  match heappop (queue (env m)) with
  | None => None
  | Some (e, q) =>
      Some (fire (e_event e) (set_env m (mkEnv (e_time e) q (eid (env m)))))
  end.

(** [Environment.run()]: step until the schedule is empty.  [None] is
    "out of fuel". *)
Fixpoint env_run (fuel : nat) (m : PiketOmprengDES) : option (result PiketOmprengDES) :=
  match step m with
  | None => Some (Ok m)
  | Some (Raise e) => Some (Raise e)
  | Some (Ok m') =>
      match fuel with
      | O => None
      | S fuel' => env_run fuel' m'
      end
  end.

(** Exactly [n] steps, for statements about every scheduler step. *)
Fixpoint steps (n : nat) (m : PiketOmprengDES) : option PiketOmprengDES :=
  match n with
  | O => Some m
  | S n' =>
      match step m with
      | Some (Ok m') => steps n' m'
      | _ => None
      end
  end.

(* ===================================================================== *)
(** ** Construction, run and analysis *)
(* ===================================================================== *)

(** The double quote, for the messages that hold one. *)
Definition dquote : string :=
  String (Ascii.Ascii false true false false false true false false) EmptyString.

(** [simpy.Resource(env, capacity)]. *)
Definition new_resource (cap : Z) : result Resource :=
  if cap <=? 0
  then Raise (ValueError (dquote ++ "capacity" ++ dquote ++ " must be > 0."))
  else Ok (mkResource cap [] []).

(** [datetime(2024, 1, 1, hour, minute)], in seconds after midnight. *)
Definition new_start_time (hour minute : Z) : result Z :=
  if negb ((0 <=? hour) && (hour <=? 23))
  then Raise (ValueError "hour must be in 0..23")
  else if negb ((0 <=? minute) && (minute <=? 59))
  then Raise (ValueError "minute must be in 0..59")
  else Ok (hour * 3600 + minute * 60).

(** [np.random.seed(seed)]: the legacy seeding of NumPy takes an integer
    in [0 .. 2**32 - 1].  Nothing in the class draws from NumPy. *)
Definition numpy_seed (s : Z) : result unit :=
  if negb ((0 <=? s) && (s <=? 4294967295))
  then Raise (ValueError "Seed must be between 0 and 2**32 - 1")
  else Ok tt.

(** [PiketOmprengDES.__init__].  [g0] is the state the module-global
    generator happens to be in; [random.seed], which takes any integer,
    replaces it. *)
Definition init (c : Config) (g0 : gen) : result PiketOmprengDES :=
  lauk <- new_resource (PETUGAS_LAUK c) ;;
  angkut <- new_resource (PETUGAS_ANGKUT c) ;;
  nasi <- new_resource (PETUGAS_NASI c) ;;
  st <- new_start_time (START_HOUR c) (START_MINUTE c) ;;
  seeded <- numpy_seed (RANDOM_SEED c) ;;
  Ok (mkModel c (mkEnv 0 [] 0) lauk angkut nasi
        (mkStore [] []) (mkStore [] []) [] 0 0 0 0 st
        (seed (RANDOM_SEED c))
        (mkHistory [] [] None)).

(** The three [env.process(..)] calls that open [run], as the list of
    generators started. *)
Definition run_processes : list cont :=
  [KGenerate 0; KAngkut ALoop; KNasi NLoop].

Definition spawn (m : PiketOmprengDES) : PiketOmprengDES :=
  fold_left (fun m k => process k m) run_processes m.

(** A value of the [results] dict. *)
Inductive value :=
| VFloat (q : Q)
| VInt (z : Z).

Definition Qmax' (a b : Q) : Q := if Qle_bool a b then b else a.

Definition column_max (l : list Q) : Q :=
  match l with
  | [] => 0%Q
  | x :: l' => fold_left Qmax' l' x
  end.

Definition column_sum (l : list Q) : Q := fold_left Qplus l 0%Q.

Definition column_mean (l : list Q) : Q :=
  Qred (column_sum l / inject_Z (Z.of_nat (List.length l))).

(** [analyze_results]: [pd.DataFrame([])] has no column, so
    [df["total_waktu"]] raises [KeyError] on an empty [self.data]. *)
Definition analyze_results (m : PiketOmprengDES)
  : result (list (string * value) * list rekod) :=
  let df := data m in
  match df with
  | [] => Raise (KeyError "total_waktu")
  | _ =>
      let total_waktu := map r_total_waktu df in
      Ok ([("durasi_total_detik"%string, VFloat (column_max total_waktu));
           ("avg_total_time"%string, VFloat (column_mean total_waktu));
           ("total_ompreng"%string, VInt (Z.of_nat (List.length df)))],
          df)
  end.

(** [run]: the model after [env.run()], and what [run] returns. *)
Definition run_env (fuel : nat) (m : PiketOmprengDES) : option (result PiketOmprengDES) :=
  env_run fuel (spawn m).

Definition run (fuel : nat) (m : PiketOmprengDES)
  : option (result (list (string * value) * list rekod)) :=
  match run_env fuel m with
  | None => None
  | Some r => Some (m' <- r ;; analyze_results m')
  end.

(** Construction followed by [run()]. *)
Definition simulate (fuel : nat) (c : Config) (g0 : gen)
  : option (result (list (string * value) * list rekod)) :=
  match init c g0 with
  | Raise e => Some (Raise e)
  | Ok m => run fuel m
  end.

End Engine.

(** The scenario of the specification: six units, one server per stage,
    constant service times of 10, 5 and 5, batches of six. *)
Definition scenario : Config :=
  {| NUM_MEJA := 6; MAHASISWA_PER_MEJA := 1;
     PETUGAS_LAUK := 1; PETUGAS_ANGKUT := 1; PETUGAS_NASI := 1;
     LAUK_MIN_TIME := 10; LAUK_MAX_TIME := 10;
     ANGKUT_MIN_TIME := 5; ANGKUT_MAX_TIME := 5;
     ANGKUT_MIN_LOAD := 6; ANGKUT_MAX_LOAD := 6;
     NASI_MIN_TIME := 5; NASI_MAX_TIME := 5;
     START_HOUR := 7; START_MINUTE := 0;
     RANDOM_SEED := 42 |}.

Definition final_model {R : RandomSource} (fuel : nat) (c : Config) (g0 : gen)
  : option (result PiketOmprengDES) :=
  match init c g0 with
  | Raise e => Some (Raise e)
  | Ok m => run_env fuel m
  end.


(* ===================================================================== *)
(** ** Basic facts about the scheduler loop *)
(* ===================================================================== *)

Section RunFacts.

Context {R : RandomSource}.

Lemma env_run_more_fuel (n : nat) : forall (m : PiketOmprengDES) r,
  env_run n m = Some r -> forall n', (n <= n')%nat -> env_run n' m = Some r.
Proof.
  induction n as [|n IH]; intros m r H n' Hle.
  - destruct n'; simpl in *; destruct (step m) as [[m1|e]|]; congruence.
  - destruct n' as [|n']; [lia|].
    simpl in *. destruct (step m) as [[m1|e]|]; try congruence.
    apply IH with (n' := n') in H; [assumption | lia].
Qed.

Lemma env_run_deterministic (n n' : nat) (m : PiketOmprengDES) r r' :
  env_run n m = Some r -> env_run n' m = Some r' -> r = r'.
Proof.
  intros H H'.
  apply env_run_more_fuel with (n' := Nat.max n n') in H; [|lia].
  apply env_run_more_fuel with (n' := Nat.max n n') in H'; [|lia].
  congruence.
Qed.

(** A run that returns has taken finitely many steps and stopped on an
    empty schedule. *)
Lemma env_run_steps (n : nat) : forall (m m' : PiketOmprengDES),
  env_run n m = Some (Ok m') ->
  exists k, steps k m = Some m' /\ step m' = None.
Proof.
  induction n as [|n IH]; intros m m' H; simpl in H.
  - destruct (step m) as [[m1|e]|] eqn:E; try discriminate.
    inversion H; subst. exists 0%nat. split; [reflexivity | assumption].
  - destruct (step m) as [[m1|e]|] eqn:E; try discriminate.
    + destruct (IH _ _ H) as [k [Hk Hs]].
      exists (S k). simpl. rewrite E. split; assumption.
    + inversion H; subst. exists 0%nat. split; [reflexivity | assumption].
Qed.

Lemma steps_snoc (n : nat) : forall (m m1 m2 : PiketOmprengDES),
  steps n m = Some m1 -> step m1 = Some (Ok m2) -> steps (S n) m = Some m2.
Proof.
  induction n as [|n IH]; intros m m1 m2 H1 H2.
  - simpl in H1. inversion H1; subst. simpl. rewrite H2. reflexivity.
  - simpl in H1. destruct (step m) as [[m'|e]|] eqn:E; try discriminate.
    change (steps (S (S n)) m) with
      (match step m with Some (Ok m') => steps (S n) m' | _ => None end).
    rewrite E. eapply IH; eassumption.
Qed.

(** An invariant of [step] holds after any number of steps. *)
Lemma steps_invariant (P : PiketOmprengDES -> Prop) :
  (forall m m', P m -> step m = Some (Ok m') -> P m') ->
  forall n m m', P m -> steps n m = Some m' -> P m'.
Proof.
  intros Hstep. induction n as [|n IH]; intros m m' Hm H; simpl in H.
  - inversion H; subst; assumption.
  - destruct (step m) as [[m1|e]|] eqn:E; try discriminate.
    eapply IH; [eapply Hstep; eassumption | eassumption].
Qed.

End RunFacts.

(* ===================================================================== *)
(** ** The heap *)
(* ===================================================================== *)

Lemma heappop_None (q : list entry) : heappop q = None -> q = [].
Proof.
  destruct q as [|e q]; [reflexivity|]. simpl.
  destruct (heappop q) as [[e' r]|]; [destruct (entry_ltb e' e)|]; discriminate.
Qed.

Lemma heappop_perm (q : list entry) : forall e r,
  heappop q = Some (e, r) -> Permutation q (e :: r).
Proof.
  induction q as [|a q IH]; intros e r H; simpl in H; [discriminate|].
  destruct (heappop q) as [[e' r']|] eqn:E.
  - specialize (IH _ _ eq_refl).
    destruct (entry_ltb e' a); inversion H; subst.
    + rewrite IH. apply perm_swap.
    + reflexivity.
  - apply heappop_None in E. subst. inversion H; subst. reflexivity.
Qed.

(** The order of the heap as a proposition. *)
Definition entry_lt (a b : entry) : Prop :=
  (e_time a < e_time b)%Q \/
  ((e_time a == e_time b)%Q /\
   (e_prio a < e_prio b \/ (e_prio a = e_prio b /\ (e_eid a < e_eid b)%nat))).

Lemma entry_ltb_spec (a b : entry) : entry_ltb a b = true <-> entry_lt a b.
Proof.
  unfold entry_ltb, entry_lt.
  destruct (Qcompare_spec (e_time a) (e_time b)) as [E|E|E].
  - destruct (Z.compare_spec (e_prio a) (e_prio b)) as [P|P|P].
    + rewrite Nat.ltb_lt. split; [intros; right; auto|].
      intros [H|[_ [H|[_ H]]]]; [lra | lia | assumption].
    + split; [intros; right; auto | reflexivity].
    + split; [discriminate|]. intros [H|[_ [H|[H _]]]]; [lra | lia | lia].
  - split; [intros; left; assumption | reflexivity].
  - split; [discriminate|]. intros [H|[H _]]; lra.
Qed.

Definition entry_le (a b : entry) : Prop := entry_ltb b a = false.

Lemma entry_le_spec (a b : entry) : entry_le a b <-> ~ entry_lt b a.
Proof.
  unfold entry_le. rewrite <- entry_ltb_spec.
  destruct (entry_ltb b a); intuition congruence.
Qed.

Lemma entry_lt_or_le (a b : entry) : entry_lt a b \/ entry_le b a.
Proof.
  unfold entry_le. rewrite <- entry_ltb_spec. destruct (entry_ltb a b); auto.
Qed.

Lemma entry_lt_le (a b : entry) : entry_lt a b -> entry_le a b.
Proof.
  rewrite entry_le_spec. unfold entry_lt.
  intros [H|[H1 [H|[H2 H3]]]] [H'|[H1' [H'|[H2' H3']]]]; try lra; try lia.
Qed.

Lemma entry_le_trans (a b c : entry) : entry_le a b -> entry_le b c -> entry_le a c.
Proof.
  rewrite !entry_le_spec. unfold entry_lt. intros Hab Hbc Hca.
  destruct (Qlt_le_dec (e_time b) (e_time a)) as [L1|L1]; [apply Hab; left; exact L1|].
  destruct (Qlt_le_dec (e_time c) (e_time b)) as [L2|L2]; [apply Hbc; left; exact L2|].
  destruct Hca as [H|[H1 H]]; [lra|].
  assert (E1 : (e_time b == e_time a)%Q) by lra.
  assert (E2 : (e_time c == e_time b)%Q) by lra.
  destruct (Z_lt_le_dec (e_prio b) (e_prio a)) as [P1|P1];
    [apply Hab; right; split; [exact E1 | left; exact P1]|].
  destruct (Z_lt_le_dec (e_prio c) (e_prio b)) as [P2|P2];
    [apply Hbc; right; split; [exact E2 | left; exact P2]|].
  destruct H as [H|[H2 H3]]; [lia|].
  destruct (Nat.lt_ge_cases (e_eid b) (e_eid a)) as [N1|N1];
    [apply Hab; right; split; [exact E1 | right; split; [lia | exact N1]]|].
  destruct (Nat.lt_ge_cases (e_eid c) (e_eid b)) as [N2|N2];
    [apply Hbc; right; split; [exact E2 | right; split; [lia | exact N2]]|].
  lia.
Qed.

Lemma heappop_min (q : list entry) : forall e r,
  heappop q = Some (e, r) -> Forall (entry_le e) r.
Proof.
  induction q as [|a q IH]; intros e r H; simpl in H; [discriminate|].
  destruct (heappop q) as [[e' r']|] eqn:E.
  - specialize (IH _ _ eq_refl).
    destruct (entry_ltb e' a) eqn:L; inversion H; subst.
    + constructor; [|assumption].
      apply entry_lt_le. apply entry_ltb_spec. exact L.
    + assert (Hea : entry_le e e') by exact L.
      assert (Hall : Forall (entry_le e) (e' :: r')).
      { constructor; [assumption|].
        eapply Forall_impl; [|exact IH].
        intros x Hx. eapply entry_le_trans; eassumption. }
      apply heappop_perm in E.
      rewrite Forall_forall in *. intros x Hx. apply Hall.
      eapply Permutation_in; [exact E | exact Hx].
  - apply heappop_None in E. subst. inversion H; subst. constructor.
Qed.

Lemma entry_le_time (a b : entry) : entry_le a b -> (e_time a <= e_time b)%Q.
Proof.
  rewrite entry_le_spec. unfold entry_lt. intros H.
  destruct (Qlt_le_dec (e_time b) (e_time a)) as [L|L]; [|exact L].
  exfalso. apply H. left. exact L.
Qed.

Lemma heappop_In (q : list entry) e r x :
  heappop q = Some (e, r) -> In x q <-> x = e \/ In x r.
Proof.
  intros H. apply heappop_perm in H. split; intros Hx.
  - eapply Permutation_in in Hx; [|exact H]. destruct Hx; auto.
  - eapply Permutation_in; [symmetry; exact H|]. destruct Hx; [left|right]; auto.
Qed.

(* ===================================================================== *)
(** ** One step, taken apart *)
(* ===================================================================== *)

Section StepFacts.

Context {R : RandomSource}.

(** The model with the least entry popped and the clock advanced. *)
Definition popped (m : PiketOmprengDES) (e : entry) (q : list entry) : PiketOmprengDES :=
  set_env m (mkEnv (e_time e) q (eid (env m))).

Lemma step_Some (m : PiketOmprengDES) r :
  step m = Some r ->
  exists e q, heappop (queue (env m)) = Some (e, q) /\ r = fire (e_event e) (popped m e q).
Proof.
  unfold step. destruct (heappop (queue (env m))) as [[e q]|]; [|discriminate].
  intros H. inversion H. exists e, q. split; reflexivity.
Qed.

Lemma step_None (m : PiketOmprengDES) : step m = None -> queue (env m) = [].
Proof.
  unfold step. destruct (heappop (queue (env m))) as [[e q]|] eqn:E; [discriminate|].
  intros _. apply heappop_None; assumption.
Qed.

End StepFacts.

(** Projections and field updates, computed without touching arithmetic. *)
Tactic Notation "msimpl" :=
  cbn [config env petugas_lauk petugas_angkut petugas_nasi antrian_lauk
       antrian_nasi data completed busy_lauk busy_angkut busy_nasi start_time
       random_state history now queue eid capacity users put_queue items
       get_queue riwayat muatan_log forming e_time e_prio e_eid e_event
       set_env get_res set_res get_store set_store set_random_state
       set_history add_busy append_data incr_completed schedule process
       finish release store_put set_forming log_muatan log_riwayat popped
       nasi_selesai rekod_of stamp r_id r_mulai_lauk r_selesai_lauk
       r_mulai_nasi r_selesai_nasi r_total_waktu r_jam_selesai it_id
       it_datang it_mulai_lauk it_selesai_lauk it_selesai_angkut
       fst snd].

Tactic Notation "msimpl" "in" hyp(H) :=
  cbn [config env petugas_lauk petugas_angkut petugas_nasi antrian_lauk
       antrian_nasi data completed busy_lauk busy_angkut busy_nasi start_time
       random_state history now queue eid capacity users put_queue items
       get_queue riwayat muatan_log forming e_time e_prio e_eid e_event
       set_env get_res set_res get_store set_store set_random_state
       set_history add_busy append_data incr_completed schedule process
       finish release store_put set_forming log_muatan log_riwayat popped
       nasi_selesai rekod_of stamp r_id r_mulai_lauk r_selesai_lauk
       r_mulai_nasi r_selesai_nasi r_total_waktu r_jam_selesai it_id
       it_datang it_mulai_lauk it_selesai_lauk it_selesai_angkut
       fst snd] in H.

Lemma Ok_inj {A : Type} (a b : A) : Ok a = Ok b -> a = b.
Proof. congruence. Qed.

Lemma Some_inj {A : Type} (a b : A) : Some a = Some b -> a = b.
Proof. congruence. Qed.

(* ===================================================================== *)
(** ** The transitions, rule by rule *)
(* ===================================================================== *)

(** What [fire] computes, as one rule per generator frame and branch; the
    results are written with the primitives that do not fail. *)

Section Rules.

Context {R : RandomSource}.

(** A service-time draw followed by [yield self.env.timeout(t)]. *)
Definition served (lo hi : Q) (k : Q -> cont) (m m' : PiketOmprengDES) : Prop :=
  exists u g,
    random (random_state m) = (u, g) /\
    let t := Qred (lo + (hi - lo) * u) in
    Qltb t 0 = false /\
    m' = schedule (EvTimeout (k t)) NORMAL t (set_random_state m g).

Inductive angkut_loops (m : PiketOmprengDES) : PiketOmprengDES -> Prop :=
| AL_done :
    TOTAL_OMPRENG (config m) <= completed m ->
    angkut_loops m (finish m)
| AL_poll :
    completed m < TOTAL_OMPRENG (config m) ->
    items (antrian_lauk m) = [] ->
    angkut_loops m (schedule (EvTimeout (KAngkut ALoop)) NORMAL (1 # 2) m)
| AL_form n g :
    completed m < TOTAL_OMPRENG (config m) ->
    items (antrian_lauk m) <> [] ->
    ANGKUT_MIN_LOAD (config m) <= ANGKUT_MAX_LOAD (config m) ->
    randbelow (ANGKUT_MAX_LOAD (config m) + 1 - ANGKUT_MIN_LOAD (config m))
              (random_state m) = (n, g) ->
    angkut_loops m
      (angkut_for []
         (Z.to_nat (Z.min (ANGKUT_MIN_LOAD (config m) + n)
                          (Z.of_nat (List.length (items (antrian_lauk m))))))
         (set_forming (Some (ANGKUT_MIN_LOAD (config m) + n,
                             List.length (items (antrian_lauk m)),
                             now (env m)))
            (set_random_state m g))).

Inductive angkut_puts (m : PiketOmprengDES) : list item -> PiketOmprengDES -> Prop :=
| AP_next it rest :
    angkut_puts m (it :: rest)
      (store_put SNasi (stamp it (now (env m))) (KAngkut (APut rest)) m)
| AP_end m' :
    angkut_loops m m' -> angkut_puts m [] m'.

Inductive nasi_loops (m : PiketOmprengDES) : PiketOmprengDES -> Prop :=
| NL_done :
    TOTAL_OMPRENG (config m) <= completed m ->
    nasi_loops m (finish m)
| NL_poll :
    completed m < TOTAL_OMPRENG (config m) ->
    items (antrian_nasi m) = [] ->
    nasi_loops m (schedule (EvTimeout (KNasi NLoop)) NORMAL (1 # 2) m)
| NL_get :
    completed m < TOTAL_OMPRENG (config m) ->
    items (antrian_nasi m) <> [] ->
    nasi_loops m (store_get SNasi (KNasi NGet) m).

Inductive resumes (m : PiketOmprengDES) (v : option item) : cont -> PiketOmprengDES -> Prop :=
| RS_generate_next i :
    i < TOTAL_OMPRENG (config m) ->
    resumes m v (KGenerate i)
      (schedule (EvTimeout (KGenerate (i + 1))) NORMAL 0
         (process (KOmpreng i OStart) m))
| RS_generate_done i :
    TOTAL_OMPRENG (config m) <= i ->
    resumes m v (KGenerate i) (finish m)
| RS_ompreng_start oid :
    resumes m v (KOmpreng oid OStart)
      (request RLauk (KOmpreng oid (OGranted (now (env m)))) m)
| RS_ompreng_granted oid datang m' :
    served (LAUK_MIN_TIME (config m)) (LAUK_MAX_TIME (config m))
           (fun t => KOmpreng oid (OServed datang (now (env m)) t)) m m' ->
    resumes m v (KOmpreng oid (OGranted datang)) m'
| RS_ompreng_served oid datang mulai_lauk t :
    resumes m v (KOmpreng oid (OServed datang mulai_lauk t))
      (store_put SLauk (mkItem oid datang mulai_lauk (now (env m)) None)
         (KOmpreng oid OPut)
         (add_busy RLauk t (release RLauk (ProcOmpreng oid) m)))
| RS_ompreng_put oid :
    resumes m v (KOmpreng oid OPut) (finish m)
| RS_angkut_loop m' :
    angkut_loops m m' ->
    resumes m v (KAngkut ALoop) m'
| RS_angkut_get batch sisa it :
    v = Some it ->
    resumes m v (KAngkut (AGet batch sisa))
      (angkut_for (batch ++ [it]) sisa m)
| RS_angkut_granted batch m' :
    served (ANGKUT_MIN_TIME (config m)) (ANGKUT_MAX_TIME (config m))
           (fun t => KAngkut (AServed batch t)) m m' ->
    resumes m v (KAngkut (AGranted batch)) m'
| RS_angkut_served batch t m' :
    angkut_puts (add_busy RAngkut t (release RAngkut ProcAngkut m)) batch m' ->
    resumes m v (KAngkut (AServed batch t)) m'
| RS_angkut_put rest m' :
    angkut_puts m rest m' ->
    resumes m v (KAngkut (APut rest)) m'
| RS_nasi_loop m' :
    nasi_loops m m' ->
    resumes m v (KNasi NLoop) m'
| RS_nasi_get it :
    v = Some it ->
    resumes m v (KNasi NGet)
      (request RNasi (KNasi (NGranted it)) m)
| RS_nasi_granted it m' :
    served (NASI_MIN_TIME (config m)) (NASI_MAX_TIME (config m))
           (fun t => KNasi (NServed it (now (env m)) t)) m m' ->
    resumes m v (KNasi (NGranted it)) m'
| RS_nasi_served it mulai_nasi t m' :
    nasi_loops (nasi_selesai it mulai_nasi t m) m' ->
    resumes m v (KNasi (NServed it mulai_nasi t)) m'.

Inductive fires (m : PiketOmprengDES) : event -> PiketOmprengDES -> Prop :=
| F_initialize k m' : resumes m None k m' -> fires m (EvInitialize k) m'
| F_timeout k m' : resumes m None k m' -> fires m (EvTimeout k) m'
| F_request r k m' : resumes m None k m' -> fires m (EvRequest r k) m'
| F_release r : fires m (EvRelease r) (trigger_put r m)
| F_put s k m' : resumes (trigger_get s m) None k m' -> fires m (EvPut s k) m'
| F_get s v k m' : resumes m (Some v) k m' -> fires m (EvGet s v k) m'
| F_process : fires m EvProcess m.

Lemma timeout_Ok (d : Q) (k : cont) (m m' : PiketOmprengDES) :
  timeout d k m = Ok m' ->
  Qltb d 0 = false /\ m' = schedule (EvTimeout k) NORMAL d m.
Proof.
  unfold timeout. destruct (Qltb d 0); [discriminate|].
  intros H. apply Ok_inj in H. auto.
Qed.

Lemma served_sound (lo hi : Q) (k : Q -> cont) (m m' : PiketOmprengDES) :
  (let (t, m1) := uniform lo hi m in timeout t (k t) m1) = Ok m' ->
  served lo hi k m m'.
Proof.
  unfold uniform, served.
  destruct (random (random_state m)) as [u g].
  intros H. apply timeout_Ok in H. destruct H as [H1 H2].
  exists u, g. auto.
Qed.

Lemma angkut_loop_sound (m m' : PiketOmprengDES) :
  angkut_loop m = Ok m' -> angkut_loops m m'.
Proof.
  unfold angkut_loop.
  destruct (Z.ltb_spec (completed m) (TOTAL_OMPRENG (config m))) as [Hc|Hc].
  - destruct (items (antrian_lauk m)) as [|it its] eqn:Ei.
    + cbn [List.length Nat.eqb]. intros H. apply timeout_Ok in H.
      destruct H as [_ ->]. apply AL_poll; assumption.
    + cbn [List.length Nat.eqb]. unfold randint.
      destruct (Z.ltb_spec 0 (ANGKUT_MAX_LOAD (config m) + 1 - ANGKUT_MIN_LOAD (config m)))
        as [Hw|Hw]; [|discriminate].
      destruct (randbelow _ (random_state m)) as [n g] eqn:Er.
      intros H. apply Ok_inj in H. subst m'.
      pose proof (AL_form m n g Hc) as HF. rewrite Ei in HF.
      apply HF; [discriminate | lia | exact Er].
  - intros H. apply Ok_inj in H. subst. apply AL_done. assumption.
Qed.

Lemma angkut_put_sound (rest : list item) (m m' : PiketOmprengDES) :
  angkut_put rest m = Ok m' -> angkut_puts m rest m'.
Proof.
  destruct rest as [|it rest]; cbn [angkut_put]; intros H.
  - apply AP_end. apply angkut_loop_sound. assumption.
  - apply Ok_inj in H. subst. apply AP_next.
Qed.

Lemma nasi_loop_sound (m m' : PiketOmprengDES) :
  nasi_loop m = Ok m' -> nasi_loops m m'.
Proof.
  unfold nasi_loop.
  destruct (Z.ltb_spec (completed m) (TOTAL_OMPRENG (config m))) as [Hc|Hc].
  - destruct (items (antrian_nasi m)) as [|it its] eqn:Ei; cbn [List.length Nat.eqb];
      intros H.
    + apply timeout_Ok in H. destruct H as [_ ->]. apply NL_poll; assumption.
    + apply Ok_inj in H. subst. apply NL_get; [assumption|]. rewrite Ei. discriminate.
  - intros H. apply Ok_inj in H. subst. apply NL_done. assumption.
Qed.

Lemma resume_sound (k : cont) (v : option item) (m m' : PiketOmprengDES) :
  resume k v m = Ok m' -> resumes m v k m'.
Proof.
  destruct k as [i|oid f|f|f]; cbn [resume].
  - unfold generate.
    destruct (Z.ltb_spec i (TOTAL_OMPRENG (config m))) as [Hc|Hc]; intros H.
    + apply timeout_Ok in H. destruct H as [_ ->]. apply RS_generate_next. assumption.
    + apply Ok_inj in H. subst. apply RS_generate_done. assumption.
  - destruct f; cbn [proses_ompreng]; intros H.
    + apply Ok_inj in H. subst. apply RS_ompreng_start.
    + apply RS_ompreng_granted. apply served_sound. exact H.
    + apply Ok_inj in H. subst. exact (RS_ompreng_served m v oid datang mulai_lauk t).
    + apply Ok_inj in H. subst. apply RS_ompreng_put.
  - destruct f; cbn [proses_angkut]; intros H.
    + apply RS_angkut_loop. apply angkut_loop_sound. exact H.
    + destruct v as [it|]; [|discriminate].
      apply Ok_inj in H. subst. apply RS_angkut_get. reflexivity.
    + apply RS_angkut_granted. apply served_sound. exact H.
    + apply RS_angkut_served. apply angkut_put_sound. exact H.
    + apply RS_angkut_put. apply angkut_put_sound. exact H.
  - destruct f; cbn [proses_nasi]; intros H.
    + apply RS_nasi_loop. apply nasi_loop_sound. exact H.
    + destruct v as [it|]; [|discriminate].
      apply Ok_inj in H. subst. apply RS_nasi_get. reflexivity.
    + apply RS_nasi_granted. apply served_sound. exact H.
    + apply RS_nasi_served. apply nasi_loop_sound. exact H.
Qed.

Lemma fire_sound (ev : event) (m m' : PiketOmprengDES) :
  fire ev m = Ok m' -> fires m ev m'.
Proof.
  destruct ev; cbn [fire]; intros H;
    try (constructor; apply resume_sound; exact H).
  - apply Ok_inj in H. subst. constructor.
  - apply Ok_inj in H. subst. constructor.
Qed.

(** A step is a pop followed by a rule. *)
Lemma step_fires (m m' : PiketOmprengDES) :
  step m = Some (Ok m') ->
  exists e q, heappop (queue (env m)) = Some (e, q) /\
              fires (popped m e q) (e_event e) m'.
Proof.
  intros H. apply step_Some in H. destruct H as [e [q [Hq H]]].
  exists e, q. split; [exact Hq|]. apply fire_sound. symmetry. exact H.
Qed.

(** The two primitives that branch. *)
Lemma trigger_put_cases (r : res_id) (m : PiketOmprengDES) :
  let x := get_res m r in
  (trigger_put r m = m /\
   (put_queue x = [] \/ capacity x <= Z.of_nat (List.length (users x)))) \/
  (exists k rest,
     put_queue x = k :: rest /\
     Z.of_nat (List.length (users x)) < capacity x /\
     trigger_put r m =
       schedule (EvRequest r k) NORMAL 0
         (set_res m r (mkResource (capacity x) (users x ++ [proc_of k]) rest))).
Proof.
  unfold trigger_put. cbv zeta.
  destruct (put_queue (get_res m r)) as [|k rest]; [left; auto|].
  destruct (Z.ltb_spec (Z.of_nat (List.length (users (get_res m r))))
                       (capacity (get_res m r))) as [H|H].
  - right. exists k, rest. auto.
  - left. auto.
Qed.

Lemma trigger_get_cases (s : store_id) (m : PiketOmprengDES) :
  let x := get_store m s in
  (trigger_get s m = m /\ (get_queue x = [] \/ items x = [])) \/
  (exists k rest v its,
     get_queue x = k :: rest /\ items x = v :: its /\
     trigger_get s m = schedule (EvGet s v k) NORMAL 0 (set_store m s (mkStore its rest))).
Proof.
  unfold trigger_get. cbv zeta.
  destruct (get_queue (get_store m s)) as [|k rest]; [left; auto|].
  destruct (items (get_store m s)) as [|v its]; [left; auto|].
  right. exists k, rest, v, its. auto.
Qed.

End Rules.

(** Take a transition apart, down to the rule that produced it. *)
Ltac inv_rules :=
  repeat match goal with
  | H : fires _ _ _ |- _ => destruct H
  | H : resumes _ _ _ _ |- _ => destruct H
  | H : None = Some _ |- _ => discriminate H
  | H : Some _ = Some _ |- _ => apply Some_inj in H; subst
  | H : angkut_puts _ _ _ |- _ => destruct H
  | H : angkut_loops _ _ |- _ => destruct H
  | H : nasi_loops _ _ |- _ => destruct H
  | H : served _ _ _ _ _ |- _ =>
      let u := fresh "u" in let g := fresh "g" in
      let Hr := fresh "Hrand" in let Ht := fresh "Hdelay" in
      destruct H as [u [g [Hr [Ht ->]]]]
  end.

(** Split the branches of [request], [store_get] and the triggers that
    occur in the goal. *)
Ltac prim_cases :=
  repeat match goal with
  | |- context [angkut_for _ ?n _] =>
      let E := fresh "Esisa" in destruct n eqn:E; cbn [angkut_for]
  | |- context [request ?r ?k ?m] => unfold request
  | |- context [store_get ?s ?k ?m] => unfold store_get
  | |- context [trigger_put ?r ?m] =>
      let H := fresh "Htp" in let C := fresh "Ctp" in
      let k := fresh "k" in let rest := fresh "rest" in
      let Hq := fresh "Hpq" in let Hc := fresh "Hcap" in
      destruct (trigger_put_cases r m) as [[H C]|[k [rest [Hq [Hc H]]]]];
      rewrite H; clear H
  | |- context [trigger_get ?s ?m] =>
      let H := fresh "Htg" in let C := fresh "Ctg" in
      let k := fresh "k" in let rest := fresh "rest" in
      let v := fresh "v" in let its := fresh "its" in
      let Hq := fresh "Hgq" in let Hi := fresh "Hit" in
      destruct (trigger_get_cases s m) as [[H C]|[k [rest [v [its [Hq [Hi H]]]]]]];
      rewrite H; clear H
  end.

(* ===================================================================== *)
(** ** The completed counter and the record list *)
(* ===================================================================== *)

Section Counter.

Context {R : RandomSource}.

Definition counter_inv (m : PiketOmprengDES) : Prop :=
  completed m = Z.of_nat (List.length (data m)).

Lemma fires_counter (ev : event) (m m' : PiketOmprengDES) :
  counter_inv m -> fires m ev m' -> counter_inv m'.
Proof.
  unfold counter_inv. intros Hm H.
  inv_rules; prim_cases; msimpl; try assumption.
  all: msimpl in Hm; rewrite length_app; cbn [List.length]; lia.
Qed.

Lemma step_counter (m m' : PiketOmprengDES) :
  counter_inv m -> step m = Some (Ok m') -> counter_inv m'.
Proof.
  intros Hm H. apply step_fires in H. destruct H as [e [q [_ H]]].
  eapply fires_counter; [|exact H]. exact Hm.
Qed.

Lemma init_counter (c : Config) (g0 : gen) (m : PiketOmprengDES) :
  init c g0 = Ok m -> counter_inv (spawn m).
Proof.
  unfold init, bind, new_resource, new_start_time, numpy_seed.
  repeat match goal with
  | |- context [if ?b then _ else _] => destruct b; try discriminate
  end.
  intros H. apply Ok_inj in H. subst. reflexivity.
Qed.

End Counter.

(* ===================================================================== *)
(** ** Construction *)
(* ===================================================================== *)

Section Construction.

Context {R : RandomSource}.

(** What [__init__] checks: the three capacities (by [simpy.Resource]),
    the start clock (by [datetime]) and the seed (by [np.random.seed]). *)
Definition accepted (c : Config) : Prop :=
  0 < PETUGAS_LAUK c /\ 0 < PETUGAS_ANGKUT c /\ 0 < PETUGAS_NASI c /\
  0 <= START_HOUR c <= 23 /\ 0 <= START_MINUTE c <= 59 /\
  0 <= RANDOM_SEED c <= 4294967295.

Definition initial (c : Config) : PiketOmprengDES :=
  mkModel c (mkEnv 0 [] 0)
    (mkResource (PETUGAS_LAUK c) [] [])
    (mkResource (PETUGAS_ANGKUT c) [] [])
    (mkResource (PETUGAS_NASI c) [] [])
    (mkStore [] []) (mkStore [] []) [] 0 0 0 0
    (START_HOUR c * 3600 + START_MINUTE c * 60)
    (seed (RANDOM_SEED c))
    (mkHistory [] [] None).

Lemma init_accepted (c : Config) (g0 : gen) :
  accepted c -> init c g0 = Ok (initial c).
Proof.
  intros (H1 & H2 & H3 & H4 & H5 & H6).
  unfold init, new_resource, new_start_time, numpy_seed, bind.
  destruct (Z.leb_spec (PETUGAS_LAUK c) 0); [lia|].
  destruct (Z.leb_spec (PETUGAS_ANGKUT c) 0); [lia|].
  destruct (Z.leb_spec (PETUGAS_NASI c) 0); [lia|].
  destruct (Z.leb_spec 0 (START_HOUR c)); [|lia].
  destruct (Z.leb_spec (START_HOUR c) 23); [|lia].
  destruct (Z.leb_spec 0 (START_MINUTE c)); [|lia].
  destruct (Z.leb_spec (START_MINUTE c) 59); [|lia].
  destruct (Z.leb_spec 0 (RANDOM_SEED c)); [|lia].
  destruct (Z.leb_spec (RANDOM_SEED c) 4294967295); [|lia].
  reflexivity.
Qed.

Lemma init_Ok (c : Config) (g0 : gen) (m : PiketOmprengDES) :
  init c g0 = Ok m -> accepted c /\ m = initial c.
Proof.
  unfold init, new_resource, new_start_time, numpy_seed, bind, accepted.
  destruct (Z.leb_spec (PETUGAS_LAUK c) 0); [discriminate|].
  destruct (Z.leb_spec (PETUGAS_ANGKUT c) 0); [discriminate|].
  destruct (Z.leb_spec (PETUGAS_NASI c) 0); [discriminate|].
  destruct (Z.leb_spec 0 (START_HOUR c)); [|discriminate].
  destruct (Z.leb_spec (START_HOUR c) 23); [|discriminate].
  destruct (Z.leb_spec 0 (START_MINUTE c)); [|discriminate].
  destruct (Z.leb_spec (START_MINUTE c) 59); [|discriminate].
  destruct (Z.leb_spec 0 (RANDOM_SEED c)); [|discriminate].
  destruct (Z.leb_spec (RANDOM_SEED c) 4294967295); [|discriminate].
  cbn [negb andb]. intros Hm. apply Ok_inj in Hm. split; [lia | symmetry; exact Hm].
Qed.

Lemma init_Raise (c : Config) (g0 : gen) (e : exn) :
  init c g0 = Raise e -> ~ accepted c.
Proof.
  intros H Ha. rewrite (init_accepted c g0 Ha) in H. discriminate.
Qed.

End Construction.

(* ===================================================================== *)
(** ** Counting over the schedule *)
(* ===================================================================== *)

Definition esum (f : entry -> nat) (q : list entry) : nat := list_sum (map f q).

Lemma esum_nil (f : entry -> nat) : esum f [] = 0%nat.
Proof. reflexivity. Qed.

Lemma esum_cons (f : entry -> nat) (e : entry) (q : list entry) :
  esum f (e :: q) = (f e + esum f q)%nat.
Proof. reflexivity. Qed.

Lemma esum_app (f : entry -> nat) (q1 q2 : list entry) :
  esum f (q1 ++ q2) = (esum f q1 + esum f q2)%nat.
Proof. unfold esum. rewrite map_app, list_sum_app. reflexivity. Qed.

Lemma esum_perm (f : entry -> nat) (q q' : list entry) :
  Permutation q q' -> esum f q = esum f q'.
Proof.
  induction 1; rewrite ?esum_cons; lia.
Qed.

Lemma esum_heappop (f : entry -> nat) (q r : list entry) (e : entry) :
  heappop q = Some (e, r) -> esum f q = esum f (e :: r).
Proof. intros H. apply esum_perm. apply heappop_perm. exact H. Qed.

Lemma esum_le (f g : entry -> nat) (q : list entry) :
  (forall e, (f e <= g e)%nat) -> (esum f q <= esum g q)%nat.
Proof.
  intros H. induction q as [|e q IH]; [apply Nat.le_refl|].
  rewrite !esum_cons. specialize (H e). lia.
Qed.

Lemma esum_pos (f : entry -> nat) (q : list entry) :
  (0 < esum f q)%nat -> exists e, In e q /\ (0 < f e)%nat.
Proof.
  induction q as [|e q IH]; rewrite ?esum_nil, ?esum_cons; [lia|].
  intros H. destruct (f e) eqn:E.
  - destruct (IH H) as [x [Hx Hf]]. exists x. split; [right; exact Hx | exact Hf].
  - exists e. split; [left; reflexivity | lia].
Qed.

Lemma esum_zero (f : entry -> nat) (q : list entry) (e : entry) :
  esum f q = 0%nat -> In e q -> f e = 0%nat.
Proof.
  induction q as [|x q IH]; [contradiction|].
  rewrite esum_cons. intros H [->|Hin]; [lia|]. apply IH; [lia | exact Hin].
Qed.

(** The generator frame an event resumes, if any. *)
Definition ev_cont (ev : event) : option cont :=
  match ev with
  | EvInitialize k | EvTimeout k | EvRequest _ k | EvPut _ k | EvGet _ _ k => Some k
  | EvRelease _ | EvProcess => None
  end.

Definition on_cont (f : cont -> nat) (e : entry) : nat :=
  match ev_cont (e_event e) with
  | Some k => f k
  | None => 0%nat
  end.

Definition k_angkut (k : cont) : nat :=
  match k with KAngkut _ => 1%nat | _ => 0%nat end.

Definition k_nasi (k : cont) : nat :=
  match k with KNasi _ => 1%nat | _ => 0%nat end.

(** Frames inside a [with resource.request()] block, after the grant. *)
Definition k_holds_angkut (k : cont) : nat :=
  match k with
  | KAngkut (AGranted _) | KAngkut (AServed _ _) => 1%nat
  | _ => 0%nat
  end.

Definition k_holds_nasi (k : cont) : nat :=
  match k with
  | KNasi (NGranted _) | KNasi (NServed _ _ _) => 1%nat
  | _ => 0%nat
  end.

Definition k_holds_lauk (p : proc) (k : cont) : nat :=
  match k with
  | KOmpreng oid (OGranted _) | KOmpreng oid (OServed _ _ _) =>
      if proc_eqb p (ProcOmpreng oid) then 1%nat else 0%nat
  | _ => 0%nat
  end.

(** Rounds of [get] the transport loop still has to make. *)
Definition k_need (k : cont) : nat :=
  match k with
  | KAngkut (AGet _ sisa) => sisa
  | _ => 0%nat
  end.

(** The frame of a generator that waits for the prep server. *)
Definition k_wait_lauk (k : cont) : bool :=
  match k with
  | KOmpreng _ (OGranted _) => true
  | _ => false
  end.

Definition is_release_lauk (e : entry) : nat :=
  match e_event e with
  | EvRelease RLauk => 1%nat
  | _ => 0%nat
  end.

Definition pcount (p : proc) (l : list proc) : nat :=
  list_sum (map (fun q => if proc_eqb p q then 1%nat else 0%nat) l).

Lemma proc_eqb_eq (p q : proc) : proc_eqb p q = true <-> p = q.
Proof.
  destruct p, q; simpl; split; intros H; try congruence; try discriminate.
  - apply Z.eqb_eq in H. congruence.
  - inversion H. apply Z.eqb_refl.
Qed.

Lemma proc_eqb_refl (p : proc) : proc_eqb p p = true.
Proof. apply proc_eqb_eq. reflexivity. Qed.

Lemma pcount_app (p : proc) (l1 l2 : list proc) :
  pcount p (l1 ++ l2) = (pcount p l1 + pcount p l2)%nat.
Proof. unfold pcount. rewrite map_app, list_sum_app. reflexivity. Qed.

Lemma pcount_nil (p : proc) : pcount p [] = 0%nat.
Proof. reflexivity. Qed.

Lemma pcount_cons (p q : proc) (l : list proc) :
  pcount p (q :: l) = ((if proc_eqb p q then 1 else 0) + pcount p l)%nat.
Proof. reflexivity. Qed.

Lemma pcount_remove_first (p x : proc) (l : list proc) :
  (0 < pcount x l)%nat ->
  pcount p l = ((if proc_eqb p x then 1 else 0) + pcount p (remove_first x l))%nat.
Proof.
  induction l as [|q l IH]; [unfold pcount; simpl; lia|].
  intros H. rewrite (pcount_cons x) in H. rewrite (pcount_cons p q l).
  cbn [remove_first].
  destruct (proc_eqb x q) eqn:E.
  - apply proc_eqb_eq in E. subst q. reflexivity.
  - rewrite (pcount_cons p q). rewrite IH by lia. lia.
Qed.

Lemma length_remove_first (x : proc) (l : list proc) :
  (0 < pcount x l)%nat -> List.length l = S (List.length (remove_first x l)).
Proof.
  induction l as [|q l IH]; [unfold pcount; simpl; lia|].
  intros H. rewrite (pcount_cons x) in H. cbn [remove_first].
  destruct (proc_eqb x q) eqn:E; [reflexivity|].
  cbn [List.length]. rewrite <- IH by lia. reflexivity.
Qed.

Lemma pcount_pos_of_cons (q : proc) (l : list proc) : (0 < pcount q (q :: l))%nat.
Proof. rewrite pcount_cons, proc_eqb_refl. lia. Qed.

Lemma remove_first_repeat (p : proc) (n : nat) :
  remove_first p (repeat p (S n)) = repeat p n.
Proof. cbn [repeat remove_first]. rewrite proc_eqb_refl. reflexivity. Qed.

(* ===================================================================== *)
(** ** Who waits where: the scheduling invariant *)
(* ===================================================================== *)

Tactic Notation "msimpl" "in" "*" :=
  cbn [config env petugas_lauk petugas_angkut petugas_nasi antrian_lauk
       antrian_nasi data completed busy_lauk busy_angkut busy_nasi start_time
       random_state history now queue eid capacity users put_queue items
       get_queue riwayat muatan_log forming e_time e_prio e_eid e_event
       set_env get_res set_res get_store set_store set_random_state
       set_history add_busy append_data incr_completed schedule process
       finish release store_put set_forming log_muatan log_riwayat popped
       nasi_selesai rekod_of stamp r_id r_mulai_lauk r_selesai_lauk
       r_mulai_nasi r_selesai_nasi r_total_waktu r_jam_selesai it_id
       it_datang it_mulai_lauk it_selesai_lauk it_selesai_angkut
       fst snd] in *.

(** Sums over a schedule whose entries are known. *)
Ltac sums :=
  rewrite ?esum_app, ?esum_cons, ?esum_nil;
  cbn [on_cont ev_cont e_event k_angkut k_nasi k_holds_angkut k_holds_nasi
       k_holds_lauk k_need is_release_lauk].

Ltac sums_in H :=
  rewrite ?esum_app, ?esum_cons, ?esum_nil in H;
  cbn [on_cont ev_cont e_event k_angkut k_nasi k_holds_angkut k_holds_nasi
       k_holds_lauk k_need is_release_lauk] in H.

Lemma cons_inj {A : Type} (a b : A) (l l' : list A) :
  a :: l = b :: l' -> a = b /\ l = l'.
Proof. intros H. split; congruence. Qed.

Lemma single_cons {A : Type} (a k : A) (rest : list A) :
  [a] = k :: rest -> k = a /\ rest = [].
Proof. intros H. split; congruence. Qed.

Lemma snoc_not_nil {A : Type} (l : list A) (a : A) : l ++ [a] <> [].
Proof. destruct l; discriminate. Qed.

Ltac clean_prims :=
  cbn [remove_first proc_eqb List.length app] in *;
  repeat match goal with
  | H : [_] = [] \/ _ |- _ => destruct H as [H|H]; [discriminate H|]
  | H : _ ++ [_] = [] \/ _ |- _ =>
      destruct H as [H|H]; [exfalso; exact (snoc_not_nil _ _ H)|]
  | H : [_] = _ :: _ |- _ => apply single_cons in H; destruct H; subst
  end.

Section Sched.

Context {R : RandomSource}.

(** [q] is the schedule the clauses speak about: the queue of [m], or the
    queue of [m] together with the entry just popped. *)
Record sched_inv (q : list entry) (m : PiketOmprengDES) : Prop := {
  si_cap_lauk : 0 < capacity (petugas_lauk m);
  si_cap_angkut : 0 < capacity (petugas_angkut m);
  si_cap_nasi : 0 < capacity (petugas_nasi m);
  si_users_lauk : forall p,
    pcount p (users (petugas_lauk m)) = esum (on_cont (k_holds_lauk p)) q;
  si_users_angkut :
    users (petugas_angkut m) = repeat ProcAngkut (esum (on_cont k_holds_angkut) q);
  si_users_nasi :
    users (petugas_nasi m) = repeat ProcNasi (esum (on_cont k_holds_nasi) q);
  si_pq_angkut : put_queue (petugas_angkut m) = [];
  si_pq_nasi : put_queue (petugas_nasi m) = [];
  si_gq_lauk : get_queue (antrian_lauk m) = [];
  si_gq_nasi : get_queue (antrian_nasi m) = [];
  si_one_angkut : (esum (on_cont k_angkut) q <= 1)%nat;
  si_one_nasi : (esum (on_cont k_nasi) q <= 1)%nat;
  si_lauk_wait :
    put_queue (petugas_lauk m) <> [] ->
    capacity (petugas_lauk m)
    <= Z.of_nat (List.length (users (petugas_lauk m)))
       + Z.of_nat (esum is_release_lauk q);
  si_need :
    (esum (on_cont k_need) q <= List.length (items (antrian_lauk m)))%nat;
  si_pq_lauk : forallb k_wait_lauk (put_queue (petugas_lauk m)) = true
}.

Lemma wait_lauk_inv (k : cont) :
  k_wait_lauk k = true -> exists oid d, k = KOmpreng oid (OGranted d).
Proof.
  destruct k as [|oid []| |]; try discriminate. intros _. eauto.
Qed.

Lemma holds_angkut_le (k : cont) : (k_holds_angkut k <= k_angkut k)%nat.
Proof. destruct k as [| |[]|]; simpl; lia. Qed.

Lemma holds_nasi_le (k : cont) : (k_holds_nasi k <= k_nasi k)%nat.
Proof. destruct k as [| | |[]]; simpl; lia. Qed.

Lemma need_le (k : cont) : (k_need k <= k_need k * k_angkut k)%nat.
Proof. destruct k as [| |[]|]; simpl; lia. Qed.

Lemma on_cont_le (f g : cont -> nat) (q : list entry) :
  (forall k, (f k <= g k)%nat) ->
  (esum (on_cont f) q <= esum (on_cont g) q)%nat.
Proof.
  intros H. apply esum_le. intros e. unfold on_cont.
  destruct (ev_cont (e_event e)); [apply H | lia].
Qed.

Lemma on_cont_zero (f g : cont -> nat) (q : list entry) :
  (forall k, g k = 0%nat -> f k = 0%nat) ->
  esum (on_cont g) q = 0%nat -> esum (on_cont f) q = 0%nat.
Proof.
  intros H. induction q as [|e q IH]; [reflexivity|].
  rewrite !esum_cons. intros Hg.
  rewrite IH by lia. unfold on_cont in *.
  destruct (ev_cont (e_event e)); [rewrite H by lia|]; reflexivity.
Qed.

Lemma no_angkut_no_holder (q : list entry) :
  esum (on_cont k_angkut) q = 0%nat -> esum (on_cont k_holds_angkut) q = 0%nat.
Proof.
  apply on_cont_zero. intros k Hk. pose proof (holds_angkut_le k). lia.
Qed.

Lemma no_nasi_no_holder (q : list entry) :
  esum (on_cont k_nasi) q = 0%nat -> esum (on_cont k_holds_nasi) q = 0%nat.
Proof.
  apply on_cont_zero. intros k Hk. pose proof (holds_nasi_le k). lia.
Qed.

Lemma no_angkut_no_need (q : list entry) :
  esum (on_cont k_angkut) q = 0%nat -> esum (on_cont k_need) q = 0%nat.
Proof.
  apply on_cont_zero. intros k Hk. pose proof (need_le k). nia.
Qed.

Lemma on_cont_Some (f : cont -> nat) (e : entry) (k : cont) :
  ev_cont (e_event e) = Some k -> on_cont f e = f k.
Proof. unfold on_cont. intros ->. reflexivity. Qed.

Lemma cont_not_release (e : entry) (k : cont) :
  ev_cont (e_event e) = Some k -> is_release_lauk e = 0%nat.
Proof. unfold is_release_lauk. destruct (e_event e); simpl; congruence. Qed.

Lemma resumes_sched (e : entry) (k : cont) (v : option item) (m m' : PiketOmprengDES) :
  ev_cont (e_event e) = Some k ->
  sched_inv (e :: queue (env m)) m ->
  resumes m v k m' ->
  sched_inv (queue (env m')) m'.
Proof.
  intros Hk Hinv Hf.
  destruct Hinv as [C1 C2 C3 UL UA UN PA PN GL GN OA ON LW ND PL].
  rewrite esum_cons, (on_cont_Some _ _ _ Hk) in OA.
  rewrite esum_cons, (on_cont_Some _ _ _ Hk) in ON.
  rewrite esum_cons, (on_cont_Some _ _ _ Hk) in UA.
  rewrite esum_cons, (on_cont_Some _ _ _ Hk) in UN.
  rewrite esum_cons, (on_cont_Some _ _ _ Hk) in ND.
  rewrite esum_cons, (cont_not_release _ _ Hk) in LW.
  assert (UL' : forall p, pcount p (users (petugas_lauk m)) =
                 (k_holds_lauk p k + esum (on_cont (k_holds_lauk p)) (queue (env m)))%nat).
  { intros p. rewrite UL, esum_cons, (on_cont_Some _ _ _ Hk). reflexivity. }
  clear UL Hk e.
  inv_rules.
  all: cbn [k_angkut k_nasi k_holds_angkut k_holds_nasi k_holds_lauk k_need] in *.
  all: try (assert (ZA : esum (on_cont k_angkut) (queue (env m)) = 0%nat) by lia;
            pose proof (no_angkut_no_holder _ ZA) as ZHA;
            pose proof (no_angkut_no_need _ ZA) as ZNA;
            rewrite ZHA in UA; rewrite ZNA in ND; cbn [Nat.add repeat] in UA).
  all: try (assert (ZN : esum (on_cont k_nasi) (queue (env m)) = 0%nat) by lia;
            pose proof (no_nasi_no_holder _ ZN) as ZHN;
            rewrite ZHN in UN; cbn [Nat.add repeat] in UN).
  all: prim_cases; msimpl in *.
  all: rewrite ?PA, ?PN, ?GL, ?GN, ?UA, ?UN in *.
  all: clean_prims.
  all: repeat match goal with
       | H : items _ = [] |- _ => rewrite H in *
       | H : items _ = _ :: _ |- _ => rewrite H in *
       end; cbn [List.length] in *.
  all: try (exfalso; lia).
  all: try (exfalso; congruence).
  all: try match goal with
       | Hpq : put_queue (petugas_lauk _) ++ [_] = ?k :: ?rest |- _ =>
           let W := fresh "W" in
           assert (W : forallb k_wait_lauk (k :: rest) = true)
             by (rewrite <- Hpq, forallb_app, PL; reflexivity);
           cbn [forallb] in W; apply andb_true_iff in W;
           let W1 := fresh "W" in
           destruct W as [W1 W]; apply wait_lauk_inv in W1;
           destruct W1 as [? [? ->]]
       end.
  all: try match goal with
       | UL' : forall p, pcount p (users (petugas_lauk ?m))
                         = ((if proc_eqb p ?x then _ else _) + _)%nat |- _ =>
           let Hpos := fresh "Hpos" in
           pose proof (UL' x) as Hpos; rewrite proc_eqb_refl in Hpos;
           assert (0 < pcount x (users (petugas_lauk m)))%nat by lia
       end.
  all: constructor; msimpl; intros; sums; rewrite ?UA, ?UN, ?length_app;
       cbn [List.length]; try assumption; try lia.
  all: try (cbn [app repeat Nat.add remove_first proc_eqb];
            rewrite ?ZHA, ?ZHN; cbn [app repeat Nat.add];
            first [reflexivity | f_equal; lia]).
  all: try (rewrite forallb_app, PL; reflexivity).
  all: try (match goal with
            | Hpq : put_queue (petugas_lauk ?m) ++ [_] = _ :: ?rest, H : ?rest <> []
              |- _ <= _ =>
                destruct (put_queue (petugas_lauk m)) eqn:Epq;
                [apply single_cons in Hpq; destruct Hpq; contradiction|];
                specialize (LW ltac:(discriminate)); sums_in LW; lia
            end).
  all: try (match goal with
            | LW : _ -> _ <= _, H : _ <> [] |- _ <= _ =>
                specialize (LW H); sums_in LW;
                rewrite ?length_app; cbn [List.length];
                try (match goal with |- context [remove_first] =>
                       erewrite (length_remove_first _ (users _)) in LW by eassumption
                     end);
                lia
            end).
  all: try (match goal with
            | UL' : forall p, pcount p _ = _ |- pcount ?p _ = _ =>
                specialize (UL' p); sums_in UL';
                try (match goal with |- context [remove_first] =>
                       erewrite (pcount_remove_first p _ (users _)) in UL' by eassumption
                     end);
                rewrite ?pcount_app, ?pcount_cons, ?pcount_nil; cbn [proc_of];
                try destruct (proc_eqb p _); lia
            end).
Qed.

Lemma trigger_get_idle (s : store_id) (m : PiketOmprengDES) :
  get_queue (get_store m s) = [] -> trigger_get s m = m.
Proof. unfold trigger_get. cbv zeta. intros ->. reflexivity. Qed.

Lemma sched_inv_perm (q q' : list entry) (m : PiketOmprengDES) :
  Permutation q q' -> sched_inv q m -> sched_inv q' m.
Proof.
  intros Hp [C1 C2 C3 UL UA UN PA PN GL GN OA ON LW ND PL].
  constructor; try assumption;
    try (intros; rewrite <- (esum_perm _ _ _ Hp); auto).
Qed.

Lemma fires_sched (e : entry) (m m' : PiketOmprengDES) :
  sched_inv (e :: queue (env m)) m ->
  fires m (e_event e) m' ->
  sched_inv (queue (env m')) m'.
Proof.
  intros Hinv Hf.
  destruct (e_event e) as [k|k|r k|r|s k|s v k|] eqn:Ee; inversion Hf; subst;
    try (eapply resumes_sched; [rewrite Ee; reflexivity | exact Hinv | eassumption]).
  - (* EvRelease *)
    destruct Hinv as [C1 C2 C3 UL UA UN PA PN GL GN OA ON LW ND PL].
    assert (Z0 : forall f, on_cont f e = 0%nat)
      by (intros f; unfold on_cont; rewrite Ee; reflexivity).
    rewrite esum_cons, Z0, Nat.add_0_l in UA, UN, OA, ON, ND.
    assert (UL' : forall p, pcount p (users (petugas_lauk m)) =
                   esum (on_cont (k_holds_lauk p)) (queue (env m))).
    { intros p. rewrite UL, esum_cons, Z0. reflexivity. }
    clear UL. rewrite esum_cons in LW. unfold is_release_lauk at 1 in LW.
    rewrite Ee in LW.
    destruct (trigger_put_cases r m) as [[-> C]|[k [rest [Hq [Hc ->]]]]].
    + constructor; try assumption.
      intros Hne. specialize (LW Hne).
      destruct C as [C|C]; destruct r; msimpl in *; try contradiction; lia.
    + destruct r; msimpl in *; try congruence.
      rewrite Hq in PL. cbn [forallb] in PL. apply andb_true_iff in PL.
      destruct PL as [W PL]. apply wait_lauk_inv in W. destruct W as [oid [d ->]].
      constructor; msimpl; intros; sums; rewrite ?length_app; cbn [List.length];
        try assumption; try lia.
      * rewrite pcount_app, pcount_cons, pcount_nil, UL'. cbn [proc_of]. lia.
      * rewrite UA. f_equal. lia.
      * rewrite UN. f_equal. lia.
      * rewrite Hq in LW. specialize (LW ltac:(discriminate)). lia.
  - (* EvPut *)
    assert (Hidle : trigger_get s m = m).
    { apply trigger_get_idle. destruct Hinv. destruct s; assumption. }
    rewrite Hidle in *.
    eapply resumes_sched; [rewrite Ee; reflexivity | exact Hinv | eassumption].
  - (* EvProcess *)
    destruct Hinv as [C1 C2 C3 UL UA UN PA PN GL GN OA ON LW ND PL].
    assert (Z0 : forall f, on_cont f e = 0%nat)
      by (intros f; unfold on_cont; rewrite Ee; reflexivity).
    rewrite esum_cons, Z0, Nat.add_0_l in UA, UN, OA, ON, ND.
    rewrite esum_cons in LW. unfold is_release_lauk at 1 in LW. rewrite Ee in LW.
    constructor; try assumption.
    intros p. rewrite UL, esum_cons, Z0. reflexivity.
Qed.

(** The invariant on the model's own queue. *)
Definition Sched (m : PiketOmprengDES) : Prop := sched_inv (queue (env m)) m.

Lemma sched_popped (m : PiketOmprengDES) (e : entry) (q : list entry) :
  Sched m -> heappop (queue (env m)) = Some (e, q) ->
  sched_inv (e :: queue (env (popped m e q))) (popped m e q).
Proof.
  intros H Hq. apply heappop_perm in Hq.
  apply (sched_inv_perm _ _ _ Hq) in H.
  destruct H. constructor; assumption.
Qed.

Lemma step_sched (m m' : PiketOmprengDES) :
  Sched m -> step m = Some (Ok m') -> Sched m'.
Proof.
  intros H Hs. apply step_fires in Hs. destruct Hs as [e [q [Hq Hf]]].
  eapply fires_sched; [|exact Hf]. apply sched_popped; assumption.
Qed.

Lemma sched_initial (c : Config) : accepted c -> Sched (spawn (initial c)).
Proof.
  intros (H1 & H2 & H3 & _).
  constructor; cbn; intros; try assumption; try reflexivity; try lia;
    try contradiction.
Qed.

Lemma sched_reachable (c : Config) (g0 : gen) (m0 m : PiketOmprengDES) (n : nat) :
  init c g0 = Ok m0 -> steps n (spawn m0) = Some m -> Sched m.
Proof.
  intros Hi Hs. apply init_Ok in Hi. destruct Hi as [Ha ->].
  eapply (steps_invariant Sched); [exact step_sched | | exact Hs].
  apply sched_initial. exact Ha.
Qed.

End Sched.

(* ===================================================================== *)
(** ** Capacities *)
(* ===================================================================== *)

Lemma length_remove_first_le (p : proc) (l : list proc) :
  (List.length (remove_first p l) <= List.length l)%nat.
Proof.
  induction l as [|q l IH]; cbn [remove_first List.length]; [lia|].
  destruct (proc_eqb p q); cbn [List.length]; lia.
Qed.

Section Capacity.

Context {R : RandomSource}.

(** The capacities are those of the configuration, and no resource has
    more users than its capacity. *)
Record cap_inv (c : Config) (m : PiketOmprengDES) : Prop := {
  ci_cap_lauk : capacity (petugas_lauk m) = PETUGAS_LAUK c;
  ci_cap_angkut : capacity (petugas_angkut m) = PETUGAS_ANGKUT c;
  ci_cap_nasi : capacity (petugas_nasi m) = PETUGAS_NASI c;
  ci_users_lauk :
    Z.of_nat (List.length (users (petugas_lauk m))) <= capacity (petugas_lauk m);
  ci_users_angkut :
    Z.of_nat (List.length (users (petugas_angkut m))) <= capacity (petugas_angkut m);
  ci_users_nasi :
    Z.of_nat (List.length (users (petugas_nasi m))) <= capacity (petugas_nasi m)
}.

Ltac removed_le :=
  repeat match goal with
  | |- context [remove_first ?p ?l] =>
      lazymatch goal with
      | H : (List.length (remove_first p l) <= List.length l)%nat |- _ => fail
      | _ => pose proof (length_remove_first_le p l)
      end
  | H : context [remove_first ?p ?l] |- _ =>
      lazymatch goal with
      | H : (List.length (remove_first p l) <= List.length l)%nat |- _ => fail
      | _ => pose proof (length_remove_first_le p l)
      end
  end.

Lemma resumes_cap (c : Config) (k : cont) (v : option item)
      (m m' : PiketOmprengDES) :
  cap_inv c m -> resumes m v k m' -> cap_inv c m'.
Proof.
  intros [C1 C2 C3 U1 U2 U3] H.
  inv_rules; prim_cases; msimpl in *;
    constructor; msimpl; try assumption;
    rewrite ?length_app in *; cbn [List.length] in *; removed_le; lia.
Qed.

Lemma trigger_get_cap (c : Config) (s : store_id) (m : PiketOmprengDES) :
  cap_inv c m -> cap_inv c (trigger_get s m).
Proof.
  intros H.
  destruct (trigger_get_cases s m) as [[-> _]|[k [rest [v [its [_ [_ ->]]]]]]];
    [exact H|].
  destruct H. constructor; msimpl; assumption.
Qed.

Lemma fires_cap (c : Config) (ev : event) (m m' : PiketOmprengDES) :
  cap_inv c m -> fires m ev m' -> cap_inv c m'.
Proof.
  intros Hm H. destruct H; try (eapply resumes_cap; eassumption).
  - destruct Hm as [C1 C2 C3 U1 U2 U3].
    destruct (trigger_put_cases r m) as [[-> _]|[k [rest [_ [Hc ->]]]]];
      [constructor; assumption|].
    destruct r; msimpl in *; constructor; msimpl; try assumption;
      rewrite length_app; cbn [List.length]; lia.
  - eapply resumes_cap; [|eassumption]. apply trigger_get_cap. exact Hm.
  - exact Hm.
Qed.

Lemma step_cap (c : Config) (m m' : PiketOmprengDES) :
  cap_inv c m -> step m = Some (Ok m') -> cap_inv c m'.
Proof.
  intros Hm H. apply step_fires in H. destruct H as [e [q [_ H]]].
  eapply fires_cap; [|exact H]. destruct Hm. constructor; assumption.
Qed.

Lemma cap_initial (c : Config) : accepted c -> cap_inv c (spawn (initial c)).
Proof.
  intros (H1 & H2 & H3 & _). constructor; cbn; try reflexivity; lia.
Qed.

Lemma cap_reachable (c : Config) (g0 : gen) (m0 m : PiketOmprengDES) (n : nat) :
  init c g0 = Ok m0 -> steps n (spawn m0) = Some m -> cap_inv c m.
Proof.
  intros Hi Hs. apply init_Ok in Hi. destruct Hi as [Ha ->].
  eapply (steps_invariant (cap_inv c)); [exact (step_cap c) | | exact Hs].
  apply cap_initial. exact Ha.
Qed.

End Capacity.

(* ===================================================================== *)
(** ** Timestamps *)
(* ===================================================================== *)

Lemma Qltb_false (a b : Q) : Qltb a b = false -> (b <= a)%Q.
Proof.
  unfold Qltb. destruct (Qcompare_spec a b) as [H|H|H]; try discriminate; intros _; lra.
Qed.

Lemma Qred_add_ge (t d : Q) : (0 <= d)%Q -> (t <= Qred (t + d))%Q.
Proof. intros H. rewrite Qred_correct. lra. Qed.

(** A prepared item, seen at time [t]; once stamped by the transport loop,
    the stamp lies between the end of preparation and [t]. *)
Definition item_ok (t : Q) (it : item) : Prop :=
  (it_datang it <= it_mulai_lauk it)%Q /\
  (it_mulai_lauk it <= it_selesai_lauk it)%Q /\
  (it_selesai_lauk it <= t)%Q /\
  match it_selesai_angkut it with
  | Some a => (it_selesai_lauk it <= a)%Q /\ (a <= t)%Q
  | None => True
  end.

Definition stamped (it : item) : Prop := it_selesai_angkut it <> None.

Definition item_done (t : Q) (it : item) : Prop := item_ok t it /\ stamped it.

Definition cont_ok (t : Q) (k : cont) : Prop :=
  match k with
  | KOmpreng _ (OGranted datang) => (datang <= t)%Q
  | KOmpreng _ (OServed datang mulai_lauk _) =>
      (datang <= mulai_lauk)%Q /\ (mulai_lauk <= t)%Q
  | KAngkut (AGet batch _) | KAngkut (AGranted batch) | KAngkut (AServed batch _)
  | KAngkut (APut batch) => Forall (item_ok t) batch
  | KNasi (NGranted it) => item_done t it
  | KNasi (NServed it mulai_nasi _) => item_done mulai_nasi it /\ (mulai_nasi <= t)%Q
  | _ => True
  end.

(** The value sent into a generator. *)
Definition value_ok (t : Q) (k : cont) (v : option item) : Prop :=
  match v with
  | Some it => item_ok t it /\ (k = KNasi NGet -> stamped it)
  | None => True
  end.

Definition ev_value (ev : event) : option item :=
  match ev with
  | EvGet _ v _ => Some v
  | _ => None
  end.

Definition event_ok (t : Q) (ev : event) : Prop :=
  match ev_cont ev with
  | Some k => cont_ok t k /\ value_ok t k (ev_value ev)
  | None => True
  end.

Definition entry_ok (t : Q) (e : entry) : Prop :=
  (t <= e_time e)%Q /\ event_ok t (e_event e).

(** The ordering of the specification, on a completed unit: the item as
    it reached the finish stage and the record written for it. *)
Definition chain_ok (x : item * rekod) : Prop :=
  let (it, rec) := x in
  exists selesai_angkut,
    it_selesai_angkut it = Some selesai_angkut /\
    r_id rec = it_id it /\
    r_mulai_lauk rec = it_mulai_lauk it /\
    r_selesai_lauk rec = it_selesai_lauk it /\
    (it_datang it <= r_mulai_lauk rec)%Q /\
    (r_mulai_lauk rec <= r_selesai_lauk rec)%Q /\
    (r_selesai_lauk rec <= selesai_angkut)%Q /\
    (selesai_angkut <= r_mulai_nasi rec)%Q /\
    (r_mulai_nasi rec <= r_selesai_nasi rec)%Q.

Lemma item_ok_mono (t t' : Q) (it : item) :
  (t <= t')%Q -> item_ok t it -> item_ok t' it.
Proof.
  unfold item_ok. intros Ht (H1 & H2 & H3 & H4).
  repeat split; try assumption; try lra.
  destruct (it_selesai_angkut it); [|exact I]. destruct H4. split; lra.
Qed.

Lemma items_ok_mono (t t' : Q) (l : list item) :
  (t <= t')%Q -> Forall (item_ok t) l -> Forall (item_ok t') l.
Proof. intros Ht. apply Forall_impl. intros it. apply item_ok_mono. exact Ht. Qed.

Lemma item_done_mono (t t' : Q) (it : item) :
  (t <= t')%Q -> item_done t it -> item_done t' it.
Proof. intros Ht [H1 H2]. split; [eapply item_ok_mono; eassumption | exact H2]. Qed.

Lemma cont_ok_mono (t t' : Q) (k : cont) :
  (t <= t')%Q -> cont_ok t k -> cont_ok t' k.
Proof.
  intros Ht. destruct k as [i|oid [] |[] |[]]; cbn [cont_ok]; try tauto;
    try (apply items_ok_mono; exact Ht).
  - intros H. lra.
  - intros [H1 H2]. split; lra.
  - apply item_done_mono. exact Ht.
  - intros [H1 H2]. split; [exact H1 | lra].
Qed.

Lemma value_ok_mono (t t' : Q) (k : cont) (v : option item) :
  (t <= t')%Q -> value_ok t k v -> value_ok t' k v.
Proof.
  intros Ht. destruct v as [it|]; cbn [value_ok]; [|tauto].
  intros [H1 H2]. split; [eapply item_ok_mono; eassumption | exact H2].
Qed.

Lemma event_ok_mono (t t' : Q) (ev : event) :
  (t <= t')%Q -> event_ok t ev -> event_ok t' ev.
Proof.
  intros Ht. unfold event_ok. destruct (ev_cont ev); [|tauto].
  intros [H1 H2]. split; [eapply cont_ok_mono | eapply value_ok_mono]; eassumption.
Qed.

Section Timestamps.

Context {R : RandomSource}.

Record time_inv (q : list entry) (m : PiketOmprengDES) : Prop := {
  ti_queue : Forall (entry_ok (now (env m))) q;
  ti_lauk : Forall (item_ok (now (env m))) (items (antrian_lauk m));
  ti_nasi : Forall (item_done (now (env m))) (items (antrian_nasi m));
  ti_wait : Forall (cont_ok (now (env m))) (put_queue (petugas_lauk m));
  ti_riwayat : Forall chain_ok (riwayat (history m));
  ti_data : map snd (riwayat (history m)) = data m
}.

Lemma stamp_done (t : Q) (it : item) : item_ok t it -> item_done t (stamp it t).
Proof.
  unfold item_done, item_ok, stamped, stamp. msimpl.
  intros (H1 & H2 & H3 & _). repeat split; try assumption; try lra. discriminate.
Qed.

Lemma chain_of_done (it : item) (mulai_nasi selesai : Q) (m : PiketOmprengDES) :
  item_ok mulai_nasi it -> stamped it -> (mulai_nasi <= selesai)%Q ->
  chain_ok (it, rekod_of it mulai_nasi selesai m).
Proof.
  unfold item_ok, stamped, chain_ok. msimpl.
  intros (H1 & H2 & H3 & H4) Hs Hle.
  destruct (it_selesai_angkut it) as [a|]; [|congruence].
  exists a. destruct H4. repeat split; try reflexivity; try assumption.
Qed.

Lemma resumes_time (k : cont) (v : option item) (m m' : PiketOmprengDES) :
  put_queue (petugas_angkut m) = [] ->
  put_queue (petugas_nasi m) = [] ->
  get_queue (antrian_lauk m) = [] ->
  get_queue (antrian_nasi m) = [] ->
  cont_ok (now (env m)) k ->
  value_ok (now (env m)) k v ->
  time_inv (queue (env m)) m ->
  resumes m v k m' ->
  time_inv (queue (env m')) m'.
Proof.
  intros PA PN GL GN Hk Hv [TQ TL TN TW TR TD] Hf.
  inv_rules.
  all: subst; cbn [cont_ok value_ok] in Hk, Hv.
  all: prim_cases; msimpl in *.
  all: rewrite ?PA, ?PN, ?GL, ?GN in *.
  all: clean_prims.
  all: repeat match goal with
       | H : items _ = [] |- _ => rewrite H in *
       | H : items _ = _ :: _ |- _ => rewrite H in *
       end.
  all: try (exfalso; congruence).
  all: try match goal with
       | Hpq : put_queue (petugas_lauk _) ++ [?K] = ?k :: ?rest |- _ =>
           let W := fresh "W" in
           assert (W : Forall (cont_ok (now (env m))) (k :: rest))
             by (rewrite <- Hpq; apply Forall_app; split;
                 [assumption | repeat constructor; cbn [cont_ok]; lra]);
           apply Forall_cons_iff in W; destruct W
       end.
  all: try match goal with
       | H : Forall _ (_ :: _) |- _ => apply Forall_cons_iff in H; destruct H
       end.
  all: try match goal with
       | H : Qltb _ 0 = false |- _ => apply Qltb_false in H
       end.
  all: repeat match goal with
       | H : item_done _ _ /\ _ |- _ => destruct H
       | H : item_ok _ _ /\ _ |- _ => destruct H
       | H : item_done _ _ |- _ => destruct H
       end.
  all: constructor; msimpl; rewrite ?Forall_app; repeat split; try assumption.
  all: repeat match goal with H : items _ = _ |- context [items _] => rewrite H end.
  all: try (rewrite map_app, TD; reflexivity).
  all: try (apply stamp_done; assumption).
  all: try (apply chain_of_done; assumption).
  all: try (apply Forall_nil).
  all: repeat match goal with
       | |- Forall _ [_] => constructor; [|constructor]
       | |- Forall _ (_ :: _) => constructor
       | |- entry_ok _ _ => split; msimpl; [apply Qred_add_ge; lra|];
                            cbn [event_ok ev_cont ev_value e_event cont_ok value_ok]
       | |- _ /\ _ => split
       | |- Forall (item_ok _) (_ ++ _) => apply Forall_app
       | |- item_done _ _ => split
       | |- _ = _ -> stamped _ => intros ?
       end; try assumption; try exact I; try discriminate; try (cbn [cont_ok]; lra);
       try (apply stamp_done; assumption);
       try (apply chain_of_done; assumption);
       try (apply Forall_nil);
       try (unfold item_ok; msimpl; repeat split; (lra || exact I)).
  all: try (apply stamp_done; assumption).
  all: match goal with H : _ = _ -> stamped _ |- stamped _ => apply H; reflexivity end.
Qed.

Definition Time (m : PiketOmprengDES) : Prop := time_inv (queue (env m)) m.

Lemma time_popped (m : PiketOmprengDES) (e : entry) (q : list entry) :
  Time m -> heappop (queue (env m)) = Some (e, q) ->
  time_inv q (popped m e q) /\ event_ok (e_time e) (e_event e).
Proof.
  intros [TQ TL TN TW TR TD] Hq.
  pose proof (heappop_min _ _ _ Hq) as Hmin.
  assert (He : entry_ok (now (env m)) e).
  { rewrite Forall_forall in TQ. apply TQ.
    apply (heappop_In _ _ _ e Hq). left. reflexivity. }
  destruct He as [Het Heo].
  split; [|eapply event_ok_mono; eassumption].
  constructor; msimpl; try assumption.
  - rewrite Forall_forall in *. intros x Hx.
    assert (Hxq : In x (queue (env m))) by (apply (heappop_In _ _ _ x Hq); right; exact Hx).
    destruct (TQ x Hxq) as [Hxt Hxo]. split.
    + apply entry_le_time. apply Hmin. exact Hx.
    + eapply event_ok_mono; eassumption.
  - eapply items_ok_mono; eassumption.
  - eapply Forall_impl; [|exact TN]. intros it. apply item_done_mono. exact Het.
  - eapply Forall_impl; [|exact TW]. intros k. apply cont_ok_mono. exact Het.
Qed.

Lemma step_time (m m' : PiketOmprengDES) :
  Sched m -> Time m -> step m = Some (Ok m') -> Time m'.
Proof.
  intros HS HT Hs. apply step_fires in Hs. destruct Hs as [e [q [Hq Hf]]].
  destruct (time_popped _ _ _ HT Hq) as [HT0 He].
  destruct HS as [_ _ _ _ _ _ PA PN GL GN _ _ _ _ _].
  set (m0 := popped m e q) in *.
  assert (PA0 : put_queue (petugas_angkut m0) = []) by exact PA.
  assert (PN0 : put_queue (petugas_nasi m0) = []) by exact PN.
  assert (GL0 : get_queue (antrian_lauk m0) = []) by exact GL.
  assert (GN0 : get_queue (antrian_nasi m0) = []) by exact GN.
  assert (Hnow : now (env m0) = e_time e) by reflexivity.
  assert (Hqueue : queue (env m0) = q) by reflexivity.
  rewrite <- Hqueue in HT0. rewrite <- Hnow in He.
  clearbody m0. clear PA PN GL GN HT Hq Hnow Hqueue.
  unfold event_ok in He.
  destruct (e_event e) as [k|k|r k|r|s k|s v k|]; cbn [ev_cont ev_value] in He;
    inversion Hf; subst;
    try (destruct He as [Hk Hv];
         eapply resumes_time; try eassumption; fail).
  - (* EvRelease *)
    destruct (trigger_put_cases r m0) as [[-> C]|[k [rest [Hpq [Hc ->]]]]];
      [exact HT0|].
    destruct r; msimpl in *; try congruence.
    destruct HT0 as [TQ TL TN TW TR TD].
    rewrite Hpq in TW. apply Forall_cons_iff in TW. destruct TW as [Wk TW].
    constructor; msimpl; try assumption.
    apply Forall_app. split; [assumption|].
    constructor; [|constructor]. split; msimpl; [apply Qred_add_ge; lra|].
    cbn [event_ok ev_cont ev_value e_event value_ok]. split; [assumption | exact I].
  - (* EvPut *)
    destruct He as [Hk Hv].
    assert (Hidle : trigger_get s m0 = m0)
      by (apply trigger_get_idle; destruct s; assumption).
    rewrite Hidle in *.
    eapply resumes_time; try eassumption.
  - exact HT0.
Qed.

Lemma time_initial (c : Config) : Time (spawn (initial c)).
Proof.
  constructor; cbn; repeat constructor; cbn; try lra.
  all: unfold Qle; cbn; lia.
Qed.

Lemma time_reachable (c : Config) (g0 : gen) (m0 m : PiketOmprengDES) (n : nat) :
  init c g0 = Ok m0 -> steps n (spawn m0) = Some m -> Sched m /\ Time m.
Proof.
  intros Hi Hs. apply init_Ok in Hi. destruct Hi as [Ha ->].
  eapply (steps_invariant (fun m => Sched m /\ Time m)); [| | exact Hs].
  - intros m1 m2 [H1 H2] Hst. split;
      [eapply step_sched | eapply step_time]; eassumption.
  - split; [apply sched_initial; exact Ha | apply time_initial].
Qed.

End Timestamps.

(* ===================================================================== *)
(** ** Transport batches *)
(* ===================================================================== *)

Section Batches.

Context {R : RandomSource}.

(** The draw [(kapasitas, tersedia, t0)] that opened a batch: [kapasitas]
    is in the configured range and the queue was not empty. *)
Definition draw_ok (c : Config) (d : Z * nat * Q) : Prop :=
  let '(kapasitas, tersedia, _) := d in
  ANGKUT_MIN_LOAD c <= kapasitas <= ANGKUT_MAX_LOAD c /\ (1 <= tersedia)%nat.

Definition planned (d : Z * nat * Q) : nat :=
  let '(kapasitas, tersedia, _) := d in
  Z.to_nat (Z.min kapasitas (Z.of_nat tersedia)).

Definition drawn_at (d : Z * nat * Q) : Q := let '(_, _, t) := d in t.

(** A transport loop waiting for a [get] at time [t]: with the item on its
    way and the rounds left, the batch reaches the planned size. *)
Definition get_ok (c : Config) (f : option (Z * nat * Q)) (t : Q) (k : cont) : Prop :=
  match k with
  | KAngkut (AGet batch sisa) =>
      exists d, f = Some d /\ draw_ok c d /\
                (List.length batch + 1 + sisa = planned d)%nat /\
                (t == drawn_at d)%Q
  | _ => True
  end.

Definition entry_get_ok (c : Config) (f : option (Z * nat * Q)) (e : entry) : Prop :=
  match ev_cont (e_event e) with
  | Some k => get_ok c f (e_time e) k
  | None => True
  end.

(** A logged batch: it has the planned size and was complete at the very
    time of the draw. *)
Definition muatan_ok (c : Config) (mu : muatan) : Prop :=
  exists d, mu_draw mu = Some d /\ draw_ok c d /\
            List.length (mu_batch mu) = planned d /\
            (mu_selesai mu == drawn_at d)%Q.

Record batch_inv (c : Config) (q : list entry) (m : PiketOmprengDES) : Prop := {
  bi_config : config m = c;
  bi_queue : Forall (entry_get_ok c (forming (history m))) q;
  bi_log : Forall (muatan_ok c) (muatan_log (history m))
}.

Lemma no_angkut_get_ok (c : Config) (f : option (Z * nat * Q)) (q : list entry) :
  esum (on_cont k_angkut) q = 0%nat -> Forall (entry_get_ok c f) q.
Proof.
  intros H. apply Forall_forall. intros e He.
  pose proof (esum_zero _ _ _ H He) as Hz.
  unfold entry_get_ok, on_cont in *.
  destruct (ev_cont (e_event e)) as [[| |[]|]|]; cbn in *; trivial; discriminate.
Qed.

Lemma not_angkut_get_ok (c : Config) (f : option (Z * nat * Q)) (t : Q) (k : cont) :
  k_angkut k = 0%nat -> get_ok c f t k.
Proof. destruct k as [| |[]|]; cbn; trivial; discriminate. Qed.

Lemma planned_le (d : Z * nat * Q) : (planned d <= snd (fst d))%nat.
Proof. destruct d as [[kap a] t]. cbn. lia. Qed.

Lemma resumes_batch `{!RandomSourceOk R} (c : Config) (k : cont) (v : option item)
      (m m' : PiketOmprengDES) :
  put_queue (petugas_angkut m) = [] ->
  put_queue (petugas_nasi m) = [] ->
  forallb k_wait_lauk (put_queue (petugas_lauk m)) = true ->
  get_queue (antrian_lauk m) = [] ->
  get_queue (antrian_nasi m) = [] ->
  (k_angkut k = 1%nat -> esum (on_cont k_angkut) (queue (env m)) = 0%nat) ->
  (esum (on_cont k_need) (queue (env m)) + k_need k
   <= List.length (items (antrian_lauk m)))%nat ->
  get_ok c (forming (history m)) (now (env m)) k ->
  batch_inv c (queue (env m)) m ->
  resumes m v k m' ->
  batch_inv c (queue (env m')) m'.
Proof.
  intros PA PN PL GL GN One ND Hk [BC BQ BL] Hf.
  inv_rules.
  all: subst; cbn [get_ok k_angkut k_need] in Hk, One, ND.
  all: try (specialize (One eq_refl);
            pose proof (fun f => no_angkut_get_ok (config m) f _ One) as NoGet).
  all: try match goal with
       | Hr : randbelow ?w ?g = (?n, _) |- _ =>
           let Hb := fresh "Hb" in
           pose proof (randbelow_range w g ltac:(lia)) as Hb;
           rewrite Hr in Hb; cbn [fst] in Hb
       end.
  all: prim_cases; msimpl in *.
  all: rewrite ?PA, ?PN, ?GL, ?GN in *.
  all: clean_prims.
  all: try match goal with
       | Hpq : put_queue (petugas_lauk _) ++ [_] = ?k :: ?rest |- _ =>
           let W := fresh "W" in
           assert (W : forallb k_wait_lauk (k :: rest) = true)
             by (rewrite <- Hpq, forallb_app, PL; reflexivity);
           cbn [forallb] in W; apply andb_true_iff in W;
           let W1 := fresh "W" in
           destruct W as [W1 W]; apply wait_lauk_inv in W1;
           destruct W1 as [? [? ->]]
       end.
  all: try match goal with
       | H : items ?s <> [] |- _ =>
           let E := fresh "Eit" in
           destruct (items s) eqn:E; [congruence|]
       end.
  all: repeat match goal with
       | H : items _ = [] |- _ => rewrite H in *
       | H : items _ = _ :: _ |- _ => rewrite H in *
       end.
  all: cbn [List.length] in *.
  all: try (exfalso; congruence).
  all: try (exfalso; lia).
  all: try (destruct Hk as [d [Hd1 [Hd2 [Hd3 Hd4]]]]).
  all: constructor; msimpl; rewrite ?Forall_app; repeat split;
       try reflexivity; try assumption; try (apply NoGet).
  all: try (constructor; [|constructor]).
  all: try (unfold entry_get_ok; cbn [ev_cont e_event e_time get_ok]; exact I).
  all: unfold entry_get_ok, muatan_ok;
       cbn [ev_cont e_event e_time get_ok mu_draw mu_batch mu_selesai].
  all: try (exists d; rewrite ?length_app; cbn [List.length];
            repeat split; try assumption; try lia;
            rewrite Qred_correct, <- Hd4; lra).
  all: eexists; split; [reflexivity|];
       cbn [draw_ok planned drawn_at List.length]; repeat split;
       try lia; try reflexivity.
  all: rewrite Qred_correct; lra.
Qed.

Definition Batch (c : Config) (m : PiketOmprengDES) : Prop :=
  batch_inv c (queue (env m)) m.

Lemma step_batch `{!RandomSourceOk R} (c : Config) (m m' : PiketOmprengDES) :
  Sched m -> Batch c m -> step m = Some (Ok m') -> Batch c m'.
Proof.
  intros HS HB Hs. apply step_fires in Hs. destruct Hs as [e [q [Hq Hf]]].
  pose proof (sched_popped _ _ _ HS Hq) as HS0.
  destruct HB as [BC BQ BL].
  assert (BQ0 : Forall (entry_get_ok c (forming (history m))) (e :: q)).
  { rewrite Forall_forall in *. intros x Hx. apply BQ.
    apply (heappop_In _ _ _ x Hq). destruct Hx; auto. }
  apply Forall_cons_iff in BQ0. destruct BQ0 as [Be BQ0].
  assert (HB0 : batch_inv c (queue (env (popped m e q))) (popped m e q))
    by (constructor; assumption).
  assert (Hf0 : forming (history (popped m e q)) = forming (history m)) by reflexivity.
  assert (Hn0 : now (env (popped m e q)) = e_time e) by reflexivity.
  rewrite <- Hf0 in Be. clear Hf0 BQ BQ0 BL BC HS Hq.
  set (m0 := popped m e q) in *. clearbody m0.
  destruct HS0 as [_ _ _ _ _ _ PA PN GL GN OA _ _ ND PL].
  unfold entry_get_ok in Be. rewrite !esum_cons in *. unfold Batch.
  destruct (e_event e) as [k|k|r k|r|s k|s v k|] eqn:Ee;
    cbn [ev_cont] in *;
    try (rewrite (on_cont_Some _ e k) in OA by (rewrite Ee; reflexivity);
         rewrite (on_cont_Some _ e k) in ND by (rewrite Ee; reflexivity));
    inversion Hf; subst;
    try (rewrite <- Hn0 in Be;
         eapply resumes_batch; try eassumption; intros; lia).
  - (* EvRelease *)
    match goal with |- context [trigger_put ?r0 _] =>
      destruct (trigger_put_cases r0 m0) as [[-> C]|[k [rest [Hpq [Hc ->]]]]];
        [exact HB0|]; destruct r0; msimpl in *; try congruence
    end.
    destruct HB0 as [BC BQ BL].
    rewrite Hpq in PL. cbn [forallb] in PL. apply andb_true_iff in PL.
    destruct PL as [W _]. apply wait_lauk_inv in W. destruct W as [oid [d ->]].
    constructor; msimpl; try assumption.
    apply Forall_app. split; [assumption|].
    constructor; [|constructor]. exact I.
  - (* EvPut *)
    match goal with H : resumes (trigger_get ?s0 _) _ _ _ |- _ =>
      assert (Hidle : trigger_get s0 m0 = m0)
        by (apply trigger_get_idle; destruct s0; assumption);
      rewrite Hidle in H
    end.
    rewrite <- Hn0 in Be.
    eapply resumes_batch; try eassumption; intros; lia.
  - exact HB0.
Qed.

Lemma batch_initial (c : Config) : Batch c (spawn (initial c)).
Proof.
  constructor; cbn; repeat constructor.
Qed.

Lemma batch_reachable `{!RandomSourceOk R} (c : Config) (g0 : gen)
      (m0 m : PiketOmprengDES) (n : nat) :
  init c g0 = Ok m0 -> steps n (spawn m0) = Some m -> Sched m /\ Batch c m.
Proof.
  intros Hi Hs. apply init_Ok in Hi. destruct Hi as [Ha ->].
  eapply (steps_invariant (fun m => Sched m /\ Batch c m)); [| | exact Hs].
  - intros m1 m2 [H1 H2] Hst. split;
      [eapply step_sched | eapply step_batch]; eassumption.
  - split; [apply sched_initial; exact Ha | apply batch_initial].
Qed.

End Batches.

(* ===================================================================== *)
(** ** Where the units are *)
(* ===================================================================== *)

Definition id_is (x : Z) (i : Z) : nat := if i =? x then 1%nat else 0%nat.

Definition icount (x : Z) (l : list item) : nat :=
  list_sum (map (fun it => id_is x (it_id it)) l).

Definition rcount (x : Z) (l : list rekod) : nat :=
  list_sum (map (fun r => id_is x (r_id r)) l).

Lemma icount_nil (x : Z) : icount x [] = 0%nat.
Proof. reflexivity. Qed.

Lemma icount_cons (x : Z) (it : item) (l : list item) :
  icount x (it :: l) = (id_is x (it_id it) + icount x l)%nat.
Proof. reflexivity. Qed.

Lemma icount_app (x : Z) (l1 l2 : list item) :
  icount x (l1 ++ l2) = (icount x l1 + icount x l2)%nat.
Proof. unfold icount. rewrite map_app, list_sum_app. reflexivity. Qed.

Lemma rcount_app (x : Z) (l1 l2 : list rekod) :
  rcount x (l1 ++ l2) = (rcount x l1 + rcount x l2)%nat.
Proof. unfold rcount. rewrite map_app, list_sum_app. reflexivity. Qed.

Lemma rcount_cons (x : Z) (r : rekod) (l : list rekod) :
  rcount x (r :: l) = (id_is x (r_id r) + rcount x l)%nat.
Proof. reflexivity. Qed.

Lemma rcount_nil (x : Z) : rcount x [] = 0%nat.
Proof. reflexivity. Qed.

(** Units a frame is responsible for: those [generate] has not started
    yet, the one a prep generator is preparing, the ones a transport loop
    carries, the one a finish loop serves. *)
Definition k_units (T : Z) (k : cont) : nat :=
  match k with
  | KGenerate i => Z.to_nat (T - i)
  | KOmpreng _ OPut => 0%nat
  | KOmpreng _ _ => 1%nat
  | KAngkut ALoop => 0%nat
  | KAngkut (AGet b _) | KAngkut (AGranted b) | KAngkut (AServed b _)
  | KAngkut (APut b) => List.length b
  | KNasi (NGranted _) | KNasi (NServed _ _ _) => 1%nat
  | KNasi _ => 0%nat
  end.

Definition in_range (T x : Z) : nat :=
  if (0 <=? x) && (x <? T) then 1%nat else 0%nat.

Definition k_ids (T x : Z) (k : cont) : nat :=
  match k with
  | KGenerate i => if (i <=? x) && (x <? T) then 1%nat else 0%nat
  | KOmpreng _ OPut => 0%nat
  | KOmpreng oid _ => id_is x oid
  | KAngkut ALoop => 0%nat
  | KAngkut (AGet b _) | KAngkut (AGranted b) | KAngkut (AServed b _)
  | KAngkut (APut b) => icount x b
  | KNasi (NGranted it) | KNasi (NServed it _ _) => id_is x (it_id it)
  | KNasi _ => 0%nat
  end.

Definition v_units (v : option item) : nat :=
  match v with Some _ => 1%nat | None => 0%nat end.

Definition v_ids (x : Z) (v : option item) : nat :=
  match v with Some it => id_is x (it_id it) | None => 0%nat end.

(** A frame that expects an item must be resumed with one, and no other
    frame is. *)
Definition k_bad (k : cont) (v : option item) : nat :=
  match k, v with
  | KAngkut (AGet _ _), Some _ => 0%nat
  | KNasi NGet, Some _ => 0%nat
  | KAngkut (AGet _ _), None => 1%nat
  | KNasi NGet, None => 1%nat
  | _, Some _ => 1%nat
  | _, None => 0%nat
  end.

Definition on_event (f : cont -> option item -> nat) (e : entry) : nat :=
  match ev_cont (e_event e) with
  | Some k => f k (ev_value (e_event e))
  | None => 0%nat
  end.

Definition e_units (T : Z) : entry -> nat :=
  on_event (fun k v => (k_units T k + v_units v)%nat).

Definition e_ids (T x : Z) : entry -> nat :=
  on_event (fun k v => (k_ids T x k + v_ids x v)%nat).

Definition e_bad : entry -> nat := on_event k_bad.

Definition ksum (f : cont -> nat) (l : list cont) : nat := list_sum (map f l).

Lemma ksum_app (f : cont -> nat) (l1 l2 : list cont) :
  ksum f (l1 ++ l2) = (ksum f l1 + ksum f l2)%nat.
Proof. unfold ksum. rewrite map_app, list_sum_app. reflexivity. Qed.

Lemma ksum_cons (f : cont -> nat) (k : cont) (l : list cont) :
  ksum f (k :: l) = (f k + ksum f l)%nat.
Proof. reflexivity. Qed.

Lemma ksum_nil (f : cont -> nat) : ksum f [] = 0%nat.
Proof. reflexivity. Qed.

Ltac fsums :=
  rewrite ?esum_app, ?esum_cons, ?esum_nil, ?ksum_app, ?ksum_cons, ?ksum_nil,
          ?icount_app, ?icount_cons, ?icount_nil, ?rcount_app, ?rcount_cons,
          ?rcount_nil, ?length_app;
  cbn [on_cont on_event ev_cont ev_value e_event k_angkut k_nasi k_units k_ids
       k_bad v_units v_ids e_units e_ids e_bad List.length it_id r_id stamp
       rekod_of].

Ltac fsums_in H :=
  rewrite ?esum_app, ?esum_cons, ?esum_nil, ?ksum_app, ?ksum_cons, ?ksum_nil,
          ?icount_app, ?icount_cons, ?icount_nil, ?rcount_app, ?rcount_cons,
          ?rcount_nil, ?length_app in H;
  cbn [on_cont on_event ev_cont ev_value e_event k_angkut k_nasi k_units k_ids
       k_bad v_units v_ids e_units e_ids e_bad List.length it_id r_id stamp
       rekod_of] in H.

Section Flow.

Context {R : RandomSource}.

Record flow_inv (c : Config) (q : list entry) (m : PiketOmprengDES) : Prop := {
  fl_config : config m = c;
  fl_counter : completed m = Z.of_nat (List.length (data m));
  fl_units :
    (esum (e_units (TOTAL_OMPRENG c)) q
     + ksum (k_units (TOTAL_OMPRENG c)) (put_queue (petugas_lauk m))
     + List.length (items (antrian_lauk m))
     + List.length (items (antrian_nasi m))
     + List.length (data m)
     = Z.to_nat (TOTAL_OMPRENG c))%nat;
  fl_ids : forall x,
    (esum (e_ids (TOTAL_OMPRENG c) x) q
     + ksum (k_ids (TOTAL_OMPRENG c) x) (put_queue (petugas_lauk m))
     + icount x (items (antrian_lauk m))
     + icount x (items (antrian_nasi m))
     + rcount x (data m)
     = in_range (TOTAL_OMPRENG c) x)%nat;
  fl_nasi :
    esum (on_cont k_nasi) q = 0%nat -> TOTAL_OMPRENG c <= completed m;
  fl_angkut :
    esum (on_cont k_angkut) q = 0%nat -> TOTAL_OMPRENG c <= completed m;
  fl_wf : esum e_bad q = 0%nat
}.

Lemma on_event_Some (f : cont -> option item -> nat) (e : entry) (k : cont) :
  ev_cont (e_event e) = Some k -> on_event f e = f k (ev_value (e_event e)).
Proof. unfold on_event. intros ->. reflexivity. Qed.

Lemma e_units_Some (T : Z) (e : entry) (k : cont) :
  ev_cont (e_event e) = Some k ->
  e_units T e = (k_units T k + v_units (ev_value (e_event e)))%nat.
Proof. apply (on_event_Some (fun k v => (k_units T k + v_units v)%nat)). Qed.

Lemma e_ids_Some (T x : Z) (e : entry) (k : cont) :
  ev_cont (e_event e) = Some k ->
  e_ids T x e = (k_ids T x k + v_ids x (ev_value (e_event e)))%nat.
Proof. apply (on_event_Some (fun k v => (k_ids T x k + v_ids x v)%nat)). Qed.

Lemma e_bad_Some (e : entry) (k : cont) :
  ev_cont (e_event e) = Some k -> e_bad e = k_bad k (ev_value (e_event e)).
Proof. apply (on_event_Some k_bad). Qed.

Lemma resumes_flow (c : Config) (e : entry) (k : cont) (m m' : PiketOmprengDES) :
  ev_cont (e_event e) = Some k ->
  sched_inv (e :: queue (env m)) m ->
  flow_inv c (e :: queue (env m)) m ->
  resumes m (ev_value (e_event e)) k m' ->
  flow_inv c (queue (env m')) m'.
Proof.
  intros Hk Hinv Hflow Hf.
  destruct Hinv as [C1 C2 C3 UL UA UN PA PN GL GN OA ON LW ND PL].
  destruct Hflow as [FC FK FU FI FN FA FW]. subst c.
  rewrite esum_cons, (on_cont_Some _ _ _ Hk) in OA.
  rewrite esum_cons, (on_cont_Some _ _ _ Hk) in ON.
  rewrite esum_cons, (on_cont_Some _ _ _ Hk) in UA.
  rewrite esum_cons, (on_cont_Some _ _ _ Hk) in UN.
  rewrite esum_cons, (on_cont_Some _ _ _ Hk) in ND.
  rewrite esum_cons, (on_cont_Some _ _ _ Hk) in FN.
  rewrite esum_cons, (on_cont_Some _ _ _ Hk) in FA.
  rewrite esum_cons, (e_units_Some _ _ _ Hk) in FU.
  rewrite esum_cons, (e_bad_Some _ _ Hk) in FW.
  assert (FI' : forall x,
    (k_ids (TOTAL_OMPRENG (config m)) x k + v_ids x (ev_value (e_event e))
     + esum (e_ids (TOTAL_OMPRENG (config m)) x) (queue (env m))
     + ksum (k_ids (TOTAL_OMPRENG (config m)) x) (put_queue (petugas_lauk m))
     + icount x (items (antrian_lauk m))
     + icount x (items (antrian_nasi m))
     + rcount x (data m)
     = in_range (TOTAL_OMPRENG (config m)) x)%nat).
  { intros x. rewrite <- (FI x).
    rewrite esum_cons, (e_ids_Some _ _ _ _ Hk). reflexivity. }
  clear FI UL LW Hk.
  revert Hf FU FW FI'.
  generalize (ev_value (e_event e)). intros v Hf FU FW FI'. clear e.
  inv_rules.
  all: subst; cbn [k_angkut k_nasi k_holds_angkut k_holds_nasi k_need
                   k_units k_ids k_bad v_units v_ids] in *.
  all: try (destruct v as [?|]; cbn [k_bad v_units v_ids] in *; [exfalso; lia|]).
  all: try (assert (ZA : esum (on_cont k_angkut) (queue (env m)) = 0%nat) by lia;
            pose proof (no_angkut_no_holder _ ZA) as ZHA;
            pose proof (no_angkut_no_need _ ZA) as ZNA;
            rewrite ZHA in UA; rewrite ZNA in ND; cbn [Nat.add repeat] in UA).
  all: try (assert (ZN : esum (on_cont k_nasi) (queue (env m)) = 0%nat) by lia;
            pose proof (no_nasi_no_holder _ ZN) as ZHN;
            rewrite ZHN in UN; cbn [Nat.add repeat] in UN).
  all: prim_cases; msimpl in *.
  all: rewrite ?PA, ?PN, ?GL, ?GN, ?UA, ?UN in *.
  all: clean_prims.
  all: repeat match goal with
       | H : items _ = [] |- _ => rewrite H in *
       | H : items _ = _ :: _ |- _ => rewrite H in *
       end; cbn [List.length] in *.
  all: try (exfalso; lia).
  all: try (exfalso; congruence).
  all: try match goal with
       | Hpq : put_queue (petugas_lauk _) ++ [_] = ?k :: ?rest |- _ =>
           let W := fresh "W" in
           assert (W : forallb k_wait_lauk (k :: rest) = true)
             by (rewrite <- Hpq, forallb_app, PL; reflexivity);
           cbn [forallb] in W; apply andb_true_iff in W;
           let W1 := fresh "W" in
           destruct W as [W1 W]; apply wait_lauk_inv in W1;
           destruct W1 as [? [? ->]]
       end.
  all: try match goal with
       | Hpq : put_queue (petugas_lauk ?m) ++ [_] = _ :: _ |- _ =>
           pose proof (f_equal (ksum (k_units (TOTAL_OMPRENG (config m)))) Hpq) as HU;
           pose proof (fun x => f_equal (ksum (k_ids (TOTAL_OMPRENG (config m)) x)) Hpq)
             as HI;
           rewrite ksum_app, !ksum_cons, ksum_nil in HU;
           cbn [k_units] in HU
       end.
  all: constructor; msimpl; intros;
       repeat match goal with H : items _ = _ |- context [items _] => rewrite H end;
       fsums; fsums; try reflexivity; try assumption; try lia.
  all: try match goal with
       | HI : forall x, ksum _ _ = ksum _ _ |- _ = in_range _ ?x =>
           specialize (HI x); rewrite ksum_app, !ksum_cons, ksum_nil in HI;
           cbn [k_ids] in HI
       end.
  all: try match goal with
       | FI' : forall x, _ = in_range _ x |- _ = in_range _ ?x =>
           specialize (FI' x); fsums_in FI'; unfold id_is in *;
           repeat match goal with
           | |- context [?a =? ?b] => destruct (Z.eqb_spec a b)
           | |- context [?a <=? ?b] => destruct (Z.leb_spec a b)
           | |- context [?a <? ?b] => destruct (Z.ltb_spec a b)
           | H : context [?a =? ?b] |- _ => destruct (Z.eqb_spec a b)
           | H : context [?a <=? ?b] |- _ => destruct (Z.leb_spec a b)
           | H : context [?a <? ?b] |- _ => destruct (Z.ltb_spec a b)
           end; cbn [andb] in *; lia
       end.
  all: try match goal with
       | H0 : esum (on_cont _) _ = 0%nat |- _ <= _ =>
           fsums_in H0; first [lia | apply FN; lia | apply FA; lia]
       end.
Qed.

Lemma flow_inv_perm (c : Config) (q q' : list entry) (m : PiketOmprengDES) :
  Permutation q q' -> flow_inv c q m -> flow_inv c q' m.
Proof.
  intros Hp [FC FK FU FI FN FA FW].
  constructor; try assumption;
    try (intros; rewrite <- (esum_perm _ _ _ Hp); auto).
  - intros H. apply FN. rewrite (esum_perm _ _ _ Hp). exact H.
  - intros H. apply FA. rewrite (esum_perm _ _ _ Hp). exact H.
Qed.

Lemma no_cont_on_event (f : cont -> option item -> nat) (e : entry) :
  ev_cont (e_event e) = None -> on_event f e = 0%nat.
Proof. unfold on_event. intros ->. reflexivity. Qed.

Lemma no_cont_on_cont (f : cont -> nat) (e : entry) :
  ev_cont (e_event e) = None -> on_cont f e = 0%nat.
Proof. unfold on_cont. intros ->. reflexivity. Qed.

Lemma e_units_None (T : Z) (e : entry) :
  ev_cont (e_event e) = None -> e_units T e = 0%nat.
Proof. apply no_cont_on_event. Qed.

Lemma e_ids_None (T x : Z) (e : entry) :
  ev_cont (e_event e) = None -> e_ids T x e = 0%nat.
Proof. apply no_cont_on_event. Qed.

Lemma e_bad_None (e : entry) :
  ev_cont (e_event e) = None -> e_bad e = 0%nat.
Proof. apply no_cont_on_event. Qed.

Lemma fires_flow (c : Config) (e : entry) (m m' : PiketOmprengDES) :
  sched_inv (e :: queue (env m)) m ->
  flow_inv c (e :: queue (env m)) m ->
  fires m (e_event e) m' ->
  flow_inv c (queue (env m')) m'.
Proof.
  intros Hinv Hflow Hf.
  destruct (e_event e) as [k|k|r k|r|s k|s v k|] eqn:Ee; inversion Hf; subst;
    try (eapply resumes_flow; try eassumption; rewrite Ee; try reflexivity;
         eassumption).
  - (* EvRelease *)
    assert (Hn : ev_cont (e_event e) = None) by (rewrite Ee; reflexivity).
    destruct Hflow as [FC FK FU FI FN FA FW]. subst c.
    rewrite esum_cons, (no_cont_on_cont _ _ Hn), Nat.add_0_l in FN.
    rewrite esum_cons, (no_cont_on_cont _ _ Hn), Nat.add_0_l in FA.
    rewrite esum_cons, (e_units_None _ _ Hn), Nat.add_0_l in FU.
    rewrite esum_cons, (e_bad_None _ Hn), Nat.add_0_l in FW.
    assert (FI' : forall x,
      (esum (e_ids (TOTAL_OMPRENG (config m)) x) (queue (env m))
       + ksum (k_ids (TOTAL_OMPRENG (config m)) x) (put_queue (petugas_lauk m))
       + icount x (items (antrian_lauk m))
       + icount x (items (antrian_nasi m))
       + rcount x (data m)
       = in_range (TOTAL_OMPRENG (config m)) x)%nat).
    { intros x. rewrite <- (FI x).
      rewrite esum_cons, (e_ids_None _ _ _ Hn). reflexivity. }
    clear FI.
    destruct Hinv as [_ _ _ _ _ _ PA PN _ _ _ _ _ _ PL].
    match goal with |- context [trigger_put ?r0 _] =>
      destruct (trigger_put_cases r0 m) as [[-> C]|[k [rest [Hpq [Hc ->]]]]];
        [constructor; solve [assumption | reflexivity]|];
        destruct r0; msimpl in *; try congruence
    end.
    rewrite Hpq in PL. cbn [forallb] in PL. apply andb_true_iff in PL.
    destruct PL as [W _]. apply wait_lauk_inv in W. destruct W as [oid [d ->]].
    rewrite Hpq in FU. rewrite ksum_cons in FU. cbn [k_units] in FU.
    constructor; msimpl; intros; fsums; try reflexivity; try assumption; try lia.
    + specialize (FI' x). rewrite Hpq, ksum_cons in FI'. cbn [k_ids] in FI'.
      lia.
    + apply FN. match goal with H : esum _ _ = 0%nat |- _ => fsums_in H; lia end.
    + apply FA. match goal with H : esum _ _ = 0%nat |- _ => fsums_in H; lia end.
  - (* EvPut *)
    assert (Hidle : trigger_get s m = m).
    { apply trigger_get_idle. destruct Hinv. destruct s; assumption. }
    rewrite Hidle in *.
    eapply resumes_flow; try eassumption; rewrite Ee; try reflexivity; eassumption.
  - (* EvProcess *)
    assert (Hn : ev_cont (e_event e) = None) by (rewrite Ee; reflexivity).
    destruct Hflow as [FC FK FU FI FN FA FW].
    rewrite esum_cons, (no_cont_on_cont _ _ Hn), Nat.add_0_l in FN.
    rewrite esum_cons, (no_cont_on_cont _ _ Hn), Nat.add_0_l in FA.
    rewrite esum_cons, (e_units_None _ _ Hn), Nat.add_0_l in FU.
    rewrite esum_cons, (e_bad_None _ Hn), Nat.add_0_l in FW.
    constructor; try assumption.
    intros x. rewrite <- (FI x).
    rewrite esum_cons, (e_ids_None _ _ _ Hn). reflexivity.
Qed.

Definition Flow (c : Config) (m : PiketOmprengDES) : Prop :=
  flow_inv c (queue (env m)) m.

Lemma step_flow (c : Config) (m m' : PiketOmprengDES) :
  Sched m -> Flow c m -> step m = Some (Ok m') -> Flow c m'.
Proof.
  intros HS HF Hs. apply step_fires in Hs. destruct Hs as [e [q [Hq Hf]]].
  eapply fires_flow; [apply sched_popped; eassumption | | exact Hf].
  apply (flow_inv_perm _ _ _ _ (heappop_perm _ _ _ Hq)) in HF.
  destruct HF. constructor; assumption.
Qed.

Lemma flow_initial (c : Config) : Flow c (spawn (initial c)).
Proof.
  constructor; msimpl; cbn [spawn run_processes fold_left process schedule];
    msimpl; intros; fsums; try reflexivity; try lia; try discriminate.
  - cbn. rewrite Z.sub_0_r. lia.
  - unfold in_range. lia.
Qed.

Lemma flow_reachable (c : Config) (g0 : gen) (m0 m : PiketOmprengDES) (n : nat) :
  init c g0 = Ok m0 -> steps n (spawn m0) = Some m -> Sched m /\ Flow c m.
Proof.
  intros Hi Hs. apply init_Ok in Hi. destruct Hi as [Ha ->].
  eapply (steps_invariant (fun m => Sched m /\ Flow c m)); [| | exact Hs].
  - intros m1 m2 [H1 H2] Hst. split;
      [eapply step_sched | eapply step_flow]; eassumption.
  - split; [apply sched_initial; exact Ha | apply flow_initial].
Qed.

End Flow.

(* ===================================================================== *)
(** ** The end of a run *)
(* ===================================================================== *)

Lemma rcount_In (x : Z) (l : list rekod) :
  In x (map r_id l) -> (1 <= rcount x l)%nat.
Proof.
  induction l as [|r l IH]; [contradiction|].
  rewrite rcount_cons. cbn [map]. unfold id_is. intros [H|H].
  - rewrite H, Z.eqb_refl. lia.
  - specialize (IH H). lia.
Qed.

Lemma rcount_NoDup (l : list rekod) :
  (forall x, (rcount x l <= 1)%nat) -> NoDup (map r_id l).
Proof.
  induction l as [|r l IH]; intros H; cbn [map]; constructor.
  - intros Hin. apply rcount_In in Hin.
    specialize (H (r_id r)). rewrite rcount_cons in H.
    unfold id_is in H. rewrite Z.eqb_refl in H. lia.
  - apply IH. intros x. specialize (H x). rewrite rcount_cons in H. lia.
Qed.

Section Final.

Context {R : RandomSource}.

(** On an empty schedule every unit is in the record list, once. *)
Lemma flow_final (c : Config) (m : PiketOmprengDES) :
  Flow c m -> queue (env m) = [] ->
  List.length (data m) = Z.to_nat (TOTAL_OMPRENG c) /\
  completed m = Z.of_nat (List.length (data m)) /\
  NoDup (map r_id (data m)) /\
  (forall x, In x (map r_id (data m)) <-> 0 <= x < TOTAL_OMPRENG c) /\
  items (antrian_lauk m) = [] /\ items (antrian_nasi m) = [].
Proof.
  intros [FC FK FU FI FN FA FW] Hq. rewrite Hq in *. rewrite esum_nil in *.
  specialize (FN eq_refl).
  assert (Hlen : List.length (data m) = Z.to_nat (TOTAL_OMPRENG c)) by lia.
  assert (Hl : List.length (items (antrian_lauk m)) = 0%nat) by lia.
  assert (Hn : List.length (items (antrian_nasi m)) = 0%nat) by lia.
  assert (Hr : forall x, (rcount x (data m) <= in_range (TOTAL_OMPRENG c) x)%nat).
  { intros x. specialize (FI x). lia. }
  assert (Hnd : NoDup (map r_id (data m))).
  { apply rcount_NoDup. intros x. specialize (Hr x). unfold in_range in Hr.
    destruct ((0 <=? x) && (x <? TOTAL_OMPRENG c)); lia. }
  assert (Hin : forall x, In x (map r_id (data m)) -> 0 <= x < TOTAL_OMPRENG c).
  { intros x Hx. apply rcount_In in Hx. specialize (Hr x). unfold in_range in Hr.
    destruct (Z.leb_spec 0 x); destruct (Z.ltb_spec x (TOTAL_OMPRENG c));
      cbn [andb] in Hr; lia. }
  split; [exact Hlen|]. split; [exact FK|]. split; [exact Hnd|].
  split; [|split].
  - intros x. split; [apply Hin|].
    (* none is missing: a duplicate-free list of [T] ids below [T] has them all *)
    intros Hx.
    set (ids := map Z.of_nat (seq 0 (Z.to_nat (TOTAL_OMPRENG c)))).
    assert (Hincl : incl (map r_id (data m)) ids).
    { intros y Hy. apply Hin in Hy. unfold ids. apply in_map_iff.
      exists (Z.to_nat y). split; [lia|]. apply in_seq. lia. }
    assert (Hle : (List.length ids <= List.length (map r_id (data m)))%nat).
    { unfold ids. rewrite !length_map, length_seq. lia. }
    apply (NoDup_length_incl Hnd Hle Hincl).
    unfold ids. apply in_map_iff. exists (Z.to_nat x). split; [lia|].
    apply in_seq. lia.
  - destruct (items (antrian_lauk m)); [reflexivity | discriminate].
  - destruct (items (antrian_nasi m)); [reflexivity | discriminate].
Qed.

End Final.

(* ===================================================================== *)
(** ** Termination *)
(* ===================================================================== *)

(** A valid configuration: what [__init__] accepts, positive counts, time
    ranges that are not negative and in order, batch sizes of at least
    one and in order. *)
Definition valid (c : Config) : Prop :=
  accepted c /\
  0 < NUM_MEJA c /\ 0 < MAHASISWA_PER_MEJA c /\
  (0 <= LAUK_MIN_TIME c)%Q /\ (LAUK_MIN_TIME c <= LAUK_MAX_TIME c)%Q /\
  (0 <= ANGKUT_MIN_TIME c)%Q /\ (ANGKUT_MIN_TIME c <= ANGKUT_MAX_TIME c)%Q /\
  (0 <= NASI_MIN_TIME c)%Q /\ (NASI_MIN_TIME c <= NASI_MAX_TIME c)%Q /\
  1 <= ANGKUT_MIN_LOAD c /\ ANGKUT_MIN_LOAD c <= ANGKUT_MAX_LOAD c.

(** An upper bound on the steps a frame still causes, polls apart. *)
Definition k_weight (T : Z) (k : cont) : nat :=
  match k with
  | KGenerate i => 2 + 18 * Z.to_nat (T - i)
  | KOmpreng _ OStart => 17
  | KOmpreng _ (OGranted _) => 16
  | KOmpreng _ (OServed _ _ _) => 15
  | KOmpreng _ OPut => 2
  | KAngkut ALoop => 2
  | KAngkut (AGet b _) => 12 + 6 * List.length b
  | KAngkut (AGranted b) => 5 + 6 * List.length b
  | KAngkut (AServed b _) => 4 + 6 * List.length b
  | KAngkut (APut b) => 3 + 6 * List.length b
  | KNasi NLoop => 2
  | KNasi NGet => 6
  | KNasi (NGranted _) => 5
  | KNasi (NServed _ _ _) => 4
  end%nat.

Definition e_weight (T : Z) (e : entry) : nat :=
  match ev_cont (e_event e) with
  | Some k => k_weight T k
  | None => 1%nat
  end.

Lemma e_weight_Some (T : Z) (e : entry) (k : cont) :
  ev_cont (e_event e) = Some k -> e_weight T e = k_weight T k.
Proof. unfold e_weight. intros ->. reflexivity. Qed.

Lemma e_weight_None (T : Z) (e : entry) :
  ev_cont (e_event e) = None -> e_weight T e = 1%nat.
Proof. unfold e_weight. intros ->. reflexivity. Qed.

Ltac wsums :=
  rewrite ?esum_app, ?esum_cons, ?esum_nil, ?ksum_app, ?ksum_cons, ?ksum_nil,
          ?length_app;
  cbn [e_weight ev_cont e_event k_weight List.length].

Section Progress.

Context {R : RandomSource}.

Definition weight (T : Z) (q : list entry) (m : PiketOmprengDES) : nat :=
  (esum (e_weight T) q
   + ksum (k_weight T) (put_queue (petugas_lauk m))
   + 11 * List.length (items (antrian_lauk m))
   + 5 * List.length (items (antrian_nasi m)))%nat.

(** A loop woken from its poll finds nothing to do. *)
Definition idle_frame (m : PiketOmprengDES) (k : cont) : Prop :=
  completed m < TOTAL_OMPRENG (config m) /\
  ((k = KAngkut ALoop /\ items (antrian_lauk m) = []) \/
   (k = KNasi NLoop /\ items (antrian_nasi m) = [])).

Lemma resumes_weight `{!RandomSourceOk R} (e : entry) (k : cont)
      (m m' : PiketOmprengDES) :
  valid (config m) ->
  ev_cont (e_event e) = Some k ->
  sched_inv (e :: queue (env m)) m ->
  resumes m (ev_value (e_event e)) k m' ->
  (weight (TOTAL_OMPRENG (config m')) (queue (env m')) m'
   < k_weight (TOTAL_OMPRENG (config m)) k
     + weight (TOTAL_OMPRENG (config m)) (queue (env m)) m)%nat \/
  (idle_frame m k /\ m' = schedule (EvTimeout k) NORMAL (1 # 2) m).
Proof.
  intros Hv Hk Hinv Hf.
  destruct Hv as (_ & _ & _ & _ & _ & _ & _ & _ & _ & Hmin & Hmax).
  destruct Hinv as [C1 C2 C3 UL UA UN PA PN GL GN OA ON LW ND PL].
  rewrite esum_cons, (on_cont_Some _ _ _ Hk) in OA.
  rewrite esum_cons, (on_cont_Some _ _ _ Hk) in ON.
  rewrite esum_cons, (on_cont_Some _ _ _ Hk) in UA.
  rewrite esum_cons, (on_cont_Some _ _ _ Hk) in UN.
  rewrite esum_cons, (on_cont_Some _ _ _ Hk) in ND.
  clear UL LW Hk.
  revert Hf. generalize (ev_value (e_event e)). intros v Hf. clear e.
  unfold weight.
  inv_rules.
  all: subst; cbn [k_angkut k_nasi k_holds_angkut k_holds_nasi k_need] in *.
  all: try (assert (ZA : esum (on_cont k_angkut) (queue (env m)) = 0%nat) by lia;
            pose proof (no_angkut_no_holder _ ZA) as ZHA;
            pose proof (no_angkut_no_need _ ZA) as ZNA;
            rewrite ZHA in UA; rewrite ZNA in ND; cbn [Nat.add repeat] in UA).
  all: try (assert (ZN : esum (on_cont k_nasi) (queue (env m)) = 0%nat) by lia;
            pose proof (no_nasi_no_holder _ ZN) as ZHN;
            rewrite ZHN in UN; cbn [Nat.add repeat] in UN).
  all: try match goal with
       | Hr : randbelow ?w ?g = (?n, _) |- _ =>
           let Hb := fresh "Hb" in
           pose proof (randbelow_range w g ltac:(lia)) as Hb;
           rewrite Hr in Hb; cbn [fst] in Hb
       end.
  all: try match goal with
       | H : items ?s <> [] |- _ =>
           let E := fresh "Eit" in
           destruct (items s) eqn:E; [congruence|]
       end.
  all: prim_cases; msimpl in *.
  all: rewrite ?PA, ?PN, ?GL, ?GN, ?UA, ?UN in *.
  all: clean_prims.
  all: repeat match goal with
       | H : items _ = [] |- _ => rewrite H in *
       | H : items _ = _ :: _ |- _ => rewrite H in *
       end; cbn [List.length] in *.
  all: repeat match goal with
       | H : _ :: _ = _ :: _ |- _ => apply cons_inj in H; destruct H; subst
       end.
  all: try (exfalso; lia).
  all: try (exfalso; congruence).
  all: try match goal with
       | Hpq : put_queue (petugas_lauk ?m) ++ [_] = _ :: _ |- _ =>
           pose proof (f_equal (ksum (k_weight (TOTAL_OMPRENG (config m)))) Hpq) as HU;
           rewrite ksum_app, !ksum_cons, ksum_nil in HU;
           cbn [k_weight] in HU
       end.
  all: try (left; msimpl;
            repeat match goal with H : items _ = _ |- context [items _] => rewrite H end;
            wsums; wsums; lia).
  all: right; split; [|reflexivity]; split; [assumption|]; auto.
Qed.

Lemma fires_weight `{!RandomSourceOk R} (e : entry) (m m' : PiketOmprengDES) :
  valid (config m) ->
  sched_inv (e :: queue (env m)) m ->
  fires m (e_event e) m' ->
  (weight (TOTAL_OMPRENG (config m')) (queue (env m')) m'
   < e_weight (TOTAL_OMPRENG (config m)) e
     + weight (TOTAL_OMPRENG (config m)) (queue (env m)) m)%nat \/
  (exists k, ev_cont (e_event e) = Some k /\ idle_frame m k /\
             m' = schedule (EvTimeout k) NORMAL (1 # 2) m).
Proof.
  intros Hv Hinv Hf.
  destruct (e_event e) as [k|k|r k|r|s k|s v k|] eqn:Ee; inversion Hf; subst.
  1-3, 6: (assert (Hk : ev_cont (e_event e) = Some k) by (rewrite Ee; reflexivity);
       rewrite (e_weight_Some _ _ _ Hk);
       destruct (resumes_weight e k m m' Hv Hk Hinv) as [Hw|[Hw1 Hw2]];
       [rewrite Ee; assumption | left; exact Hw | right; exists k; auto]).
  - (* EvRelease *)
    left. rewrite (e_weight_None _ e) by (rewrite Ee; reflexivity).
    destruct Hinv as [_ _ _ _ _ _ PA PN _ _ _ _ _ _ _].
    unfold weight.
    destruct (trigger_put_cases r m) as [[-> C]|[k [rest [Hpq [Hc ->]]]]]; [lia|].
    destruct r; msimpl in *; try congruence.
    rewrite Hpq. wsums. lia.
  - (* EvPut *)
    assert (Hidle : trigger_get s m = m).
    { apply trigger_get_idle. destruct Hinv. destruct s; assumption. }
    rewrite Hidle in *.
    assert (Hk : ev_cont (e_event e) = Some k) by (rewrite Ee; reflexivity).
    rewrite (e_weight_Some _ _ _ Hk).
    destruct (resumes_weight e k m m' Hv Hk Hinv) as [Hw|[Hw1 Hw2]];
      [rewrite Ee; assumption | left; exact Hw | right; exists k; auto].
  - left. rewrite (e_weight_None _ e) by (rewrite Ee; reflexivity). lia.
Qed.

(** No exception under a valid configuration. *)
Lemma timeout_total (d : Q) (k : cont) (m : PiketOmprengDES) :
  (0 <= d)%Q -> timeout d k m = Ok (schedule (EvTimeout k) NORMAL d m).
Proof.
  intros H. unfold timeout, Qltb.
  destruct (Qcompare_spec d 0) as [E|E|E]; try reflexivity. lra.
Qed.

Lemma uniform_range `{!RandomSourceOk R} (lo hi : Q) (m : PiketOmprengDES) :
  (lo <= hi)%Q ->
  (lo <= fst (uniform lo hi m))%Q /\ (fst (uniform lo hi m) <= hi)%Q.
Proof.
  intros H. unfold uniform.
  pose proof (random_unit (random_state m)) as [H0 H1].
  destruct (random (random_state m)) as [u g]. cbn [fst] in *.
  rewrite Qred_correct. split; nra.
Qed.

Lemma served_total `{!RandomSourceOk R} (lo hi : Q) (k : Q -> cont)
      (m : PiketOmprengDES) :
  (0 <= lo)%Q -> (lo <= hi)%Q ->
  exists m', (let (t, m1) := uniform lo hi m in timeout t (k t) m1) = Ok m'.
Proof.
  intros H0 H1. pose proof (uniform_range lo hi m H1) as [H2 _].
  destruct (uniform lo hi m) as [t m1]. cbn [fst] in H2.
  rewrite timeout_total by lra. eauto.
Qed.

Lemma angkut_loop_total `{!RandomSourceOk R} (m : PiketOmprengDES) :
  valid (config m) -> exists m', angkut_loop m = Ok m'.
Proof.
  intros (_ & _ & _ & _ & _ & _ & _ & _ & _ & Hmin & Hmax).
  unfold angkut_loop.
  destruct (completed m <? TOTAL_OMPRENG (config m)); [|eauto].
  destruct (Nat.eqb _ 0).
  - rewrite timeout_total by lra. eauto.
  - unfold randint.
    destruct (Z.ltb_spec 0 (ANGKUT_MAX_LOAD (config m) + 1 - ANGKUT_MIN_LOAD (config m)));
      [|lia].
    destruct (randbelow _ _) as [n g]. eauto.
Qed.

Lemma nasi_loop_total (m : PiketOmprengDES) : exists m', nasi_loop m = Ok m'.
Proof.
  unfold nasi_loop.
  destruct (completed m <? TOTAL_OMPRENG (config m)); [|eauto].
  destruct (Nat.eqb _ 0); [|eauto].
  rewrite timeout_total by lra. eauto.
Qed.

Lemma resume_total `{!RandomSourceOk R} (k : cont) (v : option item)
      (m : PiketOmprengDES) :
  valid (config m) -> k_bad k v = 0%nat -> exists m', resume k v m = Ok m'.
Proof.
  intros Hv Hb. pose proof Hv as (_ & _ & _ & L1 & L2 & A1 & A2 & N1 & N2 & _ & _).
  destruct k as [i|oid f|f|f]; cbn [resume].
  - unfold generate. destruct (i <? TOTAL_OMPRENG (config m)); [|eauto].
    rewrite timeout_total by lra. eauto.
  - destruct f; cbn [proses_ompreng]; eauto.
    apply (served_total _ _ (fun t => KOmpreng oid (OServed datang (now (env m)) t)));
      assumption.
  - destruct f; cbn [proses_angkut].
    + apply angkut_loop_total. exact Hv.
    + destruct v; [eauto | discriminate].
    + apply (served_total _ _ (fun t => KAngkut (AServed batch t))); assumption.
    + destruct batch; cbn [angkut_put]; [|eauto].
      apply angkut_loop_total. exact Hv.
    + destruct rest; cbn [angkut_put]; [|eauto].
      apply angkut_loop_total. exact Hv.
  - destruct f; cbn [proses_nasi].
    + apply nasi_loop_total.
    + destruct v; [eauto | discriminate].
    + apply (served_total _ _ (fun t => KNasi (NServed it (now (env m)) t)));
        assumption.
    + apply nasi_loop_total.
Qed.

Lemma fire_total `{!RandomSourceOk R} (e : entry) (m : PiketOmprengDES) :
  valid (config m) -> e_bad e = 0%nat -> exists m', fire (e_event e) m = Ok m'.
Proof.
  intros Hv Hb. unfold e_bad, on_event in Hb.
  destruct (e_event e) as [k|k|r k|r|s k|s v k|]; cbn [fire ev_cont ev_value] in *;
    eauto; try (apply resume_total; assumption).
  apply resume_total; [|assumption].
  destruct (trigger_get_cases s m) as [[-> _]|[k' [rest [v [its [_ [_ ->]]]]]]];
    assumption.
Qed.

End Progress.

(* --------------------------------------------------------------------- *)
(** *** Polls cannot go on for ever *)

Lemma Qfloor_unique (x : Q) (z : Z) :
  (inject_Z z <= x)%Q -> (x < inject_Z (z + 1))%Q -> Qfloor x = z.
Proof.
  intros H1 H2.
  pose proof (Qfloor_resp_le _ _ H1) as L. rewrite Qfloor_Z in L.
  pose proof (Qfloor_le x) as U.
  assert (U' : (inject_Z (Qfloor x) < inject_Z (z + 1))%Q) by lra.
  rewrite <- Zlt_Qlt in U'. lia.
Qed.

Lemma inject_Z_pred (z : Z) : (inject_Z (z - 1) == inject_Z z - 1)%Q.
Proof. unfold Qeq, Qminus, Qplus, Qopp, inject_Z. simpl. lia. Qed.

Lemma inject_Z_succ (z : Z) : (inject_Z (z + 1) == inject_Z z + 1)%Q.
Proof. unfold Qeq, Qplus, inject_Z. simpl. lia. Qed.

Lemma Qfloor_pred (x y : Q) : (y == x - 1)%Q -> Qfloor y = Qfloor x - 1.
Proof.
  intros E. apply Qfloor_unique.
  - pose proof (Qfloor_le x) as H. rewrite E, inject_Z_pred. lra.
  - pose proof (Qlt_floor x) as H. rewrite E.
    replace (Qfloor x - 1 + 1) with (Qfloor x) by lia.
    rewrite inject_Z_succ in H. lra.
Qed.

(** How often a poll at distance [d] before an event still wakes up. *)
Definition cnt (d : Q) : nat := Z.to_nat (Qfloor (2 * d) + 1).

Lemma cnt_step (d d' : Q) :
  (0 <= d)%Q -> (d' == d - (1 # 2))%Q -> cnt d = S (cnt d').
Proof.
  intros H E. unfold cnt.
  assert (F : Qfloor (2 * d') = Qfloor (2 * d) - 1)
    by (apply Qfloor_pred; rewrite E; ring).
  rewrite F.
  assert (P : 0 <= Qfloor (2 * d)).
  { pose proof (Qfloor_resp_le 0 (2 * d) ltac:(lra)) as L.
    change (Qfloor 0) with 0 in L. exact L. }
  lia.
Qed.

Lemma esum_ext_In (f g : entry -> nat) (q : list entry) :
  (forall x, In x q -> f x = g x) -> esum f q = esum g q.
Proof.
  induction q as [|e q IH]; intros H; [reflexivity|].
  rewrite !esum_cons, (H e), IH; auto using in_eq, in_cons.
Qed.

Lemma esum_plus (f g : entry -> nat) (q : list entry) :
  esum (fun x => (f x + g x)%nat) q = (esum f q + esum g q)%nat.
Proof.
  induction q as [|e q IH]; [reflexivity|]. rewrite !esum_cons, IH. lia.
Qed.

Section Potential.

Variable I : entry -> bool.

Definition gap (q : list entry) (x : entry) : nat :=
  esum (fun y => if I y then 0%nat else cnt (e_time y - e_time x)) q.

(** The wake-ups the idle polls of [q] have left before the events that
    are not idle polls. *)
Definition pot (q : list entry) : nat :=
  esum (fun x => if I x then gap q x else 0%nat) q.

Definition live_count (q : list entry) : nat :=
  esum (fun y => if I y then 0%nat else 1%nat) q.

Lemma gap_perm (q q' : list entry) (x : entry) :
  Permutation q q' -> gap q x = gap q' x.
Proof. apply esum_perm. Qed.

Lemma pot_perm (q q' : list entry) : Permutation q q' -> pot q = pot q'.
Proof.
  intros H. unfold pot. rewrite (esum_perm _ _ _ H).
  apply esum_ext_In. intros x _. destruct (I x); [|reflexivity].
  apply gap_perm. exact H.
Qed.

Lemma pot_step (e e' : entry) (r : list entry) :
  I e = true -> I e' = true ->
  (e_time e' == e_time e + (1 # 2))%Q ->
  Forall (fun y => (e_time e <= e_time y)%Q) r ->
  pot (e :: r) = (pot (r ++ [e']) + live_count r)%nat.
Proof.
  intros He He' Ht Hmin. unfold pot.
  rewrite esum_cons, esum_app, esum_cons, esum_nil, He, He'.
  assert (G1 : forall x, gap (e :: r) x = gap r x).
  { intros x. unfold gap. rewrite esum_cons, He. reflexivity. }
  assert (G2 : forall x, gap (r ++ [e']) x = gap r x).
  { intros x. unfold gap. rewrite esum_app, esum_cons, esum_nil, He'. lia. }
  rewrite G1, G2.
  rewrite (esum_ext_In (fun x => if I x then gap (e :: r) x else 0%nat)
                       (fun x => if I x then gap r x else 0%nat))
    by (intros x _; rewrite G1; reflexivity).
  rewrite (esum_ext_In (fun x => if I x then gap (r ++ [e']) x else 0%nat)
                       (fun x => if I x then gap r x else 0%nat))
    by (intros x _; rewrite G2; reflexivity).
  assert (G3 : gap r e = (gap r e' + live_count r)%nat).
  { unfold gap, live_count. rewrite <- esum_plus. apply esum_ext_In.
    intros y Hy. destruct (I y); [reflexivity|].
    rewrite Forall_forall in Hmin. specialize (Hmin y Hy).
    rewrite (cnt_step (e_time y - e_time e) (e_time y - e_time e')).
    - lia.
    - lra.
    - rewrite Ht. ring. }
  lia.
Qed.

End Potential.

Lemma pot_ext (I J : entry -> bool) (q : list entry) :
  (forall x, I x = J x) -> pot I q = pot J q.
Proof.
  intros H. unfold pot. apply esum_ext_In. intros x _. rewrite H.
  destruct (J x); [|reflexivity]. unfold gap. apply esum_ext_In.
  intros y _. rewrite H. reflexivity.
Qed.

Section Termination.

Context {R : RandomSource}.

Definition is_empty {A : Type} (l : list A) : bool :=
  match l with [] => true | _ => false end.

(** An entry that wakes a loop which will find nothing to do and poll
    again. *)
Definition idle (m : PiketOmprengDES) (e : entry) : bool :=
  (completed m <? TOTAL_OMPRENG (config m)) &&
  match ev_cont (e_event e) with
  | Some (KAngkut ALoop) => is_empty (items (antrian_lauk m))
  | Some (KNasi NLoop) => is_empty (items (antrian_nasi m))
  | _ => false
  end.

Lemma idle_inv (m : PiketOmprengDES) (e : entry) :
  idle m e = true ->
  completed m < TOTAL_OMPRENG (config m) /\
  ((ev_cont (e_event e) = Some (KAngkut ALoop) /\ items (antrian_lauk m) = []) \/
   (ev_cont (e_event e) = Some (KNasi NLoop) /\ items (antrian_nasi m) = [])).
Proof.
  unfold idle. intros H. apply andb_true_iff in H. destruct H as [H1 H2].
  apply Z.ltb_lt in H1. split; [exact H1|].
  destruct (ev_cont (e_event e)) as [[| |[]|[]]|]; try discriminate.
  - left. split; [reflexivity|]. destruct (items (antrian_lauk m)); [reflexivity|discriminate].
  - right. split; [reflexivity|]. destruct (items (antrian_nasi m)); [reflexivity|discriminate].
Qed.

Lemma idle_frame_idle (m : PiketOmprengDES) (e : entry) (k : cont) :
  ev_cont (e_event e) = Some k -> idle_frame m k -> idle m e = true.
Proof.
  intros Hk [Hc H]. unfold idle. rewrite Hk.
  apply andb_true_iff. split; [apply Z.ltb_lt; exact Hc|].
  destruct H as [[-> ->]|[-> ->]]; reflexivity.
Qed.

Lemma all_idle_In (m : PiketOmprengDES) (r : list entry) (y : entry) :
  live_count (idle m) r = 0%nat -> In y r -> idle m y = true.
Proof.
  intros H Hy. pose proof (esum_zero _ _ _ H Hy) as Hz. cbv beta in Hz.
  destruct (idle m y); [reflexivity | discriminate].
Qed.

Lemma all_idle_zero (m : PiketOmprengDES) (f : entry -> nat) (r : list entry) :
  live_count (idle m) r = 0%nat ->
  (forall y, In y r -> idle m y = true -> f y = 0%nat) ->
  esum f r = 0%nat.
Proof.
  intros H Hf. rewrite (esum_ext_In f (fun _ => 0%nat)).
  - clear. induction r; [reflexivity|]. rewrite esum_cons. exact IHr.
  - intros y Hy. apply Hf; [exact Hy|]. eapply all_idle_In; eassumption.
Qed.

Lemma idle_units (m : PiketOmprengDES) (T : Z) (y : entry) :
  idle m y = true -> e_bad y = 0%nat -> e_units T y = 0%nat.
Proof.
  intros H Hb. apply idle_inv in H. destruct H as [_ [[Hk _]|[Hk _]]];
    unfold e_units, e_bad, on_event in *; rewrite Hk in *;
    destruct (ev_value (e_event y)); cbn in *; congruence.
Qed.

Lemma idle_holds (m : PiketOmprengDES) (p : proc) (y : entry) :
  idle m y = true -> on_cont (k_holds_lauk p) y = 0%nat.
Proof.
  intros H. apply idle_inv in H. destruct H as [_ [[Hk _]|[Hk _]]];
    unfold on_cont; rewrite Hk; reflexivity.
Qed.

Lemma idle_release (m : PiketOmprengDES) (y : entry) :
  idle m y = true -> is_release_lauk y = 0%nat.
Proof.
  intros H. apply idle_inv in H. destruct H as [_ [[Hk _]|[Hk _]]];
    eapply cont_not_release; eassumption.
Qed.

(** While units are missing from the record list, something other than
    an idle poll is scheduled. *)
Lemma no_livelock (c : Config) (m : PiketOmprengDES) (e : entry) (r : list entry) :
  sched_inv (e :: r) m -> flow_inv c (e :: r) m -> idle m e = true ->
  (1 <= live_count (idle m) r)%nat.
Proof.
  intros [C1 C2 C3 UL UA UN PA PN GL GN OA ON LW ND PL]
         [FC FK FU FI FN FA FW] He.
  destruct (live_count (idle m) r) eqn:Hl; [exfalso|lia].
  rewrite esum_cons in FW.
  assert (Wr : forall y, In y r -> e_bad y = 0%nat)
    by (intros y Hy; apply (esum_zero e_bad r); [lia | exact Hy]).
  assert (Ue : e_units (TOTAL_OMPRENG c) e = 0%nat)
    by (apply (idle_units m); [exact He | lia]).
  assert (Ur : esum (e_units (TOTAL_OMPRENG c)) r = 0%nat).
  { apply (all_idle_zero m); [exact Hl|]. intros y Hy Hi.
    apply (idle_units m); auto. }
  assert (Hr : esum is_release_lauk (e :: r) = 0%nat).
  { rewrite esum_cons, (idle_release m e He).
    apply (all_idle_zero m); [exact Hl|]. intros y _. apply idle_release. }
  assert (Hh : forall p, esum (on_cont (k_holds_lauk p)) (e :: r) = 0%nat).
  { intros p. rewrite esum_cons, (idle_holds m p e He).
    apply (all_idle_zero m); [exact Hl|]. intros y _. apply idle_holds. }
  rewrite esum_cons, Ue, Ur in FU.
  pose proof (idle_inv m e He) as [Hc Hcase]. subst c.
  assert (Hwait : put_queue (petugas_lauk m) = []).
  { destruct (put_queue (petugas_lauk m)) as [|k pq] eqn:Epq; [reflexivity|].
    exfalso. specialize (LW ltac:(discriminate)). rewrite Hr in LW.
    destruct (users (petugas_lauk m)) as [|p us] eqn:Eu; [cbn in LW; lia|].
    specialize (UL p). rewrite Hh in UL.
    pose proof (pcount_pos_of_cons p us). lia. }
  rewrite Hwait, ksum_nil in FU.
  destruct Hcase as [[Hk Hit]|[Hk Hit]].
  - (* the transport loop polls: the finish loop is alive and idle too *)
    rewrite Hit in FU. cbn [List.length] in FU.
    assert (Hn : esum (on_cont k_nasi) (e :: r) <> 0%nat) by (intros H0; specialize (FN H0); lia).
    rewrite esum_cons, (on_cont_Some _ _ _ Hk) in Hn. cbn [k_nasi] in Hn.
    destruct (esum_pos (on_cont k_nasi) r ltac:(lia)) as [y [Hy Hpos]].
    pose proof (all_idle_In m r y Hl Hy) as Hi. apply idle_inv in Hi.
    destruct Hi as [_ [[Hky _]|[_ Hin]]].
    + unfold on_cont in Hpos. rewrite Hky in Hpos. cbn in Hpos. lia.
    + rewrite Hin in FU. cbn [List.length] in FU. lia.
  - rewrite Hit in FU. cbn [List.length] in FU.
    assert (Hn : esum (on_cont k_angkut) (e :: r) <> 0%nat) by (intros H0; specialize (FA H0); lia).
    rewrite esum_cons, (on_cont_Some _ _ _ Hk) in Hn. cbn [k_angkut] in Hn.
    destruct (esum_pos (on_cont k_angkut) r ltac:(lia)) as [y [Hy Hpos]].
    pose proof (all_idle_In m r y Hl Hy) as Hi. apply idle_inv in Hi.
    destruct Hi as [_ [[_ Hin]|[Hky _]]].
    + rewrite Hin in FU. cbn [List.length] in FU. lia.
    + unfold on_cont in Hpos. rewrite Hky in Hpos. cbn in Hpos. lia.
Qed.

End Termination.

Section Halting.

Context {R : RandomSource} `{!RandomSourceOk R}.

Lemma step_popped (m : PiketOmprengDES) (e : entry) (r : list entry)
      (m' : PiketOmprengDES) :
  heappop (queue (env m)) = Some (e, r) ->
  fire (e_event e) (popped m e r) = Ok m' ->
  step m = Some (Ok m').
Proof.
  intros Hq Hf. unfold step. rewrite Hq. unfold popped in Hf. rewrite Hf.
  reflexivity.
Qed.

Lemma weight_popped (T : Z) (m : PiketOmprengDES) (e : entry) (r : list entry) :
  heappop (queue (env m)) = Some (e, r) ->
  weight T (queue (env m)) m
  = (e_weight T e + weight T (queue (env (popped m e r))) (popped m e r))%nat.
Proof.
  intros Hq. unfold weight. msimpl.
  rewrite (esum_heappop _ _ _ _ Hq), esum_cons. lia.
Qed.

Lemma idle_popped (m : PiketOmprengDES) (e : entry) (r : list entry) (x : entry) :
  idle (popped m e r) x = idle m x.
Proof. reflexivity. Qed.

Lemma idle_schedule (m : PiketOmprengDES) (ev : event) (p : Z) (d : Q) (x : entry) :
  idle (schedule ev p d m) x = idle m x.
Proof. reflexivity. Qed.

(** Every step either uses up weight, or is an idle poll, which keeps the
    weight and uses up poll potential. *)
Lemma step_progress (c : Config) (m : PiketOmprengDES) (e : entry) (r : list entry) :
  valid c -> Sched m -> Flow c m ->
  heappop (queue (env m)) = Some (e, r) ->
  exists m', step m = Some (Ok m') /\
    ((weight (TOTAL_OMPRENG c) (queue (env m')) m'
      < weight (TOTAL_OMPRENG c) (queue (env m)) m)%nat \/
     (weight (TOTAL_OMPRENG c) (queue (env m')) m'
      = weight (TOTAL_OMPRENG c) (queue (env m)) m /\
      (pot (idle m') (queue (env m')) < pot (idle m) (queue (env m)))%nat)).
Proof.
  intros Hv HS HF Hq.
  assert (Hc : config m = c) by (destruct HF; assumption).
  assert (Hb : e_bad e = 0%nat).
  { destruct HF as [_ _ _ _ _ _ FW]. apply (esum_zero e_bad (queue (env m))); [exact FW|].
    apply (heappop_In _ _ _ _ Hq). left. reflexivity. }
  assert (Hv0 : valid (config (popped m e r))) by (msimpl; rewrite Hc; exact Hv).
  destruct (fire_total e (popped m e r) Hv0 Hb) as [m' Hf].
  pose proof (step_popped _ _ _ _ Hq Hf) as Hs.
  exists m'. split; [exact Hs|].
  assert (Hc' : config m' = c).
  { pose proof (step_flow _ _ _ HS HF Hs) as HF'. destruct HF'; assumption. }
  pose proof (sched_popped _ _ _ HS Hq) as HS0.
  destruct (fires_weight e _ _ Hv0 HS0 (fire_sound _ _ _ Hf)) as [Hlt|[k [Hk [Hi ->]]]].
  - left. rewrite Hc' in Hlt. rewrite (weight_popped _ _ _ _ Hq).
    msimpl in Hlt. rewrite Hc in Hlt. msimpl. exact Hlt.
  - right. split.
    + rewrite (weight_popped _ _ _ _ Hq). unfold weight. msimpl.
      rewrite esum_app, esum_cons, esum_nil.
      rewrite (e_weight_Some _ _ _ Hk). unfold e_weight. cbn [e_event ev_cont]. lia.
    + msimpl.
      rewrite (pot_ext (idle (schedule (EvTimeout k) NORMAL (1 # 2) (popped m e r)))
                 (idle m)) by (intros x; reflexivity).
      rewrite (pot_perm (idle m) _ _ (heappop_perm _ _ _ Hq)).
      pose proof (idle_frame_idle _ _ _ Hk Hi) as He. rewrite idle_popped in He.
      rewrite (pot_step (idle m) e
                 (mkEntry (Qred (e_time e + (1 # 2))) NORMAL (eid (env m)) (EvTimeout k)) r).
      * assert (1 <= live_count (idle m) r)%nat; [|lia].
        apply (no_livelock c m e r); [| |exact He].
        -- apply (sched_inv_perm _ _ _ (heappop_perm _ _ _ Hq)). exact HS.
        -- apply (flow_inv_perm _ _ _ _ (heappop_perm _ _ _ Hq)). exact HF.
      * exact He.
      * apply idle_inv in He. destruct He as [Hlt Hcase].
        unfold idle. cbn [e_event ev_cont].
        apply andb_true_iff. split; [apply Z.ltb_lt; exact Hlt|].
        rewrite Hk in Hcase.
        destruct Hcase as [[Ek ->]|[Ek ->]]; apply Some_inj in Ek; subst k; reflexivity.
      * cbn [e_time]. apply Qred_correct.
      * pose proof (heappop_min _ _ _ Hq) as Hmin.
        eapply Forall_impl; [|exact Hmin]. intros y. apply entry_le_time.
Qed.

Lemma steps_env_run (n : nat) : forall (m m' : PiketOmprengDES),
  steps n m = Some m' -> step m' = None -> env_run n m = Some (Ok m').
Proof.
  induction n as [|n IH]; intros m m' H Hn; simpl in H.
  - apply Some_inj in H. subst. simpl. rewrite Hn. reflexivity.
  - destruct (step m) as [[m1|x]|] eqn:E; try discriminate.
    simpl. rewrite E. apply IH; assumption.
Qed.

Lemma halts_from (c : Config) :
  valid c ->
  forall (w p : nat) (m : PiketOmprengDES),
    weight (TOTAL_OMPRENG c) (queue (env m)) m = w ->
    pot (idle m) (queue (env m)) = p ->
    Sched m -> Flow c m ->
    exists n m', steps n m = Some m' /\ step m' = None.
Proof.
  intros Hv w. induction w as [w IHw] using lt_wf_ind.
  intros p. induction p as [p IHp] using lt_wf_ind.
  intros m Hw Hp HS HF.
  destruct (heappop (queue (env m))) as [[e r]|] eqn:Hq.
  - destruct (step_progress c m e r Hv HS HF Hq) as [m' [Hs Hcase]].
    pose proof (step_sched _ _ HS Hs) as HS'.
    pose proof (step_flow _ _ _ HS HF Hs) as HF'.
    assert (exists n m2, steps n m' = Some m2 /\ step m2 = None) as [n [m2 [H1 H2]]].
    { destruct Hcase as [Hlt|[He Hlt]].
      - eapply (IHw _ ltac:(rewrite <- Hw; exact Hlt)); eauto.
      - eapply (IHp _ ltac:(rewrite <- Hp; exact Hlt)); eauto. congruence. }
    exists (S n), m2. split; [|exact H2]. simpl. rewrite Hs. exact H1.
  - exists 0%nat, m. split; [reflexivity|]. unfold step. rewrite Hq. reflexivity.
Qed.

End Halting.

(* ===================================================================== *)
(** * The properties of the specification *)
(* ===================================================================== *)

(** The state of the scenario run after [n] scheduler steps, drawing from
    [zero_source]. *)
Definition scenario_state (n : nat) : @PiketOmprengDES zero_source :=
  match steps n (spawn (initial scenario)) with
  | Some m => m
  | None => initial scenario
  end.

Lemma scenario_valid : valid scenario.
Proof.
  unfold valid, accepted, scenario; cbn.
  repeat split; try lia; try (unfold Qle; cbn; lia).
Qed.

Section Pairing.

Context {R : RandomSource}.

(** A step leaves the record list and the counter alone, or appends one
    record and adds one to the counter. *)
Definition paired (m m' : PiketOmprengDES) : Prop :=
  (data m' = data m /\ completed m' = completed m) \/
  (exists rec, data m' = data m ++ [rec] /\ completed m' = completed m + 1).

Lemma fires_paired (ev : event) (m m' : PiketOmprengDES) :
  fires m ev m' -> paired m m'.
Proof.
  unfold paired. intros H.
  inv_rules; prim_cases; msimpl;
    first [ left; split; reflexivity
          | right; eexists; split; reflexivity ].
Qed.

Lemma step_paired (m m' : PiketOmprengDES) :
  step m = Some (Ok m') -> paired m m'.
Proof.
  intros H. apply step_fires in H. destruct H as [e [q [_ H]]].
  apply fires_paired in H. exact H.
Qed.

End Pairing.

Section Completion.

Context {R : RandomSource} `{!RandomSourceOk R}.

(** From a valid configuration the scheduler loop comes to an end, with
    every unit recorded once. *)
Lemma run_completes (c : Config) :
  valid c ->
  exists fuel m,
    run_env fuel (initial c) = Some (Ok m) /\
    queue (env m) = [] /\ Sched m /\ Flow c m /\
    List.length (data m) = Z.to_nat (TOTAL_OMPRENG c) /\
    NoDup (map r_id (data m)) /\
    (forall x, In x (map r_id (data m)) <-> 0 <= x < TOTAL_OMPRENG c).
Proof.
  intros Hv. pose proof Hv as [Ha _].
  pose proof (sched_initial c Ha) as HS.
  pose proof (flow_initial c) as HF.
  destruct (halts_from c Hv _ _ _ eq_refl eq_refl HS HF) as [n [m [Hn Hstop]]].
  assert (HI : Sched m /\ Flow c m).
  { eapply (steps_invariant (fun m => Sched m /\ Flow c m)); [| |exact Hn].
    - intros m1 m2 [H1 H2] Hst. split;
        [eapply step_sched | eapply step_flow]; eassumption.
    - split; assumption. }
  destruct HI as [HS' HF'].
  pose proof (step_None _ Hstop) as Hq.
  destruct (flow_final c m HF' Hq) as (Hlen & _ & Hnd & Hids & _).
  exists n, m.
  split; [unfold run_env; apply steps_env_run; assumption|].
  repeat (split; [assumption|]). exact Hids.
Qed.

End Completion.

(** C10.  At every scheduler step of every run, [completed] equals the
    number of records in [data]; and a step either leaves both alone or
    appends exactly one record and adds exactly one to [completed]. *)
Theorem completed_counts_data {R : RandomSource} (c : Config) (g0 : gen)
        (m0 m : PiketOmprengDES) (n : nat) :
  init c g0 = Ok m0 -> steps n (spawn m0) = Some m ->
  completed m = Z.of_nat (List.length (data m)) /\
  forall m', step m = Some (Ok m') -> paired m m'.
Proof.
  intros Hi Hs. split.
  - eapply (steps_invariant counter_inv); [exact step_counter | | exact Hs].
    eapply init_counter. exact Hi.
  - intros m'. apply step_paired.
Qed.

Lemma completed_counts_data_scenario :
  completed (scenario_state 200)
  = Z.of_nat (List.length (data (scenario_state 200))) /\
  forall m', step (scenario_state 200) = Some (Ok m') -> paired (scenario_state 200) m'.
Proof.
  apply (@completed_counts_data zero_source scenario tt (initial scenario)
           (scenario_state 200) 200).
  - reflexivity.
  - vm_compute. reflexivity.
Defined.

(** C4.  In a completed run every record was built from an item whose
    stamps are in order: [datang <= mulai_lauk <= selesai_lauk <=
    selesai_angkut <= mulai_nasi <= selesai_nasi].  The items behind the
    records are those of [riwayat], record by record. *)
Theorem timestamps_ordered {R : RandomSource} (c : Config) (g0 : gen)
        (m0 m : PiketOmprengDES) (fuel : nat) :
  init c g0 = Ok m0 -> run_env fuel m0 = Some (Ok m) ->
  map snd (riwayat (history m)) = data m /\
  Forall chain_ok (riwayat (history m)).
Proof.
  intros Hi Hr. unfold run_env in Hr.
  apply env_run_steps in Hr. destruct Hr as [k [Hk _]].
  destruct (time_reachable c g0 m0 m k Hi Hk) as [_ [_ _ _ _ TR TD]].
  split; assumption.
Qed.

Lemma timestamps_ordered_scenario :
  map snd (riwayat (history (scenario_state 262))) = data (scenario_state 262) /\
  Forall chain_ok (riwayat (history (scenario_state 262))).
Proof.
  apply (@timestamps_ordered zero_source scenario tt (initial scenario)
           (scenario_state 262) 262).
  - reflexivity.
  - vm_compute. reflexivity.
Defined.

(** What the transport loop knew when it formed the batch [mu]: the load
    it drew and the number of items then in [antrian_lauk]. *)
Definition batch_bounded (c : Config) (mu : muatan) : Prop :=
  exists kapasitas tersedia t,
    mu_draw mu = Some (kapasitas, tersedia, t) /\
    (1 <= tersedia)%nat /\
    Z.of_nat (List.length (mu_batch mu)) <= ANGKUT_MAX_LOAD c /\
    (1 <= List.length (mu_batch mu))%nat /\
    (List.length (mu_batch mu) <= tersedia)%nat /\
    (mu_selesai mu == t)%Q.

Lemma muatan_bounded (c : Config) (mu : muatan) :
  1 <= ANGKUT_MIN_LOAD c -> muatan_ok c mu -> batch_bounded c mu.
Proof.
  intros Hmin [[[k a] t] (Hd & [Hk Ha] & Hl & Ht)].
  exists k, a, t. unfold planned in Hl. cbn [drawn_at] in Ht.
  repeat split; try assumption; rewrite Hl; lia.
Qed.

(** A batch as the transport loop forms it: [min(kapasitas, tersedia)]
    items, for a [kapasitas] drawn from the configured range and the
    [tersedia >= 1] items then in [antrian_lauk], all taken at the time of
    the draw.  It holds [ANGKUT_MAX_LOAD] items at most unless that is
    negative, and one item at least when the range starts at one or
    more. *)
Definition batch_formed (c : Config) (mu : muatan) : Prop :=
  exists kapasitas tersedia t,
    mu_draw mu = Some (kapasitas, tersedia, t) /\
    ANGKUT_MIN_LOAD c <= kapasitas <= ANGKUT_MAX_LOAD c /\
    (1 <= tersedia)%nat /\
    List.length (mu_batch mu) = Z.to_nat (Z.min kapasitas (Z.of_nat tersedia)) /\
    (List.length (mu_batch mu) <= tersedia)%nat /\
    (mu_selesai mu == t)%Q /\
    (0 <= ANGKUT_MAX_LOAD c ->
     Z.of_nat (List.length (mu_batch mu)) <= ANGKUT_MAX_LOAD c) /\
    (1 <= ANGKUT_MIN_LOAD c -> (1 <= List.length (mu_batch mu))%nat).

Lemma muatan_formed (c : Config) (mu : muatan) :
  muatan_ok c mu -> batch_formed c mu.
Proof.
  intros [[[k a] t] (Hd & [Hk Ha] & Hl & Ht)].
  exists k, a, t. unfold planned in Hl. cbn [drawn_at] in Ht.
  split; [exact Hd|]. split; [exact Hk|]. split; [exact Ha|].
  split; [exact Hl|]. split; [rewrite Hl; lia|]. split; [exact Ht|].
  split; intros; rewrite Hl; lia.
Qed.

(** C8, as the program has it.  Every batch the transport loop has formed
    holds at most the items that were in [antrian_lauk] when the load was
    drawn, it was complete at the time of the draw, and no [get] on
    [antrian_lauk] is ever left waiting.  It holds at most
    [ANGKUT_MAX_LOAD] items when that is not negative, and at least one
    item when [ANGKUT_MIN_LOAD] is one or more. *)
Theorem batch_size_bounds {R : RandomSource} `{!RandomSourceOk R}
        (c : Config) (g0 : gen) (m0 m : PiketOmprengDES) (n : nat) :
  init c g0 = Ok m0 -> steps n (spawn m0) = Some m ->
  Forall (batch_formed c) (muatan_log (history m)) /\
  get_queue (antrian_lauk m) = [].
Proof.
  intros Hi Hs.
  destruct (batch_reachable c g0 m0 m n Hi Hs) as [HS [_ _ BL]].
  split; [|destruct HS; assumption].
  eapply Forall_impl; [|exact BL]. intros mu. apply muatan_formed.
Qed.

Lemma batch_size_bounds_scenario :
  Forall (batch_formed scenario) (muatan_log (history (scenario_state 262))) /\
  get_queue (antrian_lauk (scenario_state 262)) = [].
Proof.
  apply (@batch_size_bounds zero_source zero_source_ok scenario tt
           (initial scenario) (scenario_state 262) 262).
  - reflexivity.
  - vm_compute. reflexivity.
Defined.

(** The scenario with a batch range that holds zero only. *)
Definition zero_loads : Config :=
  {| NUM_MEJA := 6; MAHASISWA_PER_MEJA := 1;
     PETUGAS_LAUK := 1; PETUGAS_ANGKUT := 1; PETUGAS_NASI := 1;
     LAUK_MIN_TIME := 10; LAUK_MAX_TIME := 10;
     ANGKUT_MIN_TIME := 5; ANGKUT_MAX_TIME := 5;
     ANGKUT_MIN_LOAD := 0; ANGKUT_MAX_LOAD := 0;
     NASI_MIN_TIME := 5; NASI_MAX_TIME := 5;
     START_HOUR := 7; START_MINUTE := 0;
     RANDOM_SEED := 42 |}.

Definition zero_loads_state (n : nat) : @PiketOmprengDES zero_source :=
  match steps n (spawn (initial zero_loads)) with
  | Some m => m
  | None => initial zero_loads
  end.

(** C8, refuted as stated: with the batch range [0 .. 0], which
    construction accepts, the transport loop finds the first prepared
    unit in [antrian_lauk] at time 10 and forms a batch of no item. *)
Lemma empty_batch_formed :
  init (R := zero_source) zero_loads tt = Ok (initial zero_loads) /\
  steps (R := zero_source) 57 (spawn (initial zero_loads))
  = Some (zero_loads_state 57) /\
  List.length (items (antrian_lauk (zero_loads_state 57))) = 1%nat /\
  muatan_log (history (zero_loads_state 57))
  = [mkMuatan (Some (0, 1%nat, 10%Q)) [] 10%Q].
Proof.
  split; [reflexivity|].
  split; [vm_compute; reflexivity|].
  split; vm_compute; reflexivity.
Qed.



(** C9.  Two constructions from equal configurations, each followed by
    [run], return the same thing: the same table, record for record, and
    the same aggregates, or the same error.  The state the random source
    was in before either construction plays no part. *)
Theorem runs_agree {R : RandomSource} (c1 c2 : Config) (g1 g2 : gen)
        (fuel1 fuel2 : nat)
        (r1 r2 : result (list (string * value) * list rekod)) :
  c1 = c2 ->
  simulate fuel1 c1 g1 = Some r1 -> simulate fuel2 c2 g2 = Some r2 ->
  r1 = r2.
Proof.
  intros <- H1 H2. unfold simulate in *.
  change (init c1 g2) with (init c1 g1) in H2.
  destruct (init c1 g1) as [m|e]; [|congruence].
  unfold run, run_env in *.
  destruct (env_run fuel1 (spawn m)) as [x1|] eqn:E1; [|discriminate].
  destruct (env_run fuel2 (spawn m)) as [x2|] eqn:E2; [|discriminate].
  rewrite (env_run_deterministic _ _ _ _ _ E1 E2) in H1. congruence.
Qed.

Lemma runs_agree_scenario :
  exists r,
    simulate (R := lcg_source) 300 scenario 7 = Some r /\
    simulate (R := lcg_source) 400 scenario 2026 = Some r.
Proof.
  destruct (simulate (R := lcg_source) 300 scenario 7) as [r1|] eqn:E1;
    [|vm_compute in E1; discriminate E1].
  destruct (simulate (R := lcg_source) 400 scenario 2026) as [r2|] eqn:E2;
    [|vm_compute in E2; discriminate E2].
  exists r1. split; [reflexivity|]. f_equal. symmetry.
  exact (@runs_agree lcg_source scenario scenario 7 2026 300 400 r1 r2
           eq_refl E1 E2).
Defined.

(** What a run returned and left behind, for statements about one run;
    the defaults stand for a run that raised or ran out of fuel. *)
Definition run_aggregates {R : RandomSource} (fuel : nat) (c : Config) (g0 : gen)
  : list (string * value) :=
  match simulate fuel c g0 with
  | Some (Ok (results, _)) => results
  | _ => []
  end.

Definition run_table {R : RandomSource} (fuel : nat) (c : Config) (g0 : gen)
  : list rekod :=
  match simulate fuel c g0 with
  | Some (Ok (_, df)) => df
  | _ => []
  end.

Definition run_model {R : RandomSource} (fuel : nat) (c : Config) (g0 : gen)
  : PiketOmprengDES :=
  match final_model fuel c g0 with
  | Some (Ok m) => m
  | _ => initial c
  end.


(** The scenario with no table, hence no unit. *)
Definition no_units : Config :=
  {| NUM_MEJA := 0; MAHASISWA_PER_MEJA := 1;
     PETUGAS_LAUK := 1; PETUGAS_ANGKUT := 1; PETUGAS_NASI := 1;
     LAUK_MIN_TIME := 10; LAUK_MAX_TIME := 10;
     ANGKUT_MIN_TIME := 5; ANGKUT_MAX_TIME := 5;
     ANGKUT_MIN_LOAD := 6; ANGKUT_MAX_LOAD := 6;
     NASI_MIN_TIME := 5; NASI_MAX_TIME := 5;
     START_HOUR := 7; START_MINUTE := 0;
     RANDOM_SEED := 42 |}.



(** C5, as the program has it.  What [analyze_results] returns beside the
    table has three entries: the largest total time, the mean total
    time and the number of records.  No entry is about the use of a
    server pool, and the busy times the stages accumulate are not read.
    On an empty record list it raises. *)
Theorem aggregates_returned {R : RandomSource} (m : PiketOmprengDES) :
  analyze_results m =
  match data m with
  | [] => Raise (KeyError "total_waktu")
  | _ :: _ =>
      Ok ([("durasi_total_detik"%string,
            VFloat (column_max (map r_total_waktu (data m))));
           ("avg_total_time"%string,
            VFloat (column_mean (map r_total_waktu (data m))));
           ("total_ompreng"%string,
            VInt (Z.of_nat (List.length (data m))))],
          data m)
  end.
Proof.
  unfold analyze_results. destruct (data m); reflexivity.
Qed.

(** C5, refuted as stated: the aggregates of the scenario run are three,
    under these keys, while all three stages have accumulated busy
    time. *)
Lemma aggregates_without_utilization :
  exists results df m,
    simulate (R := zero_source) 1000 scenario tt = Some (Ok (results, df)) /\
    map fst results
    = ["durasi_total_detik"%string; "avg_total_time"%string;
       "total_ompreng"%string] /\
    final_model (R := zero_source) 1000 scenario tt = Some (Ok m) /\
    (busy_lauk m == 60)%Q /\ (busy_angkut m == 30)%Q /\ (busy_nasi m == 30)%Q.
Proof.
  exists (run_aggregates (R := zero_source) 1000 scenario tt),
         (run_table (R := zero_source) 1000 scenario tt),
         (run_model (R := zero_source) 1000 scenario tt).
  repeat (split; [vm_compute; reflexivity|]). vm_compute. reflexivity.
Qed.

(** C2, as the program has it.  The transport and the finish resource
    are built with the configured numbers of servers, but [run] starts
    three generators at time zero whatever these numbers: [generate], one
    [proses_angkut] and one [proses_nasi].  At no later step is there
    more than one transport loop or more than one finish loop, so each of
    the two resources has one user at most and no request for either
    ever waits. *)
Theorem one_loop_per_stage {R : RandomSource} (c : Config) (g0 : gen)
        (m0 : PiketOmprengDES) :
  init c g0 = Ok m0 ->
  queue (env (spawn m0))
  = [mkEntry 0 URGENT 0 (EvInitialize (KGenerate 0));
     mkEntry 0 URGENT 1 (EvInitialize (KAngkut ALoop));
     mkEntry 0 URGENT 2 (EvInitialize (KNasi NLoop))] /\
  forall n m, steps n (spawn m0) = Some m ->
    capacity (petugas_angkut m) = PETUGAS_ANGKUT c /\
    capacity (petugas_nasi m) = PETUGAS_NASI c /\
    (esum (on_cont k_angkut) (queue (env m)) <= 1)%nat /\
    (esum (on_cont k_nasi) (queue (env m)) <= 1)%nat /\
    (List.length (users (petugas_angkut m)) <= 1)%nat /\
    (List.length (users (petugas_nasi m)) <= 1)%nat /\
    put_queue (petugas_angkut m) = [] /\
    put_queue (petugas_nasi m) = [] /\
    get_queue (antrian_lauk m) = [] /\
    get_queue (antrian_nasi m) = [].
Proof.
  intros Hi. split.
  - apply init_Ok in Hi. destruct Hi as [_ ->]. reflexivity.
  - intros n m Hs.
    destruct (cap_reachable c g0 m0 m n Hi Hs) as [_ C2 C3 _ _ _].
    destruct (sched_reachable c g0 m0 m n Hi Hs)
      as [_ _ _ _ UA UN PA PN GL GN OA ON _ _ _].
    split; [exact C2|]. split; [exact C3|].
    split; [exact OA|]. split; [exact ON|].
    split.
    { rewrite UA, repeat_length.
      pose proof (on_cont_le _ _ (queue (env m)) holds_angkut_le). lia. }
    split.
    { rewrite UN, repeat_length.
      pose proof (on_cont_le _ _ (queue (env m)) holds_nasi_le). lia. }
    repeat (split; [assumption|]). assumption.
Qed.

Lemma one_loop_per_stage_default :
  queue (env (spawn (R := zero_source) (initial default_config)))
  = [mkEntry 0 URGENT 0 (EvInitialize (KGenerate 0));
     mkEntry 0 URGENT 1 (EvInitialize (KAngkut ALoop));
     mkEntry 0 URGENT 2 (EvInitialize (KNasi NLoop))] /\
  forall n m, steps (R := zero_source) n (spawn (initial default_config)) = Some m ->
    capacity (petugas_angkut m) = PETUGAS_ANGKUT default_config /\
    capacity (petugas_nasi m) = PETUGAS_NASI default_config /\
    (esum (on_cont k_angkut) (queue (env m)) <= 1)%nat /\
    (esum (on_cont k_nasi) (queue (env m)) <= 1)%nat /\
    (List.length (users (petugas_angkut m)) <= 1)%nat /\
    (List.length (users (petugas_nasi m)) <= 1)%nat /\
    put_queue (petugas_angkut m) = [] /\
    put_queue (petugas_nasi m) = [] /\
    get_queue (antrian_lauk m) = [] /\
    get_queue (antrian_nasi m) = [].
Proof.
  apply (@one_loop_per_stage zero_source default_config tt (initial default_config)).
  reflexivity.
Defined.

Section NoUnits.

Context {R : RandomSource}.

Lemma steps_S (n : nat) (m m' : PiketOmprengDES) :
  step m = Some (Ok m') -> steps (S n) m = steps n m'.
Proof. intros H. simpl. rewrite H. reflexivity. Qed.

(** With no unit to make, the three generators end when first resumed:
    six scheduler steps, all at time zero, and nothing recorded. *)
Lemma no_units_run (c : Config) :
  TOTAL_OMPRENG c <= 0 ->
  exists m, steps 6 (spawn (initial c)) = Some m /\ step m = None /\
            data m = [] /\ completed m = 0 /\ now (env m) = 0%Q.
Proof.
  intros Hz.
  assert (Hlt : (0 <? TOTAL_OMPRENG c) = false) by (apply Z.ltb_ge; lia).
  eexists. split.
  - do 3 (erewrite steps_S;
      [|unfold step; cbn -[Z.ltb TOTAL_OMPRENG];
        unfold generate, angkut_loop, nasi_loop;
        cbn -[Z.ltb TOTAL_OMPRENG]; rewrite Hlt; reflexivity]).
    do 3 (erewrite steps_S;
      [|unfold step; cbn -[Z.ltb TOTAL_OMPRENG]; reflexivity]).
    cbn [steps]. reflexivity.
  - repeat split.
Qed.

End NoUnits.

(** C6, as the program has it.  A configuration that construction accepts
    and that has no unit is run: the scheduler loop ends after exactly
    six steps, at time zero and with an empty record list, and
    [analyze_results] then raises [KeyError], the empty frame having no
    column [total_waktu].  [run] returns neither a table nor
    aggregates. *)
Theorem no_units_raises {R : RandomSource} (c : Config) (g0 : gen)
        (m0 : PiketOmprengDES) :
  init c g0 = Ok m0 -> TOTAL_OMPRENG c <= 0 ->
  exists m,
    steps 6 (spawn m0) = Some m /\ step m = None /\
    now (env m) = 0%Q /\ data m = [] /\
    forall fuel, (6 <= fuel)%nat ->
      simulate fuel c g0 = Some (Raise (KeyError "total_waktu")).
Proof.
  intros Hi Hz.
  destruct (no_units_run c Hz) as [m (Hs & Hstop & Hd & _ & Hn)].
  pose proof Hi as Hi'. apply init_Ok in Hi'. destruct Hi' as [_ ->].
  exists m. repeat (split; [assumption|]).
  intros fuel Hf. unfold simulate. rewrite Hi. unfold run, run_env.
  rewrite (env_run_more_fuel 6 _ _ (steps_env_run 6 _ _ Hs Hstop) fuel Hf).
  cbn [bind]. unfold analyze_results. rewrite Hd. reflexivity.
Qed.

Lemma no_units_raises_witness :
  exists m,
    steps (R := zero_source) 6 (spawn (initial no_units)) = Some m /\
    step m = None /\ now (env m) = 0%Q /\ data m = [] /\
    forall fuel, (6 <= fuel)%nat ->
      simulate (R := zero_source) fuel no_units tt
      = Some (Raise (KeyError "total_waktu")).
Proof.
  apply (@no_units_raises zero_source no_units tt (initial no_units)).
  - reflexivity.
  - unfold TOTAL_OMPRENG, no_units; cbn. lia.
Defined.

(** C6, refuted as stated: the run of a configuration with no unit
    raises an error. *)
Lemma no_units_is_an_error :
  TOTAL_OMPRENG no_units = 0 /\
  simulate (R := zero_source) 6 no_units tt = Some (Raise (KeyError "total_waktu")).
Proof. split; [reflexivity | vm_compute; reflexivity]. Qed.

(* ===================================================================== *)
(** * Further properties of the engine *)
(* ===================================================================== *)

(** ** Servers in use *)

(** The state of a run of the default configuration after [n] scheduler
    steps, drawing from [zero_source]. *)
Definition default_state (n : nat) : @PiketOmprengDES zero_source :=
  match steps n (spawn (initial default_config)) with
  | Some m => m
  | None => initial default_config
  end.

(** X1.  At every scheduler step of a run the three resources have the
    capacities of the configuration; at most [PETUGAS_LAUK] units are
    being prepared, and at most one transport server and one finish
    server are in use, however many are configured. *)
Theorem servers_in_use {R : RandomSource} (c : Config) (g0 : gen)
        (m0 m : PiketOmprengDES) (n : nat) :
  init c g0 = Ok m0 -> steps n (spawn m0) = Some m ->
  capacity (petugas_lauk m) = PETUGAS_LAUK c /\
  capacity (petugas_angkut m) = PETUGAS_ANGKUT c /\
  capacity (petugas_nasi m) = PETUGAS_NASI c /\
  Z.of_nat (List.length (users (petugas_lauk m))) <= PETUGAS_LAUK c /\
  (List.length (users (petugas_angkut m)) <= 1)%nat /\
  (List.length (users (petugas_nasi m)) <= 1)%nat.
Proof.
  intros Hi Hs.
  pose proof (sched_reachable c g0 m0 m n Hi Hs) as HS.
  apply init_Ok in Hi. destruct Hi as [Ha ->].
  assert (HC : cap_inv c m).
  { eapply (steps_invariant (cap_inv c)); [exact (step_cap c) | | exact Hs].
    apply cap_initial. exact Ha. }
  destruct HC as [C1 C2 C3 U1 _ _].
  destruct HS as [_ _ _ _ UA UN _ _ _ _ OA ON _ _ _].
  repeat (split; [first [assumption | lia]|]).
  split.
  - rewrite UA, repeat_length.
    pose proof (on_cont_le _ _ (queue (env m)) holds_angkut_le). lia.
  - rewrite UN, repeat_length.
    pose proof (on_cont_le _ _ (queue (env m)) holds_nasi_le). lia.
Qed.

Lemma servers_in_use_default :
  capacity (petugas_lauk (default_state 300)) = PETUGAS_LAUK default_config /\
  capacity (petugas_angkut (default_state 300)) = PETUGAS_ANGKUT default_config /\
  capacity (petugas_nasi (default_state 300)) = PETUGAS_NASI default_config /\
  Z.of_nat (List.length (users (petugas_lauk (default_state 300))))
  <= PETUGAS_LAUK default_config /\
  (List.length (users (petugas_angkut (default_state 300))) <= 1)%nat /\
  (List.length (users (petugas_nasi (default_state 300))) <= 1)%nat.
Proof.
  apply (@servers_in_use zero_source default_config tt (initial default_config)
           (default_state 300) 300).
  - reflexivity.
  - vm_compute. reflexivity.
Defined.

(* ===================================================================== *)
(** ** The clock and the order of the table *)
(* ===================================================================== *)

Section Appends.

Context {R : RandomSource}.

(** What the callbacks of one event do to the clock, the start time and
    the record list: the first two are left alone, and the list either
    is left alone or gets the record of the unit whose finishing ends
    now. *)
Definition appended (m m' : PiketOmprengDES) : Prop :=
  now (env m') = now (env m) /\
  start_time m' = start_time m /\
  ((data m' = data m /\ riwayat (history m') = riwayat (history m)) \/
   (exists it mulai_nasi,
      data m' = data m ++ [rekod_of it mulai_nasi (now (env m)) m] /\
      riwayat (history m')
      = riwayat (history m) ++ [(it, rekod_of it mulai_nasi (now (env m)) m)])).

Lemma resumes_appended (k : cont) (v : option item) (m m' : PiketOmprengDES) :
  resumes m v k m' -> appended m m'.
Proof.
  unfold appended. intros H.
  inv_rules; prim_cases; msimpl;
    (split; [reflexivity|]); (split; [reflexivity|]);
    first [ left; split; reflexivity
          | right; do 2 eexists; split; reflexivity ].
Qed.

Lemma fires_appended (ev : event) (m m' : PiketOmprengDES) :
  fires m ev m' -> appended m m'.
Proof.
  intros H. destruct H; try (eapply resumes_appended; eassumption).
  - unfold appended.
    destruct (trigger_put_cases r m) as [[-> _]|[k [rest [_ [_ ->]]]]];
      msimpl; repeat split; left; split; reflexivity.
  - apply resumes_appended in H. unfold appended in *.
    destruct (trigger_get_cases s m) as [[E _]|[k' [rest [v [its [_ [_ E]]]]]]];
      rewrite E in H; msimpl in H; exact H.
  - unfold appended. repeat split. left. split; reflexivity.
Qed.

End Appends.

Lemma StronglySorted_snoc {A : Type} (le : A -> A -> Prop) (l : list A) (a : A) :
  StronglySorted le l -> Forall (fun x => le x a) l -> StronglySorted le (l ++ [a]).
Proof.
  induction 1 as [|x l Hs IH Hx]; intros Ha; cbn [app].
  - constructor; constructor.
  - apply Forall_cons_iff in Ha. destruct Ha as [Hxa Ha].
    constructor; [apply IH; exact Ha|].
    apply Forall_app. split; [exact Hx | constructor; [exact Hxa | constructor]].
Qed.

(** Records in the order of their [selesai_nasi]. *)
Definition by_selesai (a b : rekod) : Prop :=
  (r_selesai_nasi a <= r_selesai_nasi b)%Q.

Section Order.

Context {R : RandomSource}.

Record order_inv (m : PiketOmprengDES) : Prop := {
  oi_now : (0 <= now (env m))%Q;
  oi_past : Forall (fun rec => (r_selesai_nasi rec <= now (env m))%Q) (data m);
  oi_sorted : StronglySorted by_selesai (data m)
}.

(** The clock does not go back. *)
Lemma step_clock (m m' : PiketOmprengDES) :
  Time m -> step m = Some (Ok m') -> (now (env m) <= now (env m'))%Q.
Proof.
  intros HT Hs. apply step_fires in Hs. destruct Hs as [e [q [Hq Hf]]].
  apply fires_appended in Hf. destruct Hf as [Hn _]. rewrite Hn. msimpl.
  destruct HT as [TQ _ _ _ _ _]. rewrite Forall_forall in TQ.
  apply (TQ e). apply (heappop_In _ _ _ e Hq). left. reflexivity.
Qed.

Lemma step_order (m m' : PiketOmprengDES) :
  Time m -> order_inv m -> step m = Some (Ok m') -> order_inv m'.
Proof.
  intros HT [O1 O2 O3] Hs. pose proof (step_clock m m' HT Hs) as Hc.
  apply step_fires in Hs. destruct Hs as [e [q [Hq Hf]]].
  apply fires_appended in Hf. destruct Hf as [Hn [_ Hd]]. msimpl in Hn.
  assert (O2' : Forall (fun rec => (r_selesai_nasi rec <= now (env m'))%Q) (data m)).
  { eapply Forall_impl; [|exact O2]. cbv beta. intros rec Hr. lra. }
  destruct Hd as [[Hd _]|[it [mulai [Hd _]]]]; msimpl in Hd.
  - constructor; [lra | rewrite Hd; exact O2' | rewrite Hd; exact O3].
  - constructor; [lra | |]; rewrite Hd.
    + apply Forall_app. split; [exact O2'|]. constructor; [|constructor].
      msimpl. rewrite Hn. apply Qle_refl.
    + apply StronglySorted_snoc; [exact O3|].
      eapply Forall_impl; [|exact O2']. intros rec Hr. unfold by_selesai.
      msimpl. rewrite <- Hn. exact Hr.
Qed.

Lemma order_initial (c : Config) : order_inv (spawn (initial c)).
Proof. constructor; cbn; [apply Qle_refl | constructor | constructor]. Qed.

Lemma order_reachable (c : Config) (g0 : gen) (m0 m : PiketOmprengDES) (n : nat) :
  init c g0 = Ok m0 -> steps n (spawn m0) = Some m ->
  Sched m /\ Time m /\ order_inv m.
Proof.
  intros Hi Hs. apply init_Ok in Hi. destruct Hi as [Ha ->].
  eapply (steps_invariant (fun m => Sched m /\ Time m /\ order_inv m));
    [| | exact Hs].
  - intros m1 m2 (H1 & H2 & H3) Hst. split; [|split].
    + eapply step_sched; eassumption.
    + eapply step_time; eassumption.
    + eapply step_order; eassumption.
  - split; [apply sched_initial; exact Ha|].
    split; [apply time_initial | apply order_initial].
Qed.

End Order.

(** X2.  The simulation clock starts at zero and never goes back, and the
    records are appended in the order of their [selesai_nasi]: at every
    scheduler step the table is sorted by [selesai_nasi], no value of
    which lies after the current time. *)
Theorem table_in_completion_order {R : RandomSource} (c : Config) (g0 : gen)
        (m0 m : PiketOmprengDES) (n : nat) :
  init c g0 = Ok m0 -> steps n (spawn m0) = Some m ->
  now (env m0) = 0%Q /\ now (env (spawn m0)) = 0%Q /\
  (0 <= now (env m))%Q /\
  (forall m', step m = Some (Ok m') -> (now (env m) <= now (env m'))%Q) /\
  StronglySorted by_selesai (data m) /\
  Forall (fun rec => (r_selesai_nasi rec <= now (env m))%Q) (data m).
Proof.
  intros Hi Hs.
  destruct (order_reachable c g0 m0 m n Hi Hs) as (_ & HT & [O1 O2 O3]).
  apply init_Ok in Hi. destruct Hi as [_ ->].
  split; [reflexivity|]. split; [reflexivity|].
  split; [exact O1|]. split; [|split; assumption].
  intros m'. apply step_clock. exact HT.
Qed.

Lemma table_in_completion_order_scenario :
  now (env (initial (R := zero_source) scenario)) = 0%Q /\
  now (env (spawn (R := zero_source) (initial scenario))) = 0%Q /\
  (0 <= now (env (scenario_state 200)))%Q /\
  (forall m', step (scenario_state 200) = Some (Ok m') ->
              (now (env (scenario_state 200)) <= now (env m'))%Q) /\
  StronglySorted by_selesai (data (scenario_state 200)) /\
  Forall (fun rec => (r_selesai_nasi rec <= now (env (scenario_state 200)))%Q)
         (data (scenario_state 200)).
Proof.
  apply (@table_in_completion_order zero_source scenario tt
           (initial scenario) (scenario_state 200) 200).
  - reflexivity.
  - vm_compute. reflexivity.
Defined.

(* ===================================================================== *)
(** ** Every unit arrives at time zero *)
(* ===================================================================== *)

Definition item_zero (it : item) : Prop := (it_datang it == 0)%Q.

(** A generator frame resumed at time [t]: [generate] and a unit not yet
    started are only ever resumed at time zero, and every arrival time
    held in a frame is zero. *)
Definition cont_zero (t : Q) (k : cont) : Prop :=
  match k with
  | KGenerate _ => (t == 0)%Q
  | KOmpreng _ OStart => (t == 0)%Q
  | KOmpreng _ (OGranted datang) => (datang == 0)%Q
  | KOmpreng _ (OServed datang _ _) => (datang == 0)%Q
  | KAngkut (AGet batch _) | KAngkut (AGranted batch) | KAngkut (AServed batch _)
  | KAngkut (APut batch) => Forall item_zero batch
  | KNasi (NGranted it) | KNasi (NServed it _ _) => item_zero it
  | _ => True
  end.

Definition wait_zero (k : cont) : Prop :=
  match k with
  | KOmpreng _ (OGranted datang) => (datang == 0)%Q
  | _ => False
  end.

Definition value_zero (v : option item) : Prop :=
  match v with
  | Some it => item_zero it
  | None => True
  end.

Definition entry_zero (e : entry) : Prop :=
  match ev_cont (e_event e) with
  | Some k => cont_zero (e_time e) k /\ value_zero (ev_value (e_event e))
  | None => True
  end.

Definition rekod_zero (x : item * rekod) : Prop :=
  item_zero (fst x) /\ (r_total_waktu (snd x) == r_selesai_nasi (snd x))%Q.

Section Arrivals.

Context {R : RandomSource}.

Record zero_inv (q : list entry) (m : PiketOmprengDES) : Prop := {
  zi_queue : Forall entry_zero q;
  zi_lauk : Forall item_zero (items (antrian_lauk m));
  zi_nasi : Forall item_zero (items (antrian_nasi m));
  zi_wait : Forall wait_zero (put_queue (petugas_lauk m));
  zi_riwayat : Forall rekod_zero (riwayat (history m))
}.

Lemma Qred_zero (t : Q) : (t == 0)%Q -> (Qred (t + 0) == 0)%Q.
Proof. intros H. rewrite Qred_correct. lra. Qed.

Lemma rekod_of_zero (it : item) (mulai_nasi selesai : Q) (m : PiketOmprengDES) :
  item_zero it -> rekod_zero (it, rekod_of it mulai_nasi selesai m).
Proof.
  unfold rekod_zero, item_zero. msimpl. intros H. split; [exact H|].
  rewrite Qred_correct. lra.
Qed.

Lemma resumes_zero (k : cont) (v : option item) (m m' : PiketOmprengDES) :
  put_queue (petugas_angkut m) = [] ->
  put_queue (petugas_nasi m) = [] ->
  get_queue (antrian_lauk m) = [] ->
  get_queue (antrian_nasi m) = [] ->
  cont_zero (now (env m)) k ->
  value_zero v ->
  zero_inv (queue (env m)) m ->
  resumes m v k m' ->
  zero_inv (queue (env m')) m'.
Proof.
  intros PA PN GL GN Hk Hv [ZQ ZL ZN ZW ZR] Hf.
  inv_rules.
  all: subst; cbn [cont_zero value_zero] in Hk, Hv.
  all: prim_cases; msimpl in *.
  all: rewrite ?PA, ?PN, ?GL, ?GN in *.
  all: clean_prims.
  all: repeat match goal with
       | H : items _ = [] |- _ => rewrite H in *
       | H : items _ = _ :: _ |- _ => rewrite H in *
       end.
  all: try (exfalso; congruence).
  all: try match goal with
       | Hpq : put_queue (petugas_lauk _) ++ [?K] = ?k :: ?rest |- _ =>
           let W := fresh "W" in
           assert (W : Forall wait_zero (k :: rest))
             by (rewrite <- Hpq; apply Forall_app; split;
                 [assumption | repeat constructor; cbn [wait_zero]; assumption]);
           apply Forall_cons_iff in W; destruct W
       end.
  all: try match goal with
       | H : Forall _ (_ :: _) |- _ => apply Forall_cons_iff in H; destruct H
       end.
  all: constructor; msimpl; rewrite ?Forall_app; repeat split; try assumption.
  all: repeat match goal with H : items _ = _ |- context [items _] => rewrite H end.
  all: try (apply Forall_nil).
  all: repeat match goal with
       | |- Forall _ [_] => constructor; [|constructor]
       | |- Forall _ (_ :: _) => constructor
       | |- entry_zero _ =>
           unfold entry_zero;
           cbn [ev_cont ev_value e_event e_time cont_zero value_zero]
       | |- _ /\ _ => split
       | |- Forall item_zero (_ ++ _) => apply Forall_app
       | |- rekod_zero _ => apply rekod_of_zero
       | |- (Qred (_ + 0) == 0)%Q => apply Qred_zero
       | |- wait_zero _ => cbn [wait_zero]
       | H : wait_zero ?k |- cont_zero _ ?k =>
           destruct k as [?|? []|?|?]; cbn [wait_zero cont_zero] in *
       | |- item_zero (stamp _ _) => unfold item_zero, stamp; msimpl
       | |- item_zero (mkItem _ _ _ _ _) => unfold item_zero; msimpl
       end; try assumption; try exact I; try contradiction;
       try (apply Forall_nil).
Qed.

Definition Zero (m : PiketOmprengDES) : Prop := zero_inv (queue (env m)) m.

Lemma wait_cont_zero (t : Q) (k : cont) : wait_zero k -> cont_zero t k.
Proof. destruct k as [|oid []| |]; cbn [wait_zero cont_zero]; tauto. Qed.

Lemma step_zero (m m' : PiketOmprengDES) :
  Sched m -> Zero m -> step m = Some (Ok m') -> Zero m'.
Proof.
  intros HS HZ Hs. apply step_fires in Hs. destruct Hs as [e [q [Hq Hf]]].
  destruct HS as [_ _ _ _ _ _ PA PN GL GN _ _ _ _ _].
  destruct HZ as [ZQ ZL ZN ZW ZR].
  assert (He : entry_zero e).
  { rewrite Forall_forall in ZQ. apply ZQ.
    apply (heappop_In _ _ _ e Hq). left. reflexivity. }
  assert (HZ0 : zero_inv (queue (env (popped m e q))) (popped m e q)).
  { constructor; msimpl; try assumption.
    rewrite Forall_forall in *. intros x Hx. apply ZQ.
    apply (heappop_In _ _ _ x Hq). right. exact Hx. }
  set (m0 := popped m e q) in *.
  assert (PA0 : put_queue (petugas_angkut m0) = []) by exact PA.
  assert (PN0 : put_queue (petugas_nasi m0) = []) by exact PN.
  assert (GL0 : get_queue (antrian_lauk m0) = []) by exact GL.
  assert (GN0 : get_queue (antrian_nasi m0) = []) by exact GN.
  assert (Hnow : now (env m0) = e_time e) by reflexivity.
  unfold entry_zero in He. rewrite <- Hnow in He.
  clearbody m0. clear PA PN GL GN ZQ ZL ZN ZW ZR Hq Hnow.
  unfold Zero.
  destruct (e_event e) as [k|k|r k|r|s k|s v k|]; cbn [ev_cont ev_value] in He;
    inversion Hf; subst;
    try (destruct He as [? ?];
         eapply resumes_zero; try eassumption; fail).
  - (* EvRelease *)
    destruct (trigger_put_cases r m0) as [[-> C]|[k [rest [Hpq [Hc ->]]]]];
      [exact HZ0|].
    destruct r; msimpl in *; try congruence.
    destruct HZ0 as [ZQ ZL ZN ZW ZR].
    rewrite Hpq in ZW. apply Forall_cons_iff in ZW. destruct ZW as [Wk ZW].
    constructor; msimpl; try assumption.
    apply Forall_app. split; [assumption|].
    constructor; [|constructor]. unfold entry_zero.
    cbn [ev_cont ev_value e_event value_zero]. split; [|exact I].
    apply wait_cont_zero. exact Wk.
  - (* EvPut *)
    destruct He as [Hk Hv].
    assert (Hidle : trigger_get s m0 = m0)
      by (apply trigger_get_idle; destruct s; assumption).
    rewrite Hidle in *.
    eapply resumes_zero; try eassumption.
  - exact HZ0.
Qed.

Lemma zero_initial (c : Config) : Zero (spawn (initial c)).
Proof.
  constructor; cbn; repeat constructor; cbn; reflexivity.
Qed.

Lemma zero_reachable (c : Config) (g0 : gen) (m0 m : PiketOmprengDES) (n : nat) :
  init c g0 = Ok m0 -> steps n (spawn m0) = Some m ->
  Sched m /\ Time m /\ order_inv m /\ Zero m.
Proof.
  intros Hi Hs. apply init_Ok in Hi. destruct Hi as [Ha ->].
  eapply (steps_invariant (fun m => Sched m /\ Time m /\ order_inv m /\ Zero m));
    [| | exact Hs].
  - intros m1 m2 (H1 & H2 & H3 & H4) Hst.
    split; [eapply step_sched; eassumption|].
    split; [eapply step_time; eassumption|].
    split; [eapply step_order; eassumption | eapply step_zero; eassumption].
  - split; [apply sched_initial; exact Ha|].
    split; [apply time_initial|]. split; [apply order_initial | apply zero_initial].
Qed.

End Arrivals.

Lemma fold_max_sorted (l : list Q) (x d : Q) :
  StronglySorted Qle (x :: l) -> fold_left Qmax' l x = last (x :: l) d.
Proof.
  revert x. induction l as [|y l IH]; intros x H; [reflexivity|].
  apply StronglySorted_inv in H. destruct H as [Hs Hx].
  apply Forall_cons_iff in Hx. destruct Hx as [Hxy _].
  cbn [fold_left]. unfold Qmax' at 2.
  apply Qle_bool_iff in Hxy. rewrite Hxy. rewrite (IH y Hs). reflexivity.
Qed.

Lemma column_max_sorted (f : rekod -> Q) (rest : list rekod) (rec : rekod) :
  StronglySorted Qle (map f (rest ++ [rec])) ->
  column_max (map f (rest ++ [rec])) = f rec.
Proof.
  destruct rest as [|r rest]; [reflexivity|].
  cbn [app map column_max]. intros H.
  rewrite (fold_max_sorted _ _ 0%Q H), map_app. cbn [map].
  rewrite app_comm_cons. apply last_last.
Qed.

Lemma total_sorted (l : list rekod) :
  StronglySorted by_selesai l ->
  Forall (fun rec => (r_total_waktu rec == r_selesai_nasi rec)%Q) l ->
  StronglySorted Qle (map r_total_waktu l).
Proof.
  induction 1 as [|x l Hs IH Hx]; intros Hz; cbn [map]; [constructor|].
  apply Forall_cons_iff in Hz. destruct Hz as [Hzx Hz].
  constructor; [apply IH; exact Hz|].
  rewrite Forall_map. rewrite Forall_forall in *.
  intros y Hy. specialize (Hx y Hy). specialize (Hz y Hy).
  unfold by_selesai in Hx. lra.
Qed.

(** X3.  In a completed run every record was built from an item that
    arrived at time zero, so its [total_waktu] is its [selesai_nasi]; and
    [durasi_total_detik], the largest [total_waktu], is the
    [selesai_nasi] of the last record of the table. *)
Theorem total_time_is_completion_time {R : RandomSource} (c : Config) (g0 : gen)
        (m0 m : PiketOmprengDES) (fuel : nat) :
  init c g0 = Ok m0 -> run_env fuel m0 = Some (Ok m) ->
  Forall (fun x => (it_datang (fst x) == 0)%Q) (riwayat (history m)) /\
  Forall (fun rec => (r_total_waktu rec == r_selesai_nasi rec)%Q) (data m) /\
  forall results df,
    analyze_results m = Ok (results, df) ->
    exists rest rec,
      df = rest ++ [rec] /\
      In ("durasi_total_detik"%string, VFloat (r_total_waktu rec)) results /\
      (r_total_waktu rec == r_selesai_nasi rec)%Q.
Proof.
  intros Hi Hr. unfold run_env in Hr.
  apply env_run_steps in Hr. destruct Hr as [k [Hk _]].
  destruct (zero_reachable c g0 m0 m k Hi Hk) as (_ & HT & HO & HZ).
  destruct HT as [_ _ _ _ _ TD]. destruct HO as [_ _ OS].
  destruct HZ as [_ _ _ _ ZR].
  assert (Hd : Forall (fun rec => (r_total_waktu rec == r_selesai_nasi rec)%Q) (data m)).
  { rewrite <- TD, Forall_map. eapply Forall_impl; [|exact ZR].
    intros x [_ Hx]. exact Hx. }
  split; [eapply Forall_impl; [|exact ZR]; intros x [Hx _]; exact Hx|].
  split; [exact Hd|].
  intros results df Ha. unfold analyze_results in Ha.
  destruct (data m) as [|r0 l] eqn:E; [discriminate|].
  apply Ok_inj in Ha.
  destruct (exists_last (l := r0 :: l) ltac:(discriminate)) as [rest [rec Hl]].
  rewrite Hl in *. exists rest, rec.
  assert (Hrec : (r_total_waktu rec == r_selesai_nasi rec)%Q).
  { rewrite Forall_forall in Hd. apply Hd. apply in_or_app. right. left. reflexivity. }
  inversion Ha; subst results df. split; [reflexivity|]. split; [|exact Hrec].
  left. rewrite (column_max_sorted r_total_waktu rest rec); [reflexivity|].
  apply total_sorted; assumption.
Qed.

Lemma total_time_is_completion_time_scenario :
  Forall (fun x => (it_datang (fst x) == 0)%Q) (riwayat (history (scenario_state 262))) /\
  Forall (fun rec => (r_total_waktu rec == r_selesai_nasi rec)%Q)
         (data (scenario_state 262)) /\
  forall results df,
    analyze_results (scenario_state 262) = Ok (results, df) ->
    exists rest rec,
      df = rest ++ [rec] /\
      In ("durasi_total_detik"%string, VFloat (r_total_waktu rec)) results /\
      (r_total_waktu rec == r_selesai_nasi rec)%Q.
Proof.
  apply (@total_time_is_completion_time zero_source scenario tt (initial scenario)
           (scenario_state 262) 262).
  - reflexivity.
  - vm_compute. reflexivity.
Defined.

(* ===================================================================== *)
(** ** The columns the page derives from the table *)
(* ===================================================================== *)

(** [Series.clip(lower=lo)], on one value. *)
Definition clip_lower (lo x : Q) : Q := if Qltb x lo then lo else x.

(** [df_display["Waktu Tunggu"]]. *)
Definition waktu_tunggu (rec : rekod) : Q :=
  clip_lower 0 (r_mulai_nasi rec - r_selesai_lauk rec).

(** [df_display["Waktu Layanan"]]. *)
Definition waktu_layanan (rec : rekod) : Q :=
  (r_selesai_lauk rec - r_mulai_lauk rec) + (r_selesai_nasi rec - r_mulai_nasi rec).

(** [df_display["Kelompok"]]. *)
Definition kelompok (c : Config) (rec : rekod) : Z := r_id rec mod PETUGAS_NASI c.

Lemma clip_lower_id (lo x : Q) : (lo <= x)%Q -> clip_lower lo x = x.
Proof.
  intros H. unfold clip_lower, Qltb.
  destruct (Qcompare_spec x lo) as [E|E|E]; try reflexivity. lra.
Qed.

(** X4.  On the table of a completed run the clip in [Waktu Tunggu]
    never applies: finishing starts no earlier than preparation ended, so
    the column is the plain difference [mulai_nasi - selesai_lauk].
    [Waktu Layanan] is not negative, and [Kelompok] lies in
    [0 .. PETUGAS_NASI - 1]. *)
Theorem display_columns {R : RandomSource} (c : Config) (g0 : gen)
        (m0 m : PiketOmprengDES) (fuel : nat) :
  init c g0 = Ok m0 -> run_env fuel m0 = Some (Ok m) ->
  Forall (fun rec =>
            waktu_tunggu rec = (r_mulai_nasi rec - r_selesai_lauk rec)%Q /\
            (0 <= waktu_layanan rec)%Q /\
            0 <= kelompok c rec < PETUGAS_NASI c)
         (data m).
Proof.
  intros Hi Hr. unfold run_env in Hr.
  apply env_run_steps in Hr. destruct Hr as [k [Hk _]].
  destruct (time_reachable c g0 m0 m k Hi Hk) as [_ [_ _ _ _ TR TD]].
  apply init_Ok in Hi. destruct Hi as [(_ & _ & Hn & _) _].
  rewrite <- TD, Forall_map. eapply Forall_impl; [|exact TR].
  intros [it rec] (a & _ & _ & _ & _ & H1 & H2 & H3 & H4 & H5). cbn [snd].
  split; [|split].
  - unfold waktu_tunggu. apply clip_lower_id. lra.
  - unfold waktu_layanan. lra.
  - unfold kelompok. apply Z.mod_pos_bound. exact Hn.
Qed.

Lemma display_columns_scenario :
  Forall (fun rec =>
            waktu_tunggu rec = (r_mulai_nasi rec - r_selesai_lauk rec)%Q /\
            (0 <= waktu_layanan rec)%Q /\
            0 <= kelompok scenario rec < PETUGAS_NASI scenario)
         (data (scenario_state 262)).
Proof.
  apply (@display_columns zero_source scenario tt (initial scenario)
           (scenario_state 262) 262).
  - reflexivity.
  - vm_compute. reflexivity.
Defined.

(* ===================================================================== *)
(** ** Calling [run] again on a finished model *)
(* ===================================================================== *)

(** The frames that occur once every unit has been recorded: the two
    loops only at the test of their [while], and the preparation of
    units. *)
Definition cont_again (k : cont) : Prop :=
  match k with
  | KGenerate _ => True
  | KOmpreng _ (OServed _ _ t) => (0 <= t)%Q
  | KOmpreng _ _ => True
  | KAngkut ALoop => True
  | KNasi NLoop => True
  | _ => False
  end.

Definition entry_again (e : entry) : Prop :=
  ev_value (e_event e) = None /\
  match ev_cont (e_event e) with
  | Some k => cont_again k
  | None => True
  end.

Lemma again_not_bad (e : entry) : entry_again e -> e_bad e = 0%nat.
Proof.
  unfold entry_again, e_bad, on_event. intros [Hv Hk]. rewrite Hv.
  destruct (ev_cont (e_event e)) as [[|oid []|[]|[]]|]; cbn in *;
    try reflexivity; contradiction.
Qed.

Section Again.

Context {R : RandomSource}.

(** [m1] is the model as the first run left it. *)
Record again_inv (c : Config) (m1 : PiketOmprengDES) (q : list entry)
       (m : PiketOmprengDES) : Prop := {
  ag_config : config m = c;
  ag_done : TOTAL_OMPRENG c <= completed m;
  ag_data : data m = data m1;
  ag_completed : completed m = completed m1;
  ag_nasi : items (antrian_nasi m) = items (antrian_nasi m1);
  ag_busy_angkut : busy_angkut m = busy_angkut m1;
  ag_busy_nasi : busy_nasi m = busy_nasi m1;
  ag_busy_lauk : (busy_lauk m1 <= busy_lauk m)%Q;
  ag_queue : Forall entry_again q;
  ag_units :
    (esum (e_units (TOTAL_OMPRENG c)) q
     + ksum (k_units (TOTAL_OMPRENG c)) (put_queue (petugas_lauk m))
     + List.length (items (antrian_lauk m))
     = Z.to_nat (TOTAL_OMPRENG c) + List.length (items (antrian_lauk m1)))%nat
}.

Lemma resumes_again (c : Config) (m1 : PiketOmprengDES) (e : entry) (k : cont)
      (m m' : PiketOmprengDES) :
  ev_cont (e_event e) = Some k ->
  sched_inv (e :: queue (env m)) m ->
  again_inv c m1 (e :: queue (env m)) m ->
  resumes m None k m' ->
  again_inv c m1 (queue (env m')) m'.
Proof.
  intros Hk Hinv Hag Hf.
  destruct Hinv as [C1 C2 C3 UL UA UN PA PN GL GN OA ON LW ND PL].
  destruct Hag as [AC AD AT AK AN BA BN BL AQ AU]. subst c.
  apply Forall_cons_iff in AQ. destruct AQ as [[Hv He] AQ].
  rewrite Hk in He.
  rewrite esum_cons in AU. unfold e_units at 1, on_event in AU.
  rewrite Hk, Hv in AU. cbn [v_units] in AU.
  clear UL UA UN OA ON LW ND Hk Hv e.
  inv_rules.
  all: cbn [cont_again k_units] in *; try contradiction.
  all: try lia.
  all: prim_cases; msimpl in *.
  all: rewrite ?PA, ?PN, ?GL, ?GN in *.
  all: clean_prims.
  all: try (exfalso; congruence).
  all: try match goal with
       | H : Qltb _ 0 = false |- _ => apply Qltb_false in H
       end.
  all: try match goal with
       | Hpq : put_queue (petugas_lauk ?m) ++ [_] = ?k :: ?rest |- _ =>
           let W := fresh "W" in
           assert (W : forallb k_wait_lauk (k :: rest) = true)
             by (rewrite <- Hpq, forallb_app, PL; reflexivity);
           cbn [forallb] in W; apply andb_true_iff in W;
           let W1 := fresh "W" in
           destruct W as [W1 W]; apply wait_lauk_inv in W1;
           destruct W1 as [? [? ->]];
           pose proof (f_equal (ksum (k_units (TOTAL_OMPRENG (config m)))) Hpq) as HU;
           rewrite ksum_app, !ksum_cons, ksum_nil in HU;
           cbn [k_units] in HU
       end.
  all: constructor; msimpl; try assumption; try reflexivity.
  all: try (rewrite Qred_correct; lra).
  all: try (fsums; fsums; lia).
  all: rewrite ?Forall_app; repeat split; try assumption.
  all: repeat match goal with
       | |- Forall _ [_] => constructor; [|constructor]
       | |- Forall _ (_ :: _) => constructor
       | |- entry_again _ =>
           unfold entry_again;
           cbn [ev_cont ev_value e_event cont_again]; split
       end; try reflexivity; try exact I; try assumption.
Qed.

Lemma again_inv_perm (c : Config) (m1 : PiketOmprengDES) (q q' : list entry)
      (m : PiketOmprengDES) :
  Permutation q q' -> again_inv c m1 q m -> again_inv c m1 q' m.
Proof.
  intros Hp [AC AD AT AK AN BA BN BL AQ AU].
  constructor; try assumption.
  - eapply Permutation_Forall; eassumption.
  - rewrite <- (esum_perm _ _ _ Hp). exact AU.
Qed.

Lemma fires_again (c : Config) (m1 : PiketOmprengDES) (e : entry)
      (m m' : PiketOmprengDES) :
  sched_inv (e :: queue (env m)) m ->
  again_inv c m1 (e :: queue (env m)) m ->
  fires m (e_event e) m' ->
  again_inv c m1 (queue (env m')) m'.
Proof.
  intros Hinv Hag Hf.
  assert (Hv : ev_value (e_event e) = None).
  { destruct Hag as [_ _ _ _ _ _ _ _ AQ _].
    apply Forall_cons_iff in AQ. destruct AQ as [[Hv _] _]. exact Hv. }
  destruct (e_event e) as [k|k|r k|r|s k|s v k|] eqn:Ee; inversion Hf; subst;
    try (eapply resumes_again; [rewrite Ee; reflexivity | exact Hinv | exact Hag
                               | eassumption]).
  - (* EvRelease *)
    destruct Hinv as [C1 C2 C3 UL UA UN PA PN GL GN OA ON LW ND PL].
    destruct Hag as [AC AD AT AK AN BA BN BL AQ AU].
    apply Forall_cons_iff in AQ. destruct AQ as [_ AQ].
    rewrite esum_cons in AU. unfold e_units at 1, on_event in AU.
    rewrite Ee in AU. cbn [ev_cont] in AU.
    destruct (trigger_put_cases r m) as [[-> C]|[k [rest [Hq [Hc ->]]]]].
    + constructor; assumption.
    + destruct r; msimpl in *; try congruence.
      rewrite Hq in PL. cbn [forallb] in PL. apply andb_true_iff in PL.
      destruct PL as [W PL]. apply wait_lauk_inv in W. destruct W as [oid [d ->]].
      rewrite Hq in AU. rewrite ksum_cons in AU. cbn [k_units] in AU.
      constructor; msimpl; try assumption.
      * apply Forall_app. split; [assumption|]. constructor; [|constructor].
        unfold entry_again. cbn [ev_cont ev_value e_event cont_again]. auto.
      * fsums. lia.
  - (* EvPut *)
    assert (Hidle : trigger_get s m = m).
    { apply trigger_get_idle. destruct Hinv. destruct s; assumption. }
    rewrite Hidle in *.
    eapply resumes_again; [rewrite Ee; reflexivity | exact Hinv | exact Hag
                          | eassumption].
  - (* EvGet *)
    discriminate Hv.
  - (* EvProcess *)
    destruct Hag as [AC AD AT AK AN BA BN BL AQ AU].
    apply Forall_cons_iff in AQ. destruct AQ as [_ AQ].
    rewrite esum_cons in AU. unfold e_units at 1, on_event in AU.
    rewrite Ee in AU. cbn [ev_cont] in AU.
    constructor; assumption.
Qed.

Lemma again_popped (c : Config) (m1 m : PiketOmprengDES) (e : entry)
      (q : list entry) :
  again_inv c m1 (queue (env m)) m -> heappop (queue (env m)) = Some (e, q) ->
  again_inv c m1 (e :: queue (env (popped m e q))) (popped m e q).
Proof.
  intros H Hq. apply heappop_perm in Hq.
  apply (again_inv_perm _ _ _ _ _ Hq) in H.
  destruct H. constructor; assumption.
Qed.

Lemma step_again (c : Config) (m1 m m' : PiketOmprengDES) :
  Sched m -> again_inv c m1 (queue (env m)) m -> step m = Some (Ok m') ->
  again_inv c m1 (queue (env m')) m'.
Proof.
  intros HS HA Hs. apply step_fires in Hs. destruct Hs as [e [q [Hq Hf]]].
  eapply fires_again; [apply sched_popped; eassumption | | exact Hf].
  apply again_popped; assumption.
Qed.

Context `{!RandomSourceOk R}.

(** With every unit recorded the loops do not poll: each step uses up
    weight. *)
Lemma again_progress (c : Config) (m1 m : PiketOmprengDES) (e : entry)
      (r : list entry) :
  valid c -> Sched m -> again_inv c m1 (queue (env m)) m ->
  heappop (queue (env m)) = Some (e, r) ->
  exists m', step m = Some (Ok m') /\
    (weight (TOTAL_OMPRENG c) (queue (env m')) m'
     < weight (TOTAL_OMPRENG c) (queue (env m)) m)%nat.
Proof.
  intros Hv HS HA Hq.
  pose proof (again_popped c m1 m e r HA Hq) as HA0.
  pose proof (sched_popped _ _ _ HS Hq) as HS0.
  assert (Hc : config m = c) by (destruct HA; assumption).
  assert (Hb : e_bad e = 0%nat).
  { apply again_not_bad. destruct HA0 as [_ _ _ _ _ _ _ _ AQ _].
    apply Forall_cons_iff in AQ. tauto. }
  assert (Hv0 : valid (config (popped m e r))) by (msimpl; rewrite Hc; exact Hv).
  destruct (fire_total e (popped m e r) Hv0 Hb) as [m' Hf].
  pose proof (step_popped _ _ _ _ Hq Hf) as Hs.
  exists m'. split; [exact Hs|].
  assert (Hc' : config m' = c).
  { pose proof (step_again _ _ _ _ HS HA Hs) as HA'. destruct HA'; assumption. }
  destruct (fires_weight e _ _ Hv0 HS0 (fire_sound _ _ _ Hf)) as [Hlt|[k [_ [[Hi _] _]]]].
  - rewrite Hc' in Hlt. rewrite (weight_popped _ _ _ _ Hq).
    msimpl in Hlt. rewrite Hc in Hlt. msimpl. exact Hlt.
  - exfalso. destruct HA as [_ AD _ _ _ _ _ _ _ _]. msimpl in Hi.
    rewrite Hc in Hi. lia.
Qed.

Lemma again_halts (c : Config) (m1 : PiketOmprengDES) :
  valid c ->
  forall (w : nat) (m : PiketOmprengDES),
    weight (TOTAL_OMPRENG c) (queue (env m)) m = w ->
    Sched m -> again_inv c m1 (queue (env m)) m ->
    exists n m', steps n m = Some m' /\ step m' = None /\
                 Sched m' /\ again_inv c m1 (queue (env m')) m'.
Proof.
  intros Hv w. induction w as [w IH] using lt_wf_ind.
  intros m Hw HS HA.
  destruct (heappop (queue (env m))) as [[e r]|] eqn:Hq.
  - destruct (again_progress c m1 m e r Hv HS HA Hq) as [m' [Hs Hlt]].
    pose proof (step_sched _ _ HS Hs) as HS'.
    pose proof (step_again _ _ _ _ HS HA Hs) as HA'.
    destruct (IH _ ltac:(rewrite <- Hw; exact Hlt) m' eq_refl HS' HA')
      as [n [m2 (H1 & H2 & H3 & H4)]].
    exists (S n), m2. split; [|auto]. simpl. rewrite Hs. exact H1.
  - exists 0%nat, m. split; [reflexivity|]. split; [|auto].
    unfold step. rewrite Hq. reflexivity.
Qed.

End Again.

Section RunAgain.

Context {R : RandomSource}.

(** When the scheduler loop has come to its end no resource is held and
    nothing waits for one. *)
Lemma sched_quiet (m : PiketOmprengDES) :
  Sched m -> queue (env m) = [] ->
  users (petugas_lauk m) = [] /\ users (petugas_angkut m) = [] /\
  users (petugas_nasi m) = [] /\ put_queue (petugas_lauk m) = [].
Proof.
  intros [C1 C2 C3 UL UA UN PA PN GL GN OA ON LW ND PL] Hq.
  rewrite Hq in *. rewrite esum_nil in *. cbn [repeat] in *.
  assert (HU : users (petugas_lauk m) = []).
  { destruct (users (petugas_lauk m)) as [|p us]; [reflexivity|].
    specialize (UL p). rewrite esum_nil in UL.
    pose proof (pcount_pos_of_cons p us). lia. }
  repeat (split; [assumption|]).
  destruct (put_queue (petugas_lauk m)) as [|k pq]; [reflexivity|].
  specialize (LW ltac:(discriminate)). rewrite HU in LW. cbn in LW. lia.
Qed.

Lemma sched_spawn (m : PiketOmprengDES) :
  Sched m -> queue (env m) = [] -> Sched (spawn m).
Proof.
  intros HS Hq. destruct (sched_quiet m HS Hq) as (U1 & U2 & U3 & P1).
  destruct HS as [C1 C2 C3 UL UA UN PA PN GL GN OA ON LW ND PL].
  unfold Sched, spawn, run_processes. cbn [fold_left]. msimpl. rewrite Hq.
  constructor; msimpl; intros; sums; rewrite ?U1, ?U2, ?U3, ?P1;
    cbn [app repeat Nat.add List.length forallb];
    try assumption; try reflexivity; try lia; try contradiction.
Qed.

Lemma again_start (c : Config) (m1 : PiketOmprengDES) :
  Sched m1 -> Flow c m1 -> queue (env m1) = [] ->
  again_inv c m1 (queue (env (spawn m1))) (spawn m1).
Proof.
  intros HS HF Hq. destruct (sched_quiet m1 HS Hq) as (_ & _ & _ & P1).
  destruct (flow_final c m1 HF Hq) as (Hlen & Hc & _ & _ & Hl & _).
  assert (FC : config m1 = c) by (destruct HF; assumption).
  unfold spawn, run_processes. cbn [fold_left]. msimpl. rewrite Hq.
  constructor; msimpl; try reflexivity; try assumption.
  - lia.
  - apply Qle_refl.
  - repeat constructor.
  - rewrite P1, Hl. fsums. cbn [app]. fsums. rewrite Z.sub_0_r. lia.
Qed.

Lemma analyze_results_data (m m' : PiketOmprengDES) :
  data m' = data m -> analyze_results m' = analyze_results m.
Proof. unfold analyze_results. intros ->. reflexivity. Qed.

End RunAgain.

(** X5.  When the first [run] on a model of a valid configuration has
    returned, [run] called a second time on that model (as the page does)
    comes to an end and returns the table and the aggregates of the
    first call: no record is added.  But every unit is prepared once
    more: [TOTAL_OMPRENG] new items are left in [antrian_lauk], which
    was empty, and [busy_lauk] is not smaller than before, while
    [busy_angkut], [busy_nasi] and [completed] stay as they were. *)
Theorem run_again_strands_units {R : RandomSource} `{!RandomSourceOk R}
        (c : Config) (g0 : gen) (m0 m1 : PiketOmprengDES) (fuel : nat) :
  valid c -> init c g0 = Ok m0 -> run_env fuel m0 = Some (Ok m1) ->
  exists results df fuel2 m2,
    run fuel m0 = Some (Ok (results, df)) /\
    run_env fuel2 m1 = Some (Ok m2) /\
    run fuel2 m1 = Some (Ok (results, df)) /\
    data m2 = data m1 /\ completed m2 = completed m1 /\
    items (antrian_lauk m1) = [] /\
    List.length (items (antrian_lauk m2)) = Z.to_nat (TOTAL_OMPRENG c) /\
    (busy_lauk m1 <= busy_lauk m2)%Q /\
    busy_angkut m2 = busy_angkut m1 /\ busy_nasi m2 = busy_nasi m1.
Proof.
  intros Hv Hi Hr1.
  pose proof Hr1 as Hr. unfold run_env in Hr.
  apply env_run_steps in Hr. destruct Hr as [k [Hk Hstop1]].
  pose proof (step_None _ Hstop1) as Hq1.
  destruct (flow_reachable c g0 m0 m1 k Hi Hk) as [HS1 HF1].
  destruct (flow_final c m1 HF1 Hq1) as (Hlen & _ & _ & _ & Hl1 & _).
  pose proof (sched_spawn m1 HS1 Hq1) as HS.
  pose proof (again_start c m1 HS1 HF1 Hq1) as HA.
  destruct (again_halts c m1 Hv _ _ eq_refl HS HA) as [f2 [m2 (Hn & Hstop & HS2 & HA2)]].
  pose proof (steps_env_run _ _ _ Hn Hstop) as Hr2.
  pose proof (step_None _ Hstop) as Hq2.
  destruct (sched_quiet m2 HS2 Hq2) as (_ & _ & _ & P2).
  destruct HA2 as [AC AD AT AK AN BA BN BL AQ AU].
  rewrite Hq2, P2, Hl1, esum_nil, ksum_nil in AU. cbn [List.length] in AU.
  assert (Hpos : 0 < TOTAL_OMPRENG c).
  { destruct Hv as (_ & H1 & H2 & _). apply Z.mul_pos_pos; assumption. }
  destruct (analyze_results m1) as [[results df]|x] eqn:Ea.
  2:{ exfalso. unfold analyze_results in Ea.
      destruct (data m1); [cbn in Hlen; lia | discriminate]. }
  exists results, df, f2, m2.
  split.
  { unfold run. rewrite Hr1. cbn [bind]. rewrite Ea. reflexivity. }
  split; [exact Hr2|].
  split.
  { unfold run. unfold run_env in *. rewrite Hr2. cbn [bind].
    rewrite (analyze_results_data m1 m2 AT). rewrite Ea. reflexivity. }
  repeat (split; [first [assumption | lia]|]). assumption.
Qed.

Lemma run_again_strands_units_scenario :
  exists results df fuel2 m2,
    run (R := zero_source) 262 (initial scenario) = Some (Ok (results, df)) /\
    run_env fuel2 (scenario_state 262) = Some (Ok m2) /\
    run fuel2 (scenario_state 262) = Some (Ok (results, df)) /\
    data m2 = data (scenario_state 262) /\
    completed m2 = completed (scenario_state 262) /\
    items (antrian_lauk (scenario_state 262)) = [] /\
    List.length (items (antrian_lauk m2)) = Z.to_nat (TOTAL_OMPRENG scenario) /\
    (busy_lauk (scenario_state 262) <= busy_lauk m2)%Q /\
    busy_angkut m2 = busy_angkut (scenario_state 262) /\
    busy_nasi m2 = busy_nasi (scenario_state 262).
Proof.
  apply (@run_again_strands_units zero_source zero_source_ok scenario tt
           (initial scenario) (scenario_state 262) 262).
  - unfold valid, accepted, scenario; cbn.
    repeat split; try lia; try (unfold Qle; cbn; lia).
  - reflexivity.
  - vm_compute. reflexivity.
Defined.

(* ===================================================================== *)
(** ** Waiting for a preparation server *)
(* ===================================================================== *)

(** X6.  A unit waits for a preparation server only while every one of
    the [PETUGAS_LAUK] servers is taken, counting a server whose release
    is scheduled but not yet processed; and what waits are units that
    have asked for a server, nothing else. *)
Theorem no_idle_preparation_server {R : RandomSource} (c : Config) (g0 : gen)
        (m0 m : PiketOmprengDES) (n : nat) :
  init c g0 = Ok m0 -> steps n (spawn m0) = Some m ->
  put_queue (petugas_lauk m) <> [] ->
  PETUGAS_LAUK c
  <= Z.of_nat (List.length (users (petugas_lauk m)))
     + Z.of_nat (esum is_release_lauk (queue (env m))) /\
  Forall (fun k => exists oid datang, k = KOmpreng oid (OGranted datang))
         (put_queue (petugas_lauk m)).
Proof.
  intros Hi Hs Hne.
  pose proof (sched_reachable c g0 m0 m n Hi Hs) as HS.
  apply init_Ok in Hi. destruct Hi as [Ha ->].
  assert (HC : cap_inv c m).
  { eapply (steps_invariant (cap_inv c)); [exact (step_cap c) | | exact Hs].
    apply cap_initial. exact Ha. }
  destruct HC as [C1 _ _ _ _ _].
  destruct HS as [_ _ _ _ _ _ _ _ _ _ _ _ LW _ PL].
  split; [rewrite <- C1; apply LW; exact Hne|].
  apply Forall_forall. intros k Hk. apply wait_lauk_inv.
  rewrite forallb_forall in PL. apply PL. exact Hk.
Qed.

Lemma no_idle_preparation_server_scenario :
  PETUGAS_LAUK scenario
  <= Z.of_nat (List.length (users (petugas_lauk (scenario_state 20))))
     + Z.of_nat (esum is_release_lauk (queue (env (scenario_state 20)))) /\
  Forall (fun k => exists oid datang, k = KOmpreng oid (OGranted datang))
         (put_queue (petugas_lauk (scenario_state 20))).
Proof.
  apply (@no_idle_preparation_server zero_source scenario tt (initial scenario)
           (scenario_state 20) 20).
  - reflexivity.
  - vm_compute. reflexivity.
  - vm_compute. discriminate.
Defined.

(* ===================================================================== *)
(** ** Every unit is carried once *)
(* ===================================================================== *)

(** The items of all batches formed so far, in the order they were taken. *)
Definition carried {R : RandomSource} (m : PiketOmprengDES) : list item :=
  List.concat (map mu_batch (muatan_log (history m))).

(** Occurrences of the id [x] among the items a frame holds once their
    batch is formed. *)
Definition k_carried (x : Z) (k : cont) (v : option item) : nat :=
  match k with
  | KAngkut (AGranted b) | KAngkut (AServed b _) | KAngkut (APut b) => icount x b
  | KNasi NGet => v_ids x v
  | KNasi (NGranted it) | KNasi (NServed it _ _) => id_is x (it_id it)
  | _ => 0%nat
  end.

Definition e_carried (x : Z) : entry -> nat := on_event (k_carried x).

Ltac csums :=
  unfold carried; msimpl;
  rewrite ?map_app, ?List.concat_app; cbn [map List.concat mu_batch];
  rewrite ?app_nil_r;
  rewrite ?esum_app, ?esum_cons, ?esum_nil, ?icount_app, ?icount_cons,
          ?icount_nil, ?rcount_app, ?rcount_cons, ?rcount_nil;
  cbn [on_event ev_cont ev_value e_event k_carried e_carried v_ids it_id r_id
       stamp rekod_of].

Ltac csums_in H :=
  unfold carried in H; msimpl in H;
  rewrite ?map_app, ?List.concat_app in H; cbn [map List.concat mu_batch] in H;
  rewrite ?app_nil_r in H;
  rewrite ?esum_app, ?esum_cons, ?esum_nil, ?icount_app, ?icount_cons,
          ?icount_nil, ?rcount_app, ?rcount_cons, ?rcount_nil in H;
  cbn [on_event ev_cont ev_value e_event k_carried e_carried v_ids it_id r_id
       stamp rekod_of] in H.

Section Carried.

Context {R : RandomSource}.

Definition carry_inv (x : Z) (q : list entry) (m : PiketOmprengDES) : Prop :=
  icount x (carried m)
  = (esum (e_carried x) q + icount x (items (antrian_nasi m))
     + rcount x (data m))%nat.

Lemma resumes_carry (x : Z) (e : entry) (k : cont) (m m' : PiketOmprengDES) :
  ev_cont (e_event e) = Some k ->
  sched_inv (e :: queue (env m)) m ->
  carry_inv x (e :: queue (env m)) m ->
  resumes m (ev_value (e_event e)) k m' ->
  carry_inv x (queue (env m')) m'.
Proof.
  unfold carry_inv. intros Hk Hinv HC Hf.
  destruct Hinv as [C1 C2 C3 UL UA UN PA PN GL GN OA ON LW ND PL].
  rewrite esum_cons in HC. unfold e_carried at 1 in HC.
  rewrite (on_event_Some _ _ _ Hk) in HC.
  rewrite esum_cons, (on_cont_Some _ _ _ Hk) in OA.
  rewrite esum_cons, (on_cont_Some _ _ _ Hk) in ON.
  rewrite esum_cons, (on_cont_Some _ _ _ Hk) in UA.
  rewrite esum_cons, (on_cont_Some _ _ _ Hk) in UN.
  clear UL LW ND Hk.
  revert Hf HC. generalize (ev_value (e_event e)). intros v Hf HC. clear e.
  inv_rules.
  all: subst; cbn [k_carried v_ids k_angkut k_nasi k_holds_angkut k_holds_nasi] in *.
  all: try (assert (ZA : esum (on_cont k_angkut) (queue (env m)) = 0%nat) by lia;
            pose proof (no_angkut_no_holder _ ZA) as ZHA;
            rewrite ZHA in UA; cbn [Nat.add repeat] in UA).
  all: try (assert (ZN : esum (on_cont k_nasi) (queue (env m)) = 0%nat) by lia;
            pose proof (no_nasi_no_holder _ ZN) as ZHN;
            rewrite ZHN in UN; cbn [Nat.add repeat] in UN).
  all: try match goal with
       | H : items ?s <> [] |- _ =>
           let E := fresh "Eit" in
           destruct (items s) eqn:E; [congruence|]
       end.
  all: prim_cases; msimpl in *.
  all: rewrite ?PA, ?PN, ?GL, ?GN, ?UA, ?UN in *.
  all: clean_prims.
  all: repeat match goal with
       | H : items _ = [] |- _ => rewrite H in *
       | H : items _ = _ :: _ |- _ => rewrite H in *
       end; cbn [List.length] in *.
  all: repeat match goal with
       | H : _ :: _ = _ :: _ |- _ => apply cons_inj in H; destruct H; subst
       end.
  all: try (exfalso; lia).
  all: try (exfalso; congruence).
  all: try match goal with
       | Hpq : put_queue (petugas_lauk _) ++ [_] = ?k :: ?rest |- _ =>
           let W := fresh "W" in
           assert (W : forallb k_wait_lauk (k :: rest) = true)
             by (rewrite <- Hpq, forallb_app, PL; reflexivity);
           cbn [forallb] in W; apply andb_true_iff in W;
           let W1 := fresh "W" in
           destruct W as [W1 W]; apply wait_lauk_inv in W1;
           destruct W1 as [? [? ->]]
       end.
  all: csums_in HC; csums; csums;
       repeat match goal with H : items _ = _ |- context [items _] => rewrite H end;
       csums; try lia.
Qed.

Lemma fires_carry (x : Z) (e : entry) (m m' : PiketOmprengDES) :
  sched_inv (e :: queue (env m)) m ->
  carry_inv x (e :: queue (env m)) m ->
  fires m (e_event e) m' ->
  carry_inv x (queue (env m')) m'.
Proof.
  intros Hinv HC Hf.
  destruct (e_event e) as [k|k|r k|r|s k|s v k|] eqn:Ee; inversion Hf; subst;
    try (eapply resumes_carry; try eassumption; rewrite Ee; try reflexivity;
         eassumption).
  - (* EvRelease *)
    assert (Hn : ev_cont (e_event e) = None) by (rewrite Ee; reflexivity).
    unfold carry_inv in *.
    rewrite esum_cons in HC. unfold e_carried at 1 in HC.
    rewrite (no_cont_on_event _ _ Hn), Nat.add_0_l in HC.
    destruct Hinv as [_ _ _ _ _ _ PA PN _ _ _ _ _ _ PL].
    match goal with |- context [trigger_put ?r0 _] =>
      destruct (trigger_put_cases r0 m) as [[-> C]|[k [rest [Hpq [Hc ->]]]]];
        [exact HC|];
        destruct r0; msimpl in *; try congruence
    end.
    rewrite Hpq in PL. cbn [forallb] in PL. apply andb_true_iff in PL.
    destruct PL as [W _]. apply wait_lauk_inv in W. destruct W as [oid [d ->]].
    csums_in HC. csums. lia.
  - (* EvPut *)
    assert (Hidle : trigger_get s m = m).
    { apply trigger_get_idle. destruct Hinv. destruct s; assumption. }
    rewrite Hidle in *.
    eapply resumes_carry; try eassumption; rewrite Ee; try reflexivity; eassumption.
  - (* EvProcess *)
    assert (Hn : ev_cont (e_event e) = None) by (rewrite Ee; reflexivity).
    unfold carry_inv in *.
    rewrite esum_cons in HC. unfold e_carried at 1 in HC.
    rewrite (no_cont_on_event _ _ Hn), Nat.add_0_l in HC. exact HC.
Qed.

Definition Carry (m : PiketOmprengDES) : Prop :=
  forall x, carry_inv x (queue (env m)) m.

Lemma step_carry (m m' : PiketOmprengDES) :
  Sched m -> Carry m -> step m = Some (Ok m') -> Carry m'.
Proof.
  intros HS HC Hs x. apply step_fires in Hs. destruct Hs as [e [q [Hq Hf]]].
  eapply fires_carry; [apply sched_popped; eassumption | | exact Hf].
  specialize (HC x). unfold carry_inv in *. msimpl.
  rewrite <- (esum_perm _ _ _ (heappop_perm _ _ _ Hq)). exact HC.
Qed.

Lemma carry_initial (c : Config) : Carry (spawn (initial c)).
Proof. intros x. reflexivity. Qed.

Lemma carry_reachable (c : Config) (g0 : gen) (m0 m : PiketOmprengDES) (n : nat) :
  init c g0 = Ok m0 -> steps n (spawn m0) = Some m -> Sched m /\ Carry m.
Proof.
  intros Hi Hs. apply init_Ok in Hi. destruct Hi as [Ha ->].
  eapply (steps_invariant (fun m => Sched m /\ Carry m)); [| | exact Hs].
  - intros m1 m2 [H1 H2] Hst. split;
      [eapply step_sched | eapply step_carry]; eassumption.
  - split; [apply sched_initial; exact Ha | apply carry_initial].
Qed.

End Carried.

Lemma icount_occ (x : Z) (l : list item) :
  icount x l = count_occ Z.eq_dec (map it_id l) x.
Proof.
  induction l as [|it l IH]; [reflexivity|].
  rewrite icount_cons, IH. cbn [map count_occ]. unfold id_is.
  destruct (Z.eqb_spec (it_id it) x); destruct (Z.eq_dec (it_id it) x);
    try contradiction; reflexivity.
Qed.

Lemma rcount_occ (x : Z) (l : list rekod) :
  rcount x l = count_occ Z.eq_dec (map r_id l) x.
Proof.
  induction l as [|r l IH]; [reflexivity|].
  rewrite rcount_cons, IH. cbn [map count_occ]. unfold id_is.
  destruct (Z.eqb_spec (r_id r) x); destruct (Z.eq_dec (r_id r) x);
    try contradiction; reflexivity.
Qed.

Lemma length_concat_le (bound : nat) (l : list (list item)) :
  Forall (fun b => (List.length b <= bound)%nat) l ->
  (List.length (List.concat l) <= bound * List.length l)%nat.
Proof.
  induction 1 as [|b l Hb Hl IH]; cbn [List.concat List.length]; [lia|].
  rewrite length_app. lia.
Qed.

(** X7.  In a completed run the batches the transport loop formed hold,
    all together, exactly the units of the table: the ids carried are the
    ids recorded, each as often, so no unit is carried twice and none
    reaches the finish stage without a batch.  With a batch range that
    starts at one or more, the loop therefore made at least
    [TOTAL_OMPRENG / ANGKUT_MAX_LOAD] trips. *)
Theorem every_unit_carried_once {R : RandomSource} `{!RandomSourceOk R}
        (c : Config) (g0 : gen) (m0 m : PiketOmprengDES) (fuel : nat) :
  init c g0 = Ok m0 -> run_env fuel m0 = Some (Ok m) ->
  Permutation (map it_id (carried m)) (map r_id (data m)) /\
  List.length (carried m) = Z.to_nat (TOTAL_OMPRENG c) /\
  (1 <= ANGKUT_MIN_LOAD c ->
   TOTAL_OMPRENG c
   <= ANGKUT_MAX_LOAD c * Z.of_nat (List.length (muatan_log (history m)))).
Proof.
  intros Hi Hr. unfold run_env in Hr.
  apply env_run_steps in Hr. destruct Hr as [k [Hk Hstop]].
  apply step_None in Hstop.
  destruct (carry_reachable c g0 m0 m k Hi Hk) as [_ HC].
  destruct (flow_reachable c g0 m0 m k Hi Hk) as [_ HF].
  destruct (batch_reachable c g0 m0 m k Hi Hk) as [_ [_ _ BL]].
  destruct (flow_final c m HF Hstop) as (Hlen & _ & _ & _ & _ & Hn).
  assert (HP : Permutation (map it_id (carried m)) (map r_id (data m))).
  { apply (Permutation_count_occ Z.eq_dec). intros x.
    rewrite <- icount_occ, <- rcount_occ. rewrite (HC x).
    rewrite Hstop, Hn, esum_nil, icount_nil. lia. }
  assert (HL : List.length (carried m) = Z.to_nat (TOTAL_OMPRENG c)).
  { apply Permutation_length in HP. rewrite !length_map in HP. lia. }
  split; [exact HP|]. split; [exact HL|].
  intros Hmin.
  destruct (muatan_log (history m)) as [|mu log] eqn:E.
  - unfold carried in HL. rewrite E in HL. cbn [map List.concat List.length] in *.
    rewrite Z.mul_0_r. lia.
  - assert (Hmax : 1 <= ANGKUT_MAX_LOAD c).
    { apply Forall_cons_iff in BL. destruct BL as [[[[kp av] t] (_ & [Hd _] & _)] _].
      lia. }
    assert (Hb : Forall (fun b => (List.length b <= Z.to_nat (ANGKUT_MAX_LOAD c))%nat)
                        (map mu_batch (mu :: log))).
    { rewrite Forall_map. eapply Forall_impl; [|exact BL].
      intros mu' Hmu. apply (muatan_bounded c mu' Hmin) in Hmu.
      destruct Hmu as (kp & av & t & _ & _ & Hle & _). lia. }
    apply length_concat_le in Hb. unfold carried in HL. rewrite E in HL.
    rewrite length_map in Hb.
    assert (Hz : Z.of_nat (Z.to_nat (TOTAL_OMPRENG c))
                 <= Z.of_nat (Z.to_nat (ANGKUT_MAX_LOAD c) * List.length (mu :: log)))
      by (apply Nat2Z.inj_le; rewrite <- HL; exact Hb).
    rewrite Nat2Z.inj_mul, (Z2Nat.id (ANGKUT_MAX_LOAD c)) in Hz by lia.
    pose proof (Z2Nat.id (TOTAL_OMPRENG c)).
    destruct (Z.le_gt_cases 0 (TOTAL_OMPRENG c)); [lia|].
    assert (0 <= ANGKUT_MAX_LOAD c * Z.of_nat (List.length (mu :: log)))
      by (apply Z.mul_nonneg_nonneg; lia).
    lia.
Qed.

Lemma every_unit_carried_once_scenario :
  Permutation (map it_id (carried (scenario_state 262)))
              (map r_id (data (scenario_state 262))) /\
  List.length (carried (scenario_state 262)) = Z.to_nat (TOTAL_OMPRENG scenario) /\
  (1 <= ANGKUT_MIN_LOAD scenario ->
   TOTAL_OMPRENG scenario
   <= ANGKUT_MAX_LOAD scenario
      * Z.of_nat (List.length (muatan_log (history (scenario_state 262))))).
Proof.
  apply (@every_unit_carried_once zero_source zero_source_ok scenario tt
           (initial scenario) (scenario_state 262) 262).
  - reflexivity.
  - vm_compute. reflexivity.
Defined.

(* ===================================================================== *)
(** ** What a completed run leaves behind *)
(* ===================================================================== *)

(** X9.  When [env.run()] returns, nothing is left in flight: both stores
    are empty, no resource has a user or a waiting request, no [get]
    waits, and [completed] is the number of units of the configuration
    (zero when [TOTAL_OMPRENG] is negative). *)
Theorem run_leaves_nothing_in_flight {R : RandomSource} (c : Config) (g0 : gen)
        (m0 m : PiketOmprengDES) (fuel : nat) :
  init c g0 = Ok m0 -> run_env fuel m0 = Some (Ok m) ->
  queue (env m) = [] /\
  items (antrian_lauk m) = [] /\ items (antrian_nasi m) = [] /\
  get_queue (antrian_lauk m) = [] /\ get_queue (antrian_nasi m) = [] /\
  users (petugas_lauk m) = [] /\ users (petugas_angkut m) = [] /\
  users (petugas_nasi m) = [] /\
  put_queue (petugas_lauk m) = [] /\ put_queue (petugas_angkut m) = [] /\
  put_queue (petugas_nasi m) = [] /\
  completed m = Z.max 0 (TOTAL_OMPRENG c).
Proof.
  intros Hi Hr. unfold run_env in Hr.
  apply env_run_steps in Hr. destruct Hr as [k [Hk Hstop]].
  apply step_None in Hstop.
  destruct (flow_reachable c g0 m0 m k Hi Hk) as [HS HF].
  destruct (flow_final c m HF Hstop) as (Hlen & Hc & _ & _ & Hl & Hn).
  destruct (sched_quiet m HS Hstop) as (U1 & U2 & U3 & P1).
  destruct HS as [_ _ _ _ _ _ PA PN GL GN _ _ _ _ _].
  repeat (split; [assumption|]). lia.
Qed.

Lemma run_leaves_nothing_in_flight_scenario :
  queue (env (scenario_state 262)) = [] /\
  items (antrian_lauk (scenario_state 262)) = [] /\
  items (antrian_nasi (scenario_state 262)) = [] /\
  get_queue (antrian_lauk (scenario_state 262)) = [] /\
  get_queue (antrian_nasi (scenario_state 262)) = [] /\
  users (petugas_lauk (scenario_state 262)) = [] /\
  users (petugas_angkut (scenario_state 262)) = [] /\
  users (petugas_nasi (scenario_state 262)) = [] /\
  put_queue (petugas_lauk (scenario_state 262)) = [] /\
  put_queue (petugas_angkut (scenario_state 262)) = [] /\
  put_queue (petugas_nasi (scenario_state 262)) = [] /\
  completed (scenario_state 262) = Z.max 0 (TOTAL_OMPRENG scenario).
Proof.
  apply (@run_leaves_nothing_in_flight zero_source scenario tt (initial scenario)
           (scenario_state 262) 262).
  - reflexivity.
  - vm_compute. reflexivity.
Defined.
